(** * Valid-mode 1-D convolution kernels of [convolve.c]

    A shallow embedding of the scalar and vectorised convolution routines
    of [src/convolve.c], and the properties of them that the specification
    states.

    Modelling conventions.
    - A C [float] is an element of a scalar type [F] with a zero, an addition
      and a multiplication ([Arith]).  Every theorem of the generic part
      holds for any such arithmetic; [Binary32] instantiates it with
      IEEE-754 single precision (round to nearest even, [SpecFloat] at
      precision 24 and maximal exponent 128), [ZArith_model] with exact
      integer arithmetic.  A C expression [a + b * c] on floats is
      [fadd a (fmul b c)]: two roundings, no contraction.
    - A C [int] is a [Z]: the lengths are taken small enough for every
      index computed from them to stay in the range of [int], and signed
      overflow is not modelled.  The buffers [in], [kernel] and [out] are
      lists whose lengths are the sizes the caller really allocated; the
      [int] arguments [length] and [kernel_length] are passed separately,
      as in the C signature.
    - The callee runs in a state monad over the caller's output buffer and a
      log of the accesses made to the caller's three buffers.  An access
      outside a buffer, or the use of a scratch element that was never
      written, has no defined behaviour in C: the run stops with a [Fault]. *)

From Stdlib Require Import ZArith Lia Bool.
From Stdlib Require Import Floats.SpecFloat.
From stdpp Require Import base tactics option list.

Local Open Scope Z_scope.

(** ** Scalars *)

Class Arith (F : Type) := {
  fzero : F;
  fadd : F -> F -> F;
  fmul : F -> F -> F
}.

(** ** Memory, accesses and faults

    The caller's buffers [in], [kernel] and [out], and the call-local
    arrays [kernel_reverse] and [in_aligned]; the loads and stores logged
    on the caller's buffers; the two ways of leaving defined behaviour. *)

Inductive buffer := BufIn | BufKernel | BufOut | BufKernelReverse | BufInAligned.

Inductive event :=
  | Load (b : buffer) (i : Z)
  | Store (i : Z).

Inductive fault :=
  | OutOfBounds (b : buffer) (i : Z)
  | Indeterminate (b : buffer) (i : Z).

(** The state of a call: the contents of [out], and the accesses made so
    far to the caller's buffers, newest first. *)
Record state (F : Type) := mkState {
  out : list F;
  trace : list event
}.
Arguments mkState {F} _ _.
Arguments out {F} _.
Arguments trace {F} _.

(** A computation returns a value and a state, or leaves defined
    behaviour. *)
Inductive result (F A : Type) :=
  | Done (a : A) (s : state F)
  | Fault (f : fault).
Arguments Done {F A} _ _.
Arguments Fault {F A} _.

Definition M (F A : Type) := state F -> result F A.

Definition ret {F A} (a : A) : M F A := fun s => Done a s.

Definition bind {F A B} (m : M F A) (k : A -> M F B) : M F B :=
  fun s => match m s with
           | Done a s' => k a s'
           | Fault f => Fault f
           end.

Definition fail {F A} (f : fault) : M F A := fun _ => Fault f.

Notation "x <- m ;; k" := (bind m (fun x => k))
  (at level 100, m at next level, right associativity).
Notation "m ;;; k" := (bind m (fun _ => k))
  (at level 100, right associativity).

(** [l[i]] with a C index: [None] outside the buffer. *)
Definition zlookup {A} (l : list A) (i : Z) : option A :=
  if i <? 0 then None else l !! Z.to_nat i.

Definition log {F} (e : event) : M F unit :=
  fun s => Done tt (mkState (out s) (e :: trace s)).

(** Reading element [i] of one of the caller's read-only buffers. *)
Definition load {F} (b : buffer) (buf : list F) (i : Z) : M F F :=
  match zlookup buf i with
  | Some v => log (Load b i) ;;; ret v
  | None => fail (OutOfBounds b i)
  end.

(** Reading [out[i]]. *)
Definition load_out {F} (i : Z) : M F F :=
  fun s => match zlookup (out s) i with
           | Some v => Done v (mkState (out s) (Load BufOut i :: trace s))
           | None => Fault (OutOfBounds BufOut i)
           end.

(** [out[i] = v]. *)
Definition store_out {F} (i : Z) (v : F) : M F unit :=
  fun s => match zlookup (out s) i with
           | Some _ => Done tt (mkState (<[Z.to_nat i := v]> (out s))
                                        (Store i :: trace s))
           | None => Fault (OutOfBounds BufOut i)
           end.

(** ** Loops

    [for (i = lo; cond i; i += step) body] threading the locals [a] that
    the body updates.  Every loop of the source counts upwards to a bound
    by a positive step, so the distance to the bound is fuel enough
    ([for_fuel_enough] below): the [O] branch is only reached with the
    condition false. *)
Fixpoint for_fuel {F A} (fuel : nat) (cond : Z -> bool) (step : Z)
    (body : Z -> A -> M F A) (i : Z) (a : A) : M F A :=
  match fuel with
  | O => ret a
  | S fuel' =>
      if cond i
      then a' <- body i a ;; for_fuel fuel' cond step body (i + step) a'
      else ret a
  end.

(** [for (i = lo; i < hi; i += step)] *)
Definition for_lt {F A} (lo hi step : Z) (body : Z -> A -> M F A) (a : A)
    : M F A :=
  for_fuel (Z.to_nat (hi - lo)) (fun i => i <? hi) step body lo a.

(** [for (i = lo; i <= hi; i++)] *)
Definition for_le {F A} (lo hi : Z) (body : Z -> A -> M F A) (a : A)
    : M F A :=
  for_fuel (Z.to_nat (hi + 1 - lo)) (fun i => i <=? hi) 1 body lo a.

(** ** The routines *)

Section Kernels.
Context {F : Type} `{Arith F}.

(** [out[i] += data[i+k] * kernel[j]], where [data] is [in] or, in the
    routines that copy the input, [in_aligned[0]]; [rd] reads it. *)
Definition accumulate (rd : Z -> M F F) (kernel : list F) (i k j : Z)
    : M F unit :=
  x <- rd (i + k) ;;
  c <- load BufKernel kernel j ;;
  o <- load_out i ;;
  store_out i (fadd o (fmul x c)).

(** [convolve_naive], lines 53-65. *)
Definition convolve_naive (in_ : list F) (length : Z) (kernel : list F)
    (kernel_length : Z) : M F Z :=
  for_le 0 (length - kernel_length) (fun i _ =>
    store_out i fzero ;;;
    for_lt 0 kernel_length 1 (fun k _ =>
      accumulate (load BufIn in_) kernel i k (kernel_length - k - 1)) tt) tt ;;;
  ret 0.

(** [convolve_reversed_naive], lines 67-84.  The coefficient is read once
    per tap, before the inner loop. *)
Definition convolve_reversed_naive (in_ : list F) (length : Z)
    (kernel : list F) (kernel_length : Z) : M F Z :=
  for_le 0 (length - kernel_length) (fun i _ => store_out i fzero) tt ;;;
  for_lt 0 kernel_length 1 (fun k _ =>
    kernel_value <- load BufKernel kernel (kernel_length - k - 1) ;;
    for_le 0 (length - kernel_length) (fun i _ =>
      x <- load BufIn in_ (i + k) ;;
      o <- load_out i ;;
      store_out i (fadd o (fmul x kernel_value))) tt) tt ;;;
  ret 0.

(** ** Vector registers and scratch arrays

    A vector register is the list of its lanes, lane 0 first: 4 lanes for
    [__m128], 8 for [__m256]. *)

Definition SSE_SIMD_LENGTH : Z := 4.
Definition AVX_SIMD_LENGTH : Z := 8.
Definition KERNEL_LENGTH : Z := 16.
Definition VECTOR_LENGTH : Z := 16.

(** [_mm_set1_ps], [_mm256_broadcast_ss] *)
Definition mm_set1_ps (w : nat) (x : F) : list F := replicate w x.
(** [_mm_setzero_ps], [_mm256_setzero_ps] *)
Definition mm_setzero_ps (w : nat) : list F := replicate w fzero.
(** [_mm_mul_ps], [_mm256_mul_ps] *)
Definition mm_mul_ps (a b : list F) : list F := zip_with fmul a b.
(** [_mm_add_ps], [_mm256_add_ps] *)
Definition mm_add_ps (a b : list F) : list F := zip_with fadd a b.

(** [_mm_loadu_ps (buf + p)], [_mm256_loadu_ps (buf + p)]: [w] consecutive
    elements of a caller's buffer, from index [p]. *)
Fixpoint mm_loadu_ps (w : nat) (b : buffer) (buf : list F) (p : Z)
    : M F (list F) :=
  match w with
  | O => ret []
  | S w' =>
      x <- load b buf p ;;
      xs <- mm_loadu_ps w' b buf (p + 1) ;;
      ret (x :: xs)
  end.

(** [_mm_storeu_ps (out + p, v)], [_mm256_storeu_ps (out + p, v)]: one
    store per lane. *)
Fixpoint mm_storeu_ps (p : Z) (v : list F) : M F unit :=
  match v with
  | [] => ret tt
  | x :: v' => store_out p x ;;; mm_storeu_ps (p + 1) v'
  end.

(** A call-local array of [n] elements, none of them written yet. *)
Definition alloca {A} (n : Z) : list (option A) := replicate (Z.to_nat n) None.

(** [arr[i] = v] on a call-local array. *)
Definition local_store {A} (b : buffer) (arr : list (option A)) (i : Z)
    (v : A) : M F (list (option A)) :=
  match zlookup arr i with
  | Some _ => ret (<[Z.to_nat i := Some v]> arr)
  | None => fail (OutOfBounds b i)
  end.

(** [arr[i]] on a call-local array. *)
Definition local_load {A} (b : buffer) (arr : list (option A)) (i : Z)
    : M F A :=
  match zlookup arr i with
  | Some (Some v) => ret v
  | Some None => fail (Indeterminate b i)
  | None => fail (OutOfBounds b i)
  end.

(** [_mm256_loadu_ps (row + p)] on a row of [in_aligned]. *)
Fixpoint row_loadu_ps (w : nat) (row : list (option F)) (p : Z)
    : M F (list F) :=
  match w with
  | O => ret []
  | S w' =>
      x <- local_load BufInAligned row p ;;
      xs <- row_loadu_ps w' row (p + 1) ;;
      ret (x :: xs)
  end.

(** [memcpy (row, in + src, n * sizeof (float))]: a negative [n] converts
    to a size beyond any object. *)
Definition memcpy_from_in (row : list (option F)) (in_ : list F)
    (src n : Z) : M F (list (option F)) :=
  if n <? 0 then fail (OutOfBounds BufIn (src + n))
  else
    xs <- mm_loadu_ps (Z.to_nat n) BufIn in_ src ;;
    if Z.of_nat (length row) <? n then fail (OutOfBounds BufInAligned n)
    else ret ((Some <$> xs) ++ drop (Z.to_nat n) row).

(** The reversed kernel, each coefficient repeated across a register:
    [for (i = 0; i < n; i++) kernel_reverse[i] = set1 (kernel[n - i - 1])]. *)
Definition reverse_kernel (w : nat) (kernel : list F) (n : Z)
    (kernel_reverse : list (option (list F)))
    : M F (list (option (list F))) :=
  for_lt 0 n 1 (fun i kernel_reverse =>
    c <- load BufKernel kernel (n - i - 1) ;;
    local_store BufKernelReverse kernel_reverse i (mm_set1_ps w c))
    kernel_reverse.

(** The scalar computation of the last output sample, shared by the
    vectorised routines: ["Need to do the last value as a special case"]. *)
Definition last_value (rd : Z -> M F F) (kernel : list F) (i n : Z)
    : M F unit :=
  store_out i fzero ;;;
  for_lt 0 n 1 (fun k _ => accumulate rd kernel i k (n - k - 1)) tt.

(** [convolve_sse_simple], lines 100-144. *)
Definition convolve_sse_simple (in_ : list F) (length : Z) (kernel : list F)
    (kernel_length : Z) : M F Z :=
  kernel_reverse <-
    reverse_kernel 4 kernel kernel_length (alloca kernel_length) ;;
  for_lt 0 (length - kernel_length) 4 (fun i _ =>
    acc <- for_lt 0 kernel_length 1 (fun k acc =>
      data_block <- mm_loadu_ps 4 BufIn in_ (i + k) ;;
      kr <- local_load BufKernelReverse kernel_reverse k ;;
      let prod := mm_mul_ps kr data_block in
      ret (mm_add_ps acc prod)) (mm_setzero_ps 4) ;;
    mm_storeu_ps i acc) tt ;;;
  last_value (load BufIn in_) kernel (length - kernel_length) kernel_length ;;;
  ret 0.

(** The accumulation of one output block of 16 samples, common to the AVX
    routines below; [loadu l p] loads the 8-lane block at offset [p] of the
    input copy shifted by [l]. *)
Definition avx_block (loadu : Z -> Z -> M F (list F))
    (kernel_reverse : list (option (list F))) (i : Z)
    : M F (list F * list F) :=
  for_lt 0 KERNEL_LENGTH VECTOR_LENGTH (fun k accs =>
    let data_offset := i + k in
    for_lt 0 SSE_SIMD_LENGTH 1 (fun l accs =>
      for_lt 0 VECTOR_LENGTH SSE_SIMD_LENGTH (fun m accs =>
        data_block <- loadu l (data_offset + m) ;;
        kr <- local_load BufKernelReverse kernel_reverse (k + l + m) ;;
        let prod := mm_mul_ps kr data_block in
        let acc0 := mm_add_ps (fst accs) prod in
        data_block <- loadu l (data_offset + m + AVX_SIMD_LENGTH) ;;
        kr <- local_load BufKernelReverse kernel_reverse (k + l + m) ;;
        let prod := mm_mul_ps kr data_block in
        let acc1 := mm_add_ps (snd accs) prod in
        ret (acc0, acc1)) accs) accs)
    (mm_setzero_ps 8, mm_setzero_ps 8).

(** [convolve_avx_unrolled_vector_unaligned], lines 573-632.  The
    argument [kernel_length] is not used. *)
Definition convolve_avx_unrolled_vector_unaligned (in_ : list F)
    (length : Z) (kernel : list F) (kernel_length : Z) : M F Z :=
  kernel_reverse <-
    reverse_kernel 8 kernel KERNEL_LENGTH (alloca KERNEL_LENGTH) ;;
  for_lt 0 (length - KERNEL_LENGTH) VECTOR_LENGTH (fun i _ =>
    accs <- avx_block (fun l p => mm_loadu_ps 8 BufIn in_ (l + p))
              kernel_reverse i ;;
    mm_storeu_ps i (fst accs) ;;;
    mm_storeu_ps (i + AVX_SIMD_LENGTH) (snd accs)) tt ;;;
  last_value (load BufIn in_) kernel (length - KERNEL_LENGTH) KERNEL_LENGTH ;;;
  ret 0.

(** Row [l] of the two-dimensional scratch array [in_aligned]. *)
Definition row_of (in_aligned : list (list (option F))) (l : Z)
    : M F (list (option F)) :=
  match zlookup in_aligned l with
  | Some row => ret row
  | None => fail (OutOfBounds BufInAligned l)
  end.

(** The shifted copies: [for (i = 0; i < 4; i++)
    memcpy (in_aligned[i], in + i, (length - i) * sizeof (float))]. *)
Definition shifted_copies (in_ : list F) (length : Z)
    (in_aligned : list (list (option F))) : M F (list (list (option F))) :=
  for_lt 0 SSE_SIMD_LENGTH 1 (fun i in_aligned =>
    row <- row_of in_aligned i ;;
    row <- memcpy_from_in row in_ i (length - i) ;;
    ret (<[Z.to_nat i := row]> in_aligned)) in_aligned.

(** [convolve_avx_unrolled_vector], lines 500-568: as the unaligned routine,
    reading the input through four shifted copies of it.  The argument
    [kernel_length] is not used. *)
Definition convolve_avx_unrolled_vector (in_ : list F) (length : Z)
    (kernel : list F) (kernel_length : Z) : M F Z :=
  let in_aligned := replicate (Z.to_nat AVX_SIMD_LENGTH) (alloca length) in
  kernel_reverse <-
    reverse_kernel 8 kernel KERNEL_LENGTH (alloca KERNEL_LENGTH) ;;
  in_aligned <- shifted_copies in_ length in_aligned ;;
  for_lt 0 (length - KERNEL_LENGTH) VECTOR_LENGTH (fun i _ =>
    accs <- avx_block (fun l p =>
                row <- row_of in_aligned l ;; row_loadu_ps 8 row p)
              kernel_reverse i ;;
    mm_storeu_ps i (fst accs) ;;;
    mm_storeu_ps (i + AVX_SIMD_LENGTH) (snd accs)) tt ;;;
  last_value (fun p =>
      row <- row_of in_aligned 0 ;; local_load BufInAligned row p)
    kernel (length - KERNEL_LENGTH) KERNEL_LENGTH ;;;
  ret 0.

(** ** The reference sum

    The specification's [Σ_{k=0}^{K-1} in[i+k] * kernel[K-1-k]], summed from
    zero in ascending [k]: [conv_sum in_ kernel K i n] is the sum of the
    first [n] taps.  Elements outside a buffer count as zero. *)
Definition rd0 (l : list F) (i : Z) : F := default fzero (zlookup l i).

Fixpoint conv_sum (in_ kernel : list F) (K i : Z) (n : nat) : F :=
  match n with
  | O => fzero
  | S n' =>
      fadd (conv_sum in_ kernel K i n')
           (fmul (rd0 in_ (i + Z.of_nat n'))
                 (rd0 kernel (K - 1 - Z.of_nat n')))
  end.

(** The expected output buffer: [N - K + 1] samples. *)
Definition conv_valid (in_ kernel : list F) : list F :=
  let N := Z.of_nat (length in_) in
  let K := Z.of_nat (length kernel) in
  (fun i : nat => conv_sum in_ kernel K (Z.of_nat i) (length kernel))
    <$> seq 0 (Z.to_nat (N - K + 1)).

End Kernels.


(** Running a routine on the caller's output buffer, log empty. *)
Definition run {F A} (m : M F A) (out0 : list F) : result F A :=
  m (mkState out0 []).

(** The output buffer a run leaves, when it returns. *)
Definition out_of {F A} (r : result F A) : option (list F) :=
  match r with
  | Done _ s => Some (out s)
  | Fault _ => None
  end.

(** The accesses a run made, oldest first. *)
Definition trace_of {F A} (r : result F A) : option (list event) :=
  match r with
  | Done _ s => Some (rev (trace s))
  | Fault _ => None
  end.

Module Binary32.

Definition prec : Z := 24.
Definition emax : Z := 128.

Definition b32_add : spec_float -> spec_float -> spec_float := SFadd prec emax.
Definition b32_mul : spec_float -> spec_float -> spec_float := SFmul prec emax.

(** The float nearest to an integer. *)
Definition b32_of_Z (z : Z) : spec_float := binary_normalize prec emax z 0 false.

#[export] Instance b32_arith : Arith spec_float :=
  {| fzero := S754_zero false; fadd := b32_add; fmul := b32_mul |}.

End Binary32.


(** Exact integer arithmetic, where the ring laws hold. *)
Module ZArith_model.

#[export] Instance z_arith : Arith Z :=
  {| fzero := 0; fadd := Z.add; fmul := Z.mul |}.

End ZArith_model.


(** ** Observations on the access log *)

(** How many times [out[j]] was stored to. *)
Fixpoint stores (j : Z) (tr : list event) : nat :=
  match tr with
  | [] => O
  | Store i :: tr' => if i =? j then S (stores j tr') else stores j tr'
  | Load _ _ :: tr' => stores j tr'
  end.

(** An access that the contract allows: the signal within [0, N-1], the
    kernel within [0, K-1], the output within [0, N-K]. *)
Definition access_ok (N K : Z) (e : event) : bool :=
  match e with
  | Load BufIn i => (0 <=? i) && (i <? N)
  | Load BufKernel i => (0 <=? i) && (i <? K)
  | Load BufOut i | Store i => (0 <=? i) && (i <=? N - K)
  | Load _ _ => false
  end.

Definition accesses_ok (N K : Z) (tr : list event) : Prop :=
  Forall (fun e => access_ok N K e = true) tr.

(** The accesses of [n] taps of the scalar accumulation into [out[i]],
    newest first. *)
Fixpoint taps_trace (i K : Z) (n : nat) : list event :=
  match n with
  | O => []
  | S n' =>
      Store i :: Load BufOut i :: Load BufKernel (K - Z.of_nat n' - 1)
        :: Load BufIn (i + Z.of_nat n') :: taps_trace i K n'
  end.

(** The values and the accesses of vector loads and stores. *)

Section LaneValues.
Context {F : Type} `{Arith F}.

(** The lanes [buf[p], ..., buf[p+w-1]]. *)
Fixpoint lanes (buf : list F) (p : Z) (w : nat) : list F :=
  match w with
  | O => []
  | S w' => rd0 buf p :: lanes buf (p + 1) w'
  end.

(** The buffer after the lanes [v] are stored from index [p]. *)
Fixpoint store_lanes (p : Z) (v : list F) (o : list F) : list F :=
  match v with
  | [] => o
  | x :: v' => store_lanes (p + 1) v' (<[Z.to_nat p := x]> o)
  end.

End LaneValues.

(** The accesses of a [w]-lane load or store at [p], newest first. *)
Fixpoint lanes_trace (mk : Z -> event) (p : Z) (w : nat) : list event :=
  match w with
  | O => []
  | S w' => lanes_trace mk (p + 1) w' ++ [mk p]
  end.

(** The order in which a block of the AVX routines accumulates the 16
    taps: [l] outermost, [m] innermost, tap [l + m]. *)
Definition avx_order : list Z :=
  [0; 4; 8; 12; 1; 5; 9; 13; 2; 6; 10; 14; 3; 7; 11; 15].

(** ** What the routines leave behind *)

Section Posts.
Context {F : Type} `{Arith F}.
Variables (in_ kernel : list F) (N K : Z).

(** What a scalar kernel leaves behind on a valid call: status 0, the
    expected output, [K+1] stores to every output element and none
    elsewhere, every access within the contract. *)
Definition scalar_post (r : result F Z) : Prop :=
  exists s,
    r = Done 0 s /\
    out s = conv_valid in_ kernel /\
    (forall j, stores j (trace s) =
               if (0 <=? j) && (j <=? N - K) then S (Z.to_nat K) else O) /\
    accesses_ok N K (trace s).

(** The sum a vector lane accumulates: the reference sum with the factors
    of each product exchanged, coefficient first. *)
Fixpoint conv_sum_vec (i : Z) (n : nat) : F :=
  match n with
  | O => fzero
  | S n' =>
      fadd (conv_sum_vec i n')
           (fmul (rd0 kernel (K - 1 - Z.of_nat n'))
                 (rd0 in_ (i + Z.of_nat n')))
  end.

(** The four sums of one block of [convolve_sse_simple], lane 0 first. *)
Definition block_sums (i : Z) (n : nat) : list F :=
  (fun l : nat => conv_sum_vec (i + Z.of_nat l) n) <$> seq 0 4.

(** One vector block of [convolve_sse_simple]: the taps accumulated in a
    register, then stored. *)
Definition sse_block (kr : list (option (list F))) (i : Z) (_ : unit)
    : M F unit :=
  acc <- for_lt 0 K 1 (fun k acc =>
    data_block <- mm_loadu_ps 4 BufIn in_ (i + k) ;;
    krk <- local_load BufKernelReverse kr k ;;
    let prod := mm_mul_ps krk data_block in
    ret (mm_add_ps acc prod)) (mm_setzero_ps 4) ;;
  mm_storeu_ps i acc.

(** After [j] blocks the first [4j] output elements hold their sums, each
    stored to once. *)
Definition sse_inv (out0 : list F) (j : nat) (s : state F) : Prop :=
  length (out s) = length out0 /\
  (forall idx : nat, Z.of_nat idx < 4 * Z.of_nat j ->
     out s !! idx = Some (conv_sum_vec (Z.of_nat idx) (Z.to_nat K))) /\
  (forall x, stores x (trace s) =
             if (0 <=? x) && (x <? 4 * Z.of_nat j) then 1%nat else O) /\
  accesses_ok N K (trace s).

(** What [convolve_sse_simple] leaves behind where its blocks fit: status
    0, the expected output, one store per element covered by a vector block
    and [K+1] more to the last element, every access within the
    contract. *)
Definition sse_simple_post (r : result F Z) : Prop :=
  exists s,
    r = Done 0 s /\
    out s = conv_valid in_ kernel /\
    (forall j, stores j (trace s) =
               ((if ((0 <=? j) && (j <? 4 * ((N - K + 3) / 4)))%Z
                 then 1 else 0) +
                (if (j =? N - K)%Z then S (Z.to_nat K) else 0))%nat) /\
    accesses_ok N K (trace s).

(** The products of the taps [taps] of a kernel of 16 coefficients, summed
    from zero in the order of the list, for the output index [x]. *)
Definition sum_taps (x : Z) (taps : list Z) : F :=
  foldl (fun a t => fadd a (fmul (rd0 kernel (16 - t - 1)) (rd0 in_ (x + t))))
    fzero taps.

(** The eight sums of a register, lane 0 first. *)
Definition vsum (x : Z) (taps : list Z) : list F :=
  (fun j : nat => sum_taps (x + Z.of_nat j) taps) <$> seq 0 8.

(** After [j] blocks of an AVX routine the first [16j] output elements
    hold their sums, each stored to once. *)
Definition avx_inv (out0 : list F) (j : nat) (s : state F) : Prop :=
  length (out s) = length out0 /\
  (forall idx : nat, Z.of_nat idx < 16 * Z.of_nat j ->
     out s !! idx = Some (sum_taps (Z.of_nat idx) avx_order)) /\
  (forall x, stores x (trace s) =
             if (0 <=? x) && (x <? 16 * Z.of_nat j) then 1%nat else O) /\
  accesses_ok N 16 (trace s).

(** What [convolve_avx_unrolled_vector_unaligned] leaves behind where its
    blocks fit: status 0, in every element but the last the sum of the 16
    products in the order [avx_order], in the last the reference sum, every
    access within the contract. *)
Definition avx_unaligned_post (r : result F Z) : Prop :=
  exists s,
    r = Done 0 s /\
    Z.of_nat (length (out s)) = N - 16 + 1 /\
    (forall idx, 0 <= idx < N - 16 ->
       zlookup (out s) idx = Some (sum_taps idx avx_order)) /\
    zlookup (out s) (N - 16) =
      Some (conv_sum in_ kernel 16 (N - 16) 16) /\
    accesses_ok N 16 (trace s).

(** The kernel scaled by [c], the sum of two kernels, and the same for
    output buffers. *)
Definition scale (c : F) (l : list F) : list F := fmul c <$> l.
Definition add_lists (l1 l2 : list F) : list F := zip_with fadd l1 l2.

End Posts.

(** ** The other routines *)

Section MoreKernels.
Context {F : Type} `{Arith F}.

(** [convolve_sse_partial_unroll], lines 152-194: the taps in blocks of
    four, [kernel_reverse[k+l]] against the block at [data_offset + l]. *)
Definition convolve_sse_partial_unroll (in_ : list F) (length : Z)
    (kernel : list F) (kernel_length : Z) : M F Z :=
  kernel_reverse <-
    reverse_kernel 4 kernel kernel_length (alloca kernel_length) ;;
  for_lt 0 (length - kernel_length) 4 (fun i _ =>
    acc <- for_lt 0 kernel_length 4 (fun k acc =>
      let data_offset := i + k in
      for_lt 0 4 1 (fun l acc =>
        data_block <- mm_loadu_ps 4 BufIn in_ (data_offset + l) ;;
        kr <- local_load BufKernelReverse kernel_reverse (k + l) ;;
        let prod := mm_mul_ps kr data_block in
        ret (mm_add_ps acc prod)) acc) (mm_setzero_ps 4) ;;
    mm_storeu_ps i acc) tt ;;;
  last_value (load BufIn in_) kernel (length - kernel_length) kernel_length ;;;
  ret 0.

End MoreKernels.

Section Fused.
Context {F : Type} `{Arith F}.
Variable ffma : F -> F -> F -> F.

(** [_mm256_fmadd_ps (a, b, c)]: the fused [a * b + c] in every lane. *)
Fixpoint mm256_fmadd_ps (a b c : list F) : list F :=
  match a, b, c with
  | x :: a', y :: b', z :: c' => ffma x y z :: mm256_fmadd_ps a' b' c'
  | _, _, _ => []
  end.

(** The accumulation of one output block of 16 samples with fused
    multiply-adds. *)
Definition avx_block_fma (loadu : Z -> Z -> M F (list F))
    (kernel_reverse : list (option (list F))) (i : Z)
    : M F (list F * list F) :=
  for_lt 0 KERNEL_LENGTH VECTOR_LENGTH (fun k accs =>
    let data_offset := i + k in
    for_lt 0 SSE_SIMD_LENGTH 1 (fun l accs =>
      for_lt 0 VECTOR_LENGTH SSE_SIMD_LENGTH (fun m accs =>
        data_block <- loadu l (data_offset + m) ;;
        kr <- local_load BufKernelReverse kernel_reverse (k + l + m) ;;
        let acc0 := mm256_fmadd_ps kr data_block (fst accs) in
        data_block <- loadu l (data_offset + m + AVX_SIMD_LENGTH) ;;
        kr <- local_load BufKernelReverse kernel_reverse (k + l + m) ;;
        let acc1 := mm256_fmadd_ps kr data_block (snd accs) in
        ret (acc0, acc1)) accs) accs)
    (mm_setzero_ps 8, mm_setzero_ps 8).

(** [convolve_avx_unrolled_vector_unaligned_fma], lines 636-697, over the
    fused multiply-add [ffma] of the target.  The argument [kernel_length]
    is not used. *)
Definition convolve_avx_unrolled_vector_unaligned_fma (in_ : list F)
    (length : Z) (kernel : list F) (kernel_length : Z) : M F Z :=
  kernel_reverse <-
    reverse_kernel 8 kernel KERNEL_LENGTH (alloca KERNEL_LENGTH) ;;
  for_lt 0 (length - KERNEL_LENGTH) VECTOR_LENGTH (fun i _ =>
    accs <- avx_block_fma (fun l p => mm_loadu_ps 8 BufIn in_ (l + p))
              kernel_reverse i ;;
    mm_storeu_ps i (fst accs) ;;;
    mm_storeu_ps (i + AVX_SIMD_LENGTH) (snd accs)) tt ;;;
  last_value (load BufIn in_) kernel (length - KERNEL_LENGTH) KERNEL_LENGTH ;;;
  ret 0.

End Fused.

Section FamilyPosts.
Context {F : Type} `{Arith F}.
Variable ffma : F -> F -> F -> F.
Variables (in_ kernel : list F) (N : Z).

(** The taps [taps] of a kernel of 16 coefficients accumulated from zero by
    fused multiply-adds, in the order of the list, for the output index
    [x]. *)
Definition fma_taps (x : Z) (taps : list Z) : F :=
  foldl (fun a t => ffma (rd0 kernel (16 - t - 1)) (rd0 in_ (x + t)) a)
    fzero taps.

(** The eight accumulations of a register, lane 0 first. *)
Definition vfma (x : Z) (taps : list Z) : list F :=
  (fun j : nat => fma_taps (x + Z.of_nat j) taps) <$> seq 0 8.

(** After [j] blocks the first [16j] output elements hold their
    accumulations, each stored to once. *)
Definition fma_inv (out0 : list F) (j : nat) (s : state F) : Prop :=
  length (out s) = length out0 /\
  (forall idx : nat, Z.of_nat idx < 16 * Z.of_nat j ->
     out s !! idx = Some (fma_taps (Z.of_nat idx) avx_order)) /\
  (forall x, stores x (trace s) =
             if (0 <=? x) && (x <? 16 * Z.of_nat j) then 1%nat else O) /\
  accesses_ok N 16 (trace s).

(** What a routine of the AVX family leaves behind where its blocks fit:
    status 0, in every element but the last the 16 taps accumulated in the
    order [avx_order], in the last the reference sum, one store per element
    covered by a block and 17 more to the last element, every access
    within the contract. *)
Definition avx_family_post (r : result F Z) : Prop :=
  exists s,
    r = Done 0 s /\
    Z.of_nat (length (out s)) = N - 16 + 1 /\
    (forall idx, 0 <= idx < N - 16 ->
       zlookup (out s) idx = Some (fma_taps idx avx_order)) /\
    zlookup (out s) (N - 16) =
      Some (conv_sum in_ kernel 16 (N - 16) 16) /\
    (forall j, stores j (trace s) =
               ((if ((0 <=? j) && (j <? 16 * ((N - 16 + 15) / 16)))%Z
                 then 1 else 0) +
                (if (j =? N - 16)%Z then 17 else 0))%nat) /\
    accesses_ok N 16 (trace s).

End FamilyPosts.

(** The multiply-add of the routines that do not fuse: two roundings. *)
Definition unfused {F} `{Arith F} (a b c : F) : F := fadd c (fmul a b).

Section CopyRows.
Context {F : Type} `{Arith F}.

(** Row [l] of [in_aligned] once the copies are made: the signal from
    sample [l] on, and [l] elements that were never written. *)
Definition shifted_row (in_ : list F) (N l : Z) : list (option F) :=
  (Some <$> lanes in_ l (Z.to_nat (N - l))) ++ replicate (Z.to_nat l) None.

End CopyRows.

Section LocalOutput.
Context {F : Type} `{Arith F}.

(** [_mm256_storeu_ps (arr + p, v)] on a call-local array. *)
Fixpoint local_storeu_ps (b : buffer) (arr : list (option F)) (p : Z)
    (v : list F) : M F (list (option F)) :=
  match v with
  | [] => ret arr
  | x :: v' =>
      arr <- local_store b arr p x ;;
      local_storeu_ps b arr (p + 1) v'
  end.

(** The [w] elements of a call-local array from index [p]. *)
Fixpoint local_loadu_ps (b : buffer) (w : nat) (arr : list (option F))
    (p : Z) : M F (list F) :=
  match w with
  | O => ret []
  | S w' =>
      x <- local_load b arr p ;;
      xs <- local_loadu_ps b w' arr (p + 1) ;;
      ret (x :: xs)
  end.

(** [memcpy (out, local_out, n * sizeof (float))]: a negative [n] converts
    to a size beyond any object. *)
Definition memcpy_to_out (local_out : list (option F)) (n : Z) : M F unit :=
  if n <? 0 then fail (OutOfBounds BufOut n)
  else
    xs <- local_loadu_ps BufOut (Z.to_nat n) local_out 0 ;;
    mm_storeu_ps 0 xs.

(** [convolve_avx_unrolled_vector_local_output], lines 956-1029: as
    [convolve_avx_unrolled_vector], on the call-local array [local_out],
    which is copied to [out] at the end.  A fault on [local_out] is
    reported under [BufOut], the buffer it stands for.  The argument
    [kernel_length] is not used. *)
Definition convolve_avx_unrolled_vector_local_output (in_ : list F)
    (length : Z) (kernel : list F) (kernel_length : Z) : M F Z :=
  let in_aligned := replicate (Z.to_nat AVX_SIMD_LENGTH) (alloca length) in
  let local_out : list (option F) := alloca (length - KERNEL_LENGTH + 1) in
  kernel_reverse <-
    reverse_kernel 8 kernel KERNEL_LENGTH (alloca KERNEL_LENGTH) ;;
  in_aligned <- shifted_copies in_ length in_aligned ;;
  local_out <-
    for_lt 0 (length - KERNEL_LENGTH) VECTOR_LENGTH (fun i local_out =>
      accs <- avx_block (fun l p =>
                  row <- row_of in_aligned l ;; row_loadu_ps 8 row p)
                kernel_reverse i ;;
      local_out <- local_storeu_ps BufOut local_out i (fst accs) ;;
      local_storeu_ps BufOut local_out (i + AVX_SIMD_LENGTH) (snd accs))
      local_out ;;
  let i := length - KERNEL_LENGTH in
  local_out <- local_store BufOut local_out i fzero ;;
  local_out <-
    for_lt 0 KERNEL_LENGTH 1 (fun k local_out =>
      row <- row_of in_aligned 0 ;;
      x <- local_load BufInAligned row (i + k) ;;
      c <- load BufKernel kernel (KERNEL_LENGTH - k - 1) ;;
      o <- local_load BufOut local_out i ;;
      local_store BufOut local_out i (fadd o (fmul x c))) local_out ;;
  memcpy_to_out local_out (length - KERNEL_LENGTH + 1) ;;;
  ret 0.

End LocalOutput.

Section LocalOutputPost.
Context {F : Type} `{Arith F}.
Variables (in_ kernel : list F) (N : Z).

(** The output of the AVX family: the 16 taps in the order [avx_order] in
    every element but the last, the reference sum in the last. *)
Definition avx_output : list F :=
  (fun idx : nat =>
     if Z.of_nat idx <? N - 16
     then fma_taps unfused in_ kernel (Z.of_nat idx) avx_order
     else conv_sum in_ kernel 16 (N - 16) 16) <$> seq 0 (Z.to_nat (N - 16 + 1)).

(** What [convolve_avx_unrolled_vector_local_output] leaves behind where
    its blocks fit: status 0, the output of the family, every element of
    [out] stored to once and never loaded, every access within the
    contract. *)
Definition local_output_post (r : result F Z) : Prop :=
  exists s,
    r = Done 0 s /\
    out s = avx_output /\
    (forall j, stores j (trace s) =
               if (0 <=? j) && (j <=? N - 16) then 1%nat else O) /\
    (forall j, Load BufOut j ∉ trace s) /\
    accesses_ok N 16 (trace s).

End LocalOutputPost.

(** A computation that leaves the state as it found it. *)
Definition stateless {F A} (m : M F A) : Prop :=
  forall s a s', m s = Done a s' -> s' = s.

(** ** The routines that load from aligned addresses *)

Section AlignedKernels.
Context {F : Type} `{Arith F}.

(** [_mm_load_ps (in_aligned[l] + p)] for [w = 4], [_mm256_load_ps] for
    [w = 8]: a load that requires an address aligned to the size of the
    register.  [in_aligned] is declared aligned to 16 or to 32 bytes and
    its rows are [length] floats long, so the address is [l * length + p]
    floats past an aligned one: it is aligned when that offset is a
    multiple of [w].  A load from another address has no defined
    behaviour: the run stops, with the fault [Indeterminate] at that
    offset. *)
Definition mm_load_ps (w : nat) (in_aligned : list (list (option F)))
    (length l p : Z) : M F (list F) :=
  if (l * length + p) mod Z.of_nat w =? 0
  then row <- row_of in_aligned l ;; row_loadu_ps w row p
  else fail (Indeterminate BufInAligned (l * length + p)).

(** [_mm256_castps128_ps256]: the lower four lanes, the upper ones
    undefined. *)
Definition mm256_castps128_ps256 (a : list F) : list F := a.

(** [_mm256_insertf128_ps (a, b, 1)]: the upper four lanes replaced. *)
Definition mm256_insertf128_ps (a b : list F) : list F := take 4 a ++ b.

(** [convolve_avx_unrolled_vector_m128_load], lines 702-788: as
    [convolve_avx_unrolled_vector], each block of eight samples put
    together from two aligned loads of four.  The argument [kernel_length]
    is not used. *)
Definition convolve_avx_unrolled_vector_m128_load (in_ : list F)
    (length : Z) (kernel : list F) (kernel_length : Z) : M F Z :=
  let in_aligned := replicate (Z.to_nat AVX_SIMD_LENGTH) (alloca length) in
  kernel_reverse <-
    reverse_kernel 8 kernel KERNEL_LENGTH (alloca KERNEL_LENGTH) ;;
  in_aligned <- shifted_copies in_ length in_aligned ;;
  for_lt 0 (length - KERNEL_LENGTH) VECTOR_LENGTH (fun i _ =>
    accs <- avx_block (fun l p =>
                lower_data_block <- mm_load_ps 4 in_aligned length l p ;;
                upper_data_block <-
                  mm_load_ps 4 in_aligned length l (p + SSE_SIMD_LENGTH) ;;
                let data_block := mm256_castps128_ps256 lower_data_block in
                ret (mm256_insertf128_ps data_block upper_data_block))
              kernel_reverse i ;;
    mm_storeu_ps i (fst accs) ;;;
    mm_storeu_ps (i + AVX_SIMD_LENGTH) (snd accs)) tt ;;;
  last_value (fun p =>
      row <- row_of in_aligned 0 ;; local_load BufInAligned row p)
    kernel (length - KERNEL_LENGTH) KERNEL_LENGTH ;;;
  ret 0.

(** The reversed kernel of [convolve_avx_unrolled_vector_partial_aligned]:
    each coefficient is written to the eight elements of [kernel_block],
    and [kernel_block] loaded as a register.  [kernel_block] is call-local;
    a fault on it is reported under [BufKernelReverse]. *)
Definition reverse_kernel_block (kernel : list F)
    (kernel_reverse : list (option (list F)))
    : M F (list (option (list F))) :=
  arrays <-
    for_lt 0 KERNEL_LENGTH 1 (fun i arrays =>
      kernel_block <-
        for_lt 0 AVX_SIMD_LENGTH 1 (fun j kernel_block =>
          c <- load BufKernel kernel (KERNEL_LENGTH - i - 1) ;;
          local_store BufKernelReverse kernel_block j c) (fst arrays) ;;
      v <- local_loadu_ps BufKernelReverse 8 kernel_block 0 ;;
      kernel_reverse <- local_store BufKernelReverse (snd arrays) i v ;;
      ret (kernel_block, kernel_reverse))
      (alloca AVX_SIMD_LENGTH, kernel_reverse) ;;
  ret (snd arrays).

(** [convolve_avx_unrolled_vector_partial_aligned], lines 860-948: in each
    step two aligned loads and two unaligned ones, half a register
    further.  The argument [kernel_length] is not used. *)
Definition convolve_avx_unrolled_vector_partial_aligned (in_ : list F)
    (length : Z) (kernel : list F) (kernel_length : Z) : M F Z :=
  let in_aligned := replicate (Z.to_nat AVX_SIMD_LENGTH) (alloca length) in
  kernel_reverse <- reverse_kernel_block kernel (alloca KERNEL_LENGTH) ;;
  in_aligned <- shifted_copies in_ length in_aligned ;;
  for_lt 0 (length - KERNEL_LENGTH) VECTOR_LENGTH (fun i _ =>
    accs <-
      for_lt 0 KERNEL_LENGTH VECTOR_LENGTH (fun k accs =>
        let data_offset := i + k in
        for_lt 0 SSE_SIMD_LENGTH 1 (fun l accs =>
          for_lt 0 VECTOR_LENGTH AVX_SIMD_LENGTH (fun m accs =>
            data_block <-
              mm_load_ps 8 in_aligned length l (data_offset + m) ;;
            kr <- local_load BufKernelReverse kernel_reverse (k + l + m) ;;
            let prod := mm_mul_ps kr data_block in
            let acc0 := mm_add_ps (fst accs) prod in
            data_block <-
              mm_load_ps 8 in_aligned length l
                (data_offset + m + AVX_SIMD_LENGTH) ;;
            kr <- local_load BufKernelReverse kernel_reverse (k + l + m) ;;
            let prod := mm_mul_ps kr data_block in
            let acc1 := mm_add_ps (snd accs) prod in
            data_block <-
              (row <- row_of in_aligned l ;;
               row_loadu_ps 8 row (data_offset + m + SSE_SIMD_LENGTH)) ;;
            kr <- local_load BufKernelReverse kernel_reverse
                    (k + l + m + SSE_SIMD_LENGTH) ;;
            let prod := mm_mul_ps kr data_block in
            let acc0 := mm_add_ps acc0 prod in
            data_block <-
              (row <- row_of in_aligned l ;;
               row_loadu_ps 8 row
                 (data_offset + m + SSE_SIMD_LENGTH + AVX_SIMD_LENGTH)) ;;
            kr <- local_load BufKernelReverse kernel_reverse
                    (k + l + m + SSE_SIMD_LENGTH) ;;
            let prod := mm_mul_ps kr data_block in
            let acc1 := mm_add_ps acc1 prod in
            ret (acc0, acc1)) accs) accs)
        (mm_setzero_ps 8, mm_setzero_ps 8) ;;
    mm_storeu_ps i (fst accs) ;;;
    mm_storeu_ps (i + AVX_SIMD_LENGTH) (snd accs)) tt ;;;
  last_value (fun p =>
      row <- row_of in_aligned 0 ;; local_load BufInAligned row p)
    kernel (length - KERNEL_LENGTH) KERNEL_LENGTH ;;;
  ret 0.

End AlignedKernels.


Section AlignedSseKernels.
Context {F : Type} `{Arith F}.

(** [convolve_sse_in_aligned], lines 219-270: the taps in tiles of four,
    tap [k + l] against the aligned block at [data_offset] of the copy
    shifted by [l]. *)
Definition convolve_sse_in_aligned (in_ : list F) (length : Z)
    (kernel : list F) (kernel_length : Z) : M F Z :=
  let in_aligned := replicate 4 (alloca length) in
  kernel_reverse <-
    reverse_kernel 4 kernel kernel_length (alloca kernel_length) ;;
  in_aligned <- shifted_copies in_ length in_aligned ;;
  for_lt 0 (length - kernel_length) 4 (fun i _ =>
    acc <- for_lt 0 kernel_length 4 (fun k acc =>
      let data_offset := i + k in
      for_lt 0 4 1 (fun l acc =>
        data_block <- mm_load_ps 4 in_aligned length l data_offset ;;
        kr <- local_load BufKernelReverse kernel_reverse (k + l) ;;
        let prod := mm_mul_ps kr data_block in
        ret (mm_add_ps acc prod)) acc) (mm_setzero_ps 4) ;;
    mm_storeu_ps i acc) tt ;;;
  last_value (fun p =>
      row <- row_of in_aligned 0 ;; local_load BufInAligned row p)
    kernel (length - kernel_length) kernel_length ;;;
  ret 0.


(** [convolve_sse_unrolled_avx_vector], lines 333-404: blocks of eight
    outputs in two registers of four lanes.  The argument [kernel_length]
    is not used. *)
Definition convolve_sse_unrolled_avx_vector (in_ : list F) (length : Z)
    (kernel : list F) (kernel_length : Z) : M F Z :=
  let in_aligned := replicate (Z.to_nat SSE_SIMD_LENGTH) (alloca length) in
  kernel_reverse <-
    reverse_kernel 4 kernel KERNEL_LENGTH (alloca KERNEL_LENGTH) ;;
  in_aligned <- shifted_copies in_ length in_aligned ;;
  for_lt 0 (length - KERNEL_LENGTH) AVX_SIMD_LENGTH (fun i _ =>
    accs <-
      for_lt 0 KERNEL_LENGTH AVX_SIMD_LENGTH (fun k accs =>
        let data_offset := i + k in
        for_lt 0 4 1 (fun l accs =>
          data_block <- mm_load_ps 4 in_aligned length l data_offset ;;
          kr <- local_load BufKernelReverse kernel_reverse (k + l) ;;
          let prod := mm_mul_ps kr data_block in
          let acc0 := mm_add_ps (fst accs) prod in
          data_block <- mm_load_ps 4 in_aligned length l (data_offset + 4) ;;
          kr <- local_load BufKernelReverse kernel_reverse (k + l) ;;
          let prod := mm_mul_ps kr data_block in
          let acc1 := mm_add_ps (snd accs) prod in
          data_block <- mm_load_ps 4 in_aligned length l (data_offset + 4) ;;
          kr <- local_load BufKernelReverse kernel_reverse (k + l + 4) ;;
          let prod := mm_mul_ps kr data_block in
          let acc0 := mm_add_ps acc0 prod in
          data_block <- mm_load_ps 4 in_aligned length l (data_offset + 8) ;;
          kr <- local_load BufKernelReverse kernel_reverse (k + l + 4) ;;
          let prod := mm_mul_ps kr data_block in
          let acc1 := mm_add_ps acc1 prod in
          ret (acc0, acc1)) accs)
        (mm_setzero_ps 4, mm_setzero_ps 4) ;;
    mm_storeu_ps i (fst accs) ;;;
    mm_storeu_ps (i + 4) (snd accs)) tt ;;;
  last_value (fun p =>
      row <- row_of in_aligned 0 ;; local_load BufInAligned row p)
    kernel (length - KERNEL_LENGTH) KERNEL_LENGTH ;;;
  ret 0.

(** [convolve_sse_unrolled_vector], lines 407-491: blocks of sixteen
    outputs in four registers of four lanes.  The argument [kernel_length]
    is not used. *)
Definition convolve_sse_unrolled_vector (in_ : list F) (length : Z)
    (kernel : list F) (kernel_length : Z) : M F Z :=
  let in_aligned := replicate (Z.to_nat SSE_SIMD_LENGTH) (alloca length) in
  kernel_reverse <-
    reverse_kernel 4 kernel KERNEL_LENGTH (alloca KERNEL_LENGTH) ;;
  in_aligned <- shifted_copies in_ length in_aligned ;;
  for_lt 0 (length - KERNEL_LENGTH) VECTOR_LENGTH (fun i _ =>
    accs <-
      for_lt 0 KERNEL_LENGTH VECTOR_LENGTH (fun k accs =>
        let data_offset := i + k in
        for_lt 0 SSE_SIMD_LENGTH 1 (fun l accs =>
          for_lt 0 VECTOR_LENGTH SSE_SIMD_LENGTH
            (fun m '(acc0, acc1, acc2, acc3) =>
              data_block <-
                mm_load_ps 4 in_aligned length l (data_offset + m) ;;
              kr <- local_load BufKernelReverse kernel_reverse (k + l + m) ;;
              let prod := mm_mul_ps kr data_block in
              let acc0 := mm_add_ps acc0 prod in
              data_block <-
                mm_load_ps 4 in_aligned length l
                  (data_offset + m + SSE_SIMD_LENGTH) ;;
              kr <- local_load BufKernelReverse kernel_reverse (k + l + m) ;;
              let prod := mm_mul_ps kr data_block in
              let acc1 := mm_add_ps acc1 prod in
              data_block <-
                mm_load_ps 4 in_aligned length l
                  (data_offset + m + SSE_SIMD_LENGTH * 2) ;;
              kr <- local_load BufKernelReverse kernel_reverse (k + l + m) ;;
              let prod := mm_mul_ps kr data_block in
              let acc2 := mm_add_ps acc2 prod in
              data_block <-
                mm_load_ps 4 in_aligned length l
                  (data_offset + m + SSE_SIMD_LENGTH * 3) ;;
              kr <- local_load BufKernelReverse kernel_reverse (k + l + m) ;;
              let prod := mm_mul_ps kr data_block in
              let acc3 := mm_add_ps acc3 prod in
              ret (acc0, acc1, acc2, acc3)) accs) accs)
        (mm_setzero_ps 4, mm_setzero_ps 4, mm_setzero_ps 4,
         mm_setzero_ps 4) ;;
    let '(acc0, acc1, acc2, acc3) := accs in
    mm_storeu_ps i acc0 ;;;
    mm_storeu_ps (i + SSE_SIMD_LENGTH) acc1 ;;;
    mm_storeu_ps (i + SSE_SIMD_LENGTH * 2) acc2 ;;;
    mm_storeu_ps (i + SSE_SIMD_LENGTH * 3) acc3) tt ;;;
  last_value (fun p =>
      row <- row_of in_aligned 0 ;; local_load BufInAligned row p)
    kernel (length - KERNEL_LENGTH) KERNEL_LENGTH ;;;
  ret 0.

(** The eight shifted copies of [convolve_avx_unrolled_vector_aligned]:
    [for (i = 0; i < AVX_SIMD_LENGTH; i++)
    memcpy (in_aligned[i], in + i, (length - i) * sizeof (float))]. *)
Definition shifted_copies_avx (in_ : list F) (length : Z)
    (in_aligned : list (list (option F))) : M F (list (list (option F))) :=
  for_lt 0 AVX_SIMD_LENGTH 1 (fun i in_aligned =>
    row <- row_of in_aligned i ;;
    row <- memcpy_from_in row in_ i (length - i) ;;
    ret (<[Z.to_nat i := row]> in_aligned)) in_aligned.

(** [convolve_avx_unrolled_vector_aligned], lines 790-858: eight shifted
    copies, every load an aligned one of eight lanes.  The argument
    [kernel_length] is not used. *)
Definition convolve_avx_unrolled_vector_aligned (in_ : list F) (length : Z)
    (kernel : list F) (kernel_length : Z) : M F Z :=
  let in_aligned := replicate (Z.to_nat AVX_SIMD_LENGTH) (alloca length) in
  kernel_reverse <-
    reverse_kernel 8 kernel KERNEL_LENGTH (alloca KERNEL_LENGTH) ;;
  in_aligned <- shifted_copies_avx in_ length in_aligned ;;
  for_lt 0 (length - KERNEL_LENGTH) VECTOR_LENGTH (fun i _ =>
    accs <-
      for_lt 0 KERNEL_LENGTH VECTOR_LENGTH (fun k accs =>
        let data_offset := i + k in
        for_lt 0 AVX_SIMD_LENGTH 1 (fun l accs =>
          for_lt 0 VECTOR_LENGTH AVX_SIMD_LENGTH (fun m accs =>
            data_block <-
              mm_load_ps 8 in_aligned length l (data_offset + m) ;;
            kr <- local_load BufKernelReverse kernel_reverse (k + l + m) ;;
            let prod := mm_mul_ps kr data_block in
            let acc0 := mm_add_ps (fst accs) prod in
            data_block <-
              mm_load_ps 8 in_aligned length l
                (data_offset + m + AVX_SIMD_LENGTH) ;;
            kr <- local_load BufKernelReverse kernel_reverse (k + l + m) ;;
            let prod := mm_mul_ps kr data_block in
            let acc1 := mm_add_ps (snd accs) prod in
            ret (acc0, acc1)) accs) accs)
        (mm_setzero_ps 8, mm_setzero_ps 8) ;;
    mm_storeu_ps i (fst accs) ;;;
    mm_storeu_ps (i + AVX_SIMD_LENGTH) (snd accs)) tt ;;;
  last_value (fun p =>
      row <- row_of in_aligned 0 ;; local_load BufInAligned row p)
    kernel (length - KERNEL_LENGTH) KERNEL_LENGTH ;;;
  ret 0.

End AlignedSseKernels.

(** The order in which a block of [convolve_sse_unrolled_avx_vector]
    accumulates the 16 taps: [k] outermost, then [l], taps [k + l] and
    [k + l + 4]. *)
Definition sse_avx_order : list Z :=
  [0; 4; 1; 5; 2; 6; 3; 7; 8; 12; 9; 13; 10; 14; 11; 15].

(** The order of [convolve_avx_unrolled_vector_aligned]: [l] outermost,
    taps [l] and [l + 8]. *)
Definition avx_aligned_order : list Z :=
  [0; 8; 1; 9; 2; 10; 3; 11; 4; 12; 5; 13; 6; 14; 7; 15].

Section AlignedPosts.
Context {F : Type} `{Arith F}.
Variables (in_ kernel : list F) (N K : Z).

(** The [w] accumulations of a register of a routine that does not fuse,
    lane 0 first, for the outputs from [x] on. *)
Definition vacc (w : nat) (x : Z) (taps : list Z) : list F :=
  (fun j : nat => fma_taps unfused in_ kernel (x + Z.of_nat j) taps)
    <$> seq 0 w.

(** What a routine that loads from aligned addresses leaves behind when
    its rows are aligned, so that its blocks fit exactly: status 0, in
    every element but the last the sum [val] of the block it is in, in the
    last the reference sum, one store to every element but the last and
    [K + 1] to the last, every access within the contract. *)
Definition aligned_post (val : Z -> F) (r : result F Z) : Prop :=
  exists s,
    r = Done 0 s /\
    Z.of_nat (length (out s)) = N - K + 1 /\
    (forall idx, 0 <= idx < N - K -> zlookup (out s) idx = Some (val idx)) /\
    zlookup (out s) (N - K) =
      Some (conv_sum in_ kernel K (N - K) (Z.to_nat K)) /\
    (forall j, stores j (trace s) =
               if (0 <=? j) && (j <? N - K) then 1%nat
               else if j =? N - K then S (Z.to_nat K) else O) /\
    accesses_ok N K (trace s).

End AlignedPosts.

(** ** Data of the examples *)

Import Binary32.
Import ZArith_model.

(** Equality of single-precision values: identical, or zeros of either
    sign. *)
Definition same_value (x y : spec_float) : Prop :=
  x = y \/ (exists sx sy, x = S754_zero sx /\ y = S754_zero sy).

Definition signal5 : list spec_float := b32_of_Z <$> [1; 2; 3; 4; 5].
Definition kernel3 : list spec_float := b32_of_Z <$> [1; 0; -1].
Definition signal8 : list spec_float := b32_of_Z <$> [1; 2; 3; 4; 5; 6; 7; 8].
Definition kernel4 : list spec_float := b32_of_Z <$> [1; 0; -1; 2].
Definition signal32 : list spec_float := b32_of_Z <$> seqZ 1 32.
Definition kernel16 : list spec_float := b32_of_Z <$> seqZ 1 16.

(** [0.1f], the float nearest to 0.1, and [2^-24]. *)
Definition tenth : spec_float := S754_finite false 13421773 (-27).
Definition tiny : spec_float := S754_finite false 8388608 (-47).

(** The output of [convolve_naive] for the one-sample signal [3]. *)
Definition naive1 (kernel : list spec_float) : option (list spec_float) :=
  out_of (run (convolve_naive [b32_of_Z 3] 1 kernel 1) [b32_of_Z 0]).

(** * Proofs *)

(** ** The monad and the loops *)

Lemma bind_Done {F A B} (m : M F A) (k : A -> M F B) s a s' :
  m s = Done a s' -> bind m k s = k a s'.
Proof. intros E. unfold bind. now rewrite E. Qed.

Lemma bind_Fault {F A B} (m : M F A) (k : A -> M F B) s f :
  m s = Fault f -> bind m k s = Fault f.
Proof. intros E. unfold bind. now rewrite E. Qed.

Lemma zlookup_Some {A} (l : list A) i v :
  zlookup l i = Some v <-> 0 <= i /\ l !! Z.to_nat i = Some v.
Proof.
  unfold zlookup. destruct (Z.ltb_spec i 0); split.
  - discriminate.
  - intros [? _]. lia.
  - auto.
  - now intros [_ ?].
Qed.

Lemma zlookup_None {A} (l : list A) i :
  zlookup l i = None <-> i < 0 \/ Z.of_nat (length l) <= i.
Proof.
  unfold zlookup. destruct (Z.ltb_spec i 0).
  - split; auto.
  - rewrite lookup_ge_None. lia.
Qed.

Lemma zlookup_lt {A} (l : list A) i :
  0 <= i < Z.of_nat (length l) -> exists v, zlookup l i = Some v.
Proof.
  intros Hi. destruct (zlookup l i) eqn:E; eauto.
  apply zlookup_None in E. lia.
Qed.

(** Once the fuel covers the distance to the bound, more fuel changes
    nothing: the loop has left by its condition. *)
Lemma for_fuel_enough {F A} (b step : Z) (cond : Z -> bool)
    (body : Z -> A -> M F A) :
  0 < step -> (forall i, cond i = (i <? b)) ->
  forall f1 f2 i a s,
    (Z.to_nat (b - i) <= f1)%nat -> (Z.to_nat (b - i) <= f2)%nat ->
    for_fuel f1 cond step body i a s = for_fuel f2 cond step body i a s.
Proof.
  intros Hstep Hcond. induction f1 as [|f1 IH]; intros f2 i a s H1 H2.
  - destruct f2 as [|f2]; [reflexivity|]. simpl.
    rewrite Hcond. destruct (Z.ltb_spec i b); [lia|reflexivity].
  - destruct f2 as [|f2]; simpl; rewrite Hcond;
      destruct (Z.ltb_spec i b); try reflexivity; try lia.
    unfold bind. destruct (body i a s) as [a' s'|]; [|reflexivity].
    apply IH; lia.
Qed.

(** The invariant rule: a body that returns and keeps [I] makes the loop
    return, with [I] at the first index at or past the bound. *)
Lemma for_fuel_rule {F A} (I : Z -> A -> state F -> Prop) (b step : Z)
    (cond : Z -> bool) (body : Z -> A -> M F A) :
  0 < step -> (forall i, cond i = (i <? b)) ->
  (forall i a s, i < b -> I i a s ->
     exists a' s', body i a s = Done a' s' /\ I (i + step) a' s') ->
  forall fuel i a s,
    (Z.to_nat (b - i) <= fuel)%nat -> I i a s ->
    exists i' a' s',
      for_fuel fuel cond step body i a s = Done a' s' /\ I i' a' s' /\ b <= i'.
Proof.
  intros Hstep Hcond Hbody. induction fuel as [|fuel IH]; intros i a s Hf HI.
  - exists i, a, s. simpl. repeat split; auto. lia.
  - simpl. rewrite Hcond. destruct (Z.ltb_spec i b) as [Hlt|Hge].
    + destruct (Hbody i a s Hlt HI) as (a' & s' & E & HI').
      rewrite (bind_Done _ _ _ _ _ E). apply IH; [lia|exact HI'].
    + exists i, a, s. repeat split; auto.
Qed.

(** [for (i = lo; i < hi; i++)] *)
Lemma for_lt_rule {F A} (I : Z -> A -> state F -> Prop) (lo hi : Z)
    (body : Z -> A -> M F A) a s :
  lo <= hi -> I lo a s ->
  (forall i a s, lo <= i < hi -> I i a s ->
     exists a' s', body i a s = Done a' s' /\ I (i + 1) a' s') ->
  exists a' s', for_lt lo hi 1 body a s = Done a' s' /\ I hi a' s'.
Proof.
  intros Hle HI Hbody. unfold for_lt.
  assert (Hr := for_fuel_rule (fun i a s => lo <= i <= hi /\ I i a s) hi 1
                  (fun i => i <? hi) body).
  destruct (Hr ltac:(lia) ltac:(reflexivity)) with
    (fuel := Z.to_nat (hi - lo)) (i := lo) (a := a) (s := s)
    as (i' & a' & s' & E & [Hi HI'] & Hge).
  - intros i a0 s0 Hlt [Hi HI0].
    destruct (Hbody i a0 s0) as (a' & s' & E & HI'); auto; try lia.
    exists a', s'. repeat split; auto; lia.
  - lia.
  - split; [lia|exact HI].
  - exists a', s'. split; auto. now replace hi with i' by lia.
Qed.

(** [for (i = lo; i <= hi; i++)] *)
Lemma for_le_rule {F A} (I : Z -> A -> state F -> Prop) (lo hi : Z)
    (body : Z -> A -> M F A) a s :
  lo <= hi + 1 -> I lo a s ->
  (forall i a s, lo <= i <= hi -> I i a s ->
     exists a' s', body i a s = Done a' s' /\ I (i + 1) a' s') ->
  exists a' s', for_le lo hi body a s = Done a' s' /\ I (hi + 1) a' s'.
Proof.
  intros Hle HI Hbody. unfold for_le.
  assert (Hr := for_fuel_rule (fun i a s => lo <= i <= hi + 1 /\ I i a s)
                  (hi + 1) 1 (fun i => i <=? hi) body).
  destruct Hr with
    (fuel := Z.to_nat (hi + 1 - lo)) (i := lo) (a := a) (s := s)
    as (i' & a' & s' & E & [Hi HI'] & Hge).
  - lia.
  - intros i. destruct (Z.leb_spec i hi), (Z.ltb_spec i (hi + 1)); lia.
  - intros i a0 s0 Hlt [Hi HI0].
    destruct (Hbody i a0 s0) as (a' & s' & E & HI'); auto; try lia.
    exists a', s'. repeat split; auto; lia.
  - lia.
  - split; [lia|exact HI].
  - exists a', s'. split; auto. now replace (hi + 1) with i' by lia.
Qed.

(** [for (i = lo; i < hi; i += step)], by the number [n] of blocks. *)
Lemma for_lt_step_rule {F A} (I : nat -> A -> state F -> Prop)
    (lo hi step : Z) (n : nat) (body : Z -> A -> M F A) a s :
  0 < step ->
  lo + step * (Z.of_nat n - 1) < hi <= lo + step * Z.of_nat n ->
  I O a s ->
  (forall j a s, (j < n)%nat -> I j a s ->
     exists a' s',
       body (lo + step * Z.of_nat j) a s = Done a' s' /\ I (S j) a' s') ->
  exists a' s', for_lt lo hi step body a s = Done a' s' /\ I n a' s'.
Proof.
  intros Hstep Hn HI Hbody. unfold for_lt.
  assert (Hr := for_fuel_rule
              (fun i a s => exists j, i = lo + step * Z.of_nat j /\
                                      (j <= n)%nat /\ I j a s)
              hi step (fun i => i <? hi) body).
  destruct (Hr Hstep ltac:(reflexivity)) with
    (fuel := Z.to_nat (hi - lo)) (i := lo) (a := a) (s := s)
    as (i' & a' & s' & E & (j & -> & Hj & HI') & Hge).
  - intros i a0 s0 Hlt (j & -> & Hj & HI0).
    assert (j < n)%nat by nia.
    destruct (Hbody j a0 s0) as (a' & s' & E & HI'); auto.
    exists a', s'. split; auto. exists (S j).
    repeat split; auto; lia.
  - lia.
  - exists O. repeat split; auto; lia.
  - exists a', s'. split; auto.
    assert (j = n) by nia. now subst.
Qed.

(** [for (i = lo; i < hi; i += step)] whose body faults in block [m],
    after [m] blocks that return: the loop faults. *)
Lemma for_lt_step_fault {F A} (I : nat -> A -> state F -> Prop)
    (lo hi step : Z) (m : nat) (body : Z -> A -> M F A) a s f :
  0 < step ->
  lo + step * Z.of_nat m < hi ->
  I O a s ->
  (forall j a s, (j < m)%nat -> I j a s ->
     exists a' s',
       body (lo + step * Z.of_nat j) a s = Done a' s' /\ I (S j) a' s') ->
  (forall a s, I m a s -> body (lo + step * Z.of_nat m) a s = Fault f) ->
  for_lt lo hi step body a s = Fault f.
Proof.
  intros Hstep Hm HI Hbody Hfault. unfold for_lt.
  assert (Hgen : forall (d j : nat) fuel a s,
            (j + d = m)%nat ->
            (Z.to_nat (hi - (lo + step * Z.of_nat j)) <= fuel)%nat ->
            I j a s ->
            for_fuel fuel (fun i => i <? hi) step body
              (lo + step * Z.of_nat j) a s = Fault f).
  { induction d as [|d IH]; intros j fuel a0 s0 Hjd Hfuel HI0.
    - assert (j = m) by lia. subst j.
      destruct fuel as [|fuel]; [lia|]. simpl.
      destruct (Z.ltb_spec (lo + step * Z.of_nat m) hi); [|lia].
      apply bind_Fault. now apply Hfault.
    - assert (Hlt : lo + step * Z.of_nat j < hi) by nia.
      destruct fuel as [|fuel]; [lia|]. simpl.
      destruct (Z.ltb_spec (lo + step * Z.of_nat j) hi); [|lia].
      destruct (Hbody j a0 s0 ltac:(lia) HI0) as (a' & s' & E & HI').
      rewrite (bind_Done _ _ _ _ _ E).
      replace (lo + step * Z.of_nat j + step)
        with (lo + step * Z.of_nat (S j)) by lia.
      apply IH; [lia|nia|exact HI']. }
  replace lo with (lo + step * Z.of_nat 0) at 2 by lia.
  apply (Hgen m O); [lia| |exact HI].
  replace (lo + step * Z.of_nat 0) with lo by lia. lia.
Qed.

(** ** Single accesses *)

Section Steps.
Context {F : Type} `{Arith F}.

Lemma load_Done b (buf : list F) i v s :
  zlookup buf i = Some v ->
  load b buf i s = Done v (mkState (out s) (Load b i :: trace s)).
Proof. intros E. unfold load. now rewrite E. Qed.

Lemma load_out_Done i (v : F) s :
  zlookup (out s) i = Some v ->
  load_out i s = Done v (mkState (out s) (Load BufOut i :: trace s)).
Proof. intros E. unfold load_out. now rewrite E. Qed.

Lemma store_out_Done i (v : F) s :
  0 <= i < Z.of_nat (length (out s)) ->
  store_out i v s =
    Done tt (mkState (<[Z.to_nat i := v]> (out s)) (Store i :: trace s)).
Proof.
  intros Hi. unfold store_out.
  destruct (zlookup_lt (out s) i Hi) as [v0 ->]. reflexivity.
Qed.

Lemma accumulate_Done (rd : Z -> M F F) kernel i k j s x s1 c o :
  rd (i + k) s = Done x s1 ->
  zlookup kernel j = Some c ->
  zlookup (out s1) i = Some o ->
  accumulate rd kernel i k j s =
    Done tt (mkState (<[Z.to_nat i := fadd o (fmul x c)]> (out s1))
               (Store i :: Load BufOut i :: Load BufKernel j :: trace s1)).
Proof.
  intros E1 E2 E3. unfold accumulate.
  rewrite (bind_Done _ _ _ _ _ E1).
  rewrite (bind_Done _ _ _ _ _ (load_Done BufKernel kernel j c s1 E2)).
  assert (E4 : load_out i (mkState (out s1) (Load BufKernel j :: trace s1)) =
           Done o (mkState (out s1)
                     (Load BufOut i :: Load BufKernel j :: trace s1))).
  { apply (load_out_Done i o (mkState _ _)). exact E3. }
  rewrite (bind_Done _ _ _ _ _ E4).
  apply zlookup_Some in E3 as [Hi E3]. apply lookup_lt_Some in E3.
  rewrite store_out_Done; simpl; [reflexivity|lia].
Qed.

Lemma rd0_Some (l : list F) i v : zlookup l i = Some v -> rd0 l i = v.
Proof. intros E. unfold rd0. now rewrite E. Qed.

(** The scalar accumulation loop computes the reference sum into [out[i]],
    by the accesses [taps_trace]. *)
Lemma taps_Done (in_ kernel : list F) K i s :
  0 <= i -> 0 <= K ->
  i + K <= Z.of_nat (length in_) -> K <= Z.of_nat (length kernel) ->
  zlookup (out s) i = Some fzero ->
  for_lt 0 K 1 (fun k _ =>
      accumulate (load BufIn in_) kernel i k (K - k - 1)) tt s =
    Done tt (mkState
               (<[Z.to_nat i := conv_sum in_ kernel K i (Z.to_nat K)]> (out s))
               (taps_trace i K (Z.to_nat K) ++ trace s)).
Proof.
  intros Hi HK Hin Hker Hout.
  destruct (for_lt_rule
    (fun k (_ : unit) s' =>
       out s' = <[Z.to_nat i := conv_sum in_ kernel K i (Z.to_nat k)]> (out s) /\
       trace s' = taps_trace i K (Z.to_nat k) ++ trace s)
    0 K (fun k _ => accumulate (load BufIn in_) kernel i k (K - k - 1)) tt s)
    as ([] & [o' t'] & E & Ho & Ht); [lia| |..].
  - apply zlookup_Some in Hout as [_ Hout]. simpl.
    split; [|reflexivity]. symmetry. now apply list_insert_id.
  - intros k [] s' Hk [Ho Ht].
    destruct (zlookup_lt in_ (i + k)) as [x Ex]; [lia|].
    destruct (zlookup_lt kernel (K - k - 1)) as [c Ec]; [lia|].
    apply zlookup_Some in Hout as [_ Hout]. apply lookup_lt_Some in Hout.
    eexists tt, _. split.
    + eapply accumulate_Done.
      * apply load_Done, Ex.
      * exact Ec.
      * simpl. rewrite Ho. apply zlookup_Some. split; [lia|].
        now apply list_lookup_insert_eq.
    + simpl. rewrite Ho, Ht, list_insert_insert_eq.
      replace (Z.to_nat (k + 1)) with (S (Z.to_nat k)) by lia. simpl.
      rewrite Z2Nat.id by lia.
      rewrite (rd0_Some _ _ _ Ex).
      replace (K - 1 - k) with (K - k - 1) by lia.
      rewrite (rd0_Some _ _ _ Ec). split; reflexivity.
  - simpl in Ho, Ht. rewrite E, Ho, Ht. reflexivity.
Qed.

(** The special case of the last value: zero, then accumulate. *)
Lemma last_value_Done (in_ kernel : list F) K i s :
  0 <= i < Z.of_nat (length (out s)) -> 0 <= K ->
  i + K <= Z.of_nat (length in_) -> K <= Z.of_nat (length kernel) ->
  last_value (load BufIn in_) kernel i K s =
    Done tt (mkState
               (<[Z.to_nat i := conv_sum in_ kernel K i (Z.to_nat K)]> (out s))
               (taps_trace i K (Z.to_nat K) ++ Store i :: trace s)).
Proof.
  intros Hi HK Hin Hker. unfold last_value.
  rewrite (bind_Done _ _ _ _ _ (store_out_Done i fzero s Hi)).
  rewrite taps_Done; simpl; try lia.
  - now rewrite list_insert_insert_eq.
  - apply zlookup_Some. split; [lia|]. apply list_lookup_insert_eq. lia.
Qed.

Lemma stores_app j tr1 tr2 :
  stores j (tr1 ++ tr2) = (stores j tr1 + stores j tr2)%nat.
Proof.
  induction tr1 as [|[b i|i] tr1 IH]; simpl; auto.
  destruct (i =? j); simpl; auto.
Qed.

Lemma stores_taps j i K n :
  stores j (taps_trace i K n) = if i =? j then n else O.
Proof.
  induction n as [|n IH]; simpl.
  - now destruct (i =? j).
  - rewrite IH. now destruct (i =? j).
Qed.

Lemma accesses_ok_taps N K i n :
  0 <= i <= N - K -> Z.of_nat n <= K ->
  accesses_ok N K (taps_trace i K n).
Proof.
  intros Hi. unfold accesses_ok.
  induction n as [|n IH]; intros Hn; simpl; [constructor|].
  repeat constructor; simpl; try lia.
  apply IH. lia.
Qed.

End Steps.

(** ** The scalar kernels compute the reference sum *)

Section Scalar.
Context {F : Type} `{Arith F}.
Variables (in_ kernel : list F) (N K : Z).
Hypothesis HN : N = Z.of_nat (length in_).
Hypothesis HK : K = Z.of_nat (length kernel).
Hypothesis HKN : K <= N.

Lemma length_conv_valid :
  Z.of_nat (length (conv_valid in_ kernel)) = N - K + 1.
Proof.
  unfold conv_valid. rewrite length_fmap, length_seq. lia.
Qed.

Lemma lookup_conv_valid (j : nat) :
  Z.of_nat j <= N - K ->
  conv_valid in_ kernel !! j =
    Some (conv_sum in_ kernel K (Z.of_nat j) (Z.to_nat K)).
Proof.
  intros Hj. unfold conv_valid.
  rewrite list_lookup_fmap, lookup_seq_lt by lia. simpl.
  rewrite <- HK. do 2 f_equal. lia.
Qed.

(** A buffer of [N-K+1] elements holding the reference sum at every index
    is the expected output. *)
Lemma conv_valid_intro (o : list F) :
  Z.of_nat (length o) = N - K + 1 ->
  (forall j : nat, Z.of_nat j <= N - K ->
     o !! j = Some (conv_sum in_ kernel K (Z.of_nat j) (Z.to_nat K))) ->
  o = conv_valid in_ kernel.
Proof.
  intros Hlen Hval. apply list_eq. intros j.
  destruct (Z.le_gt_cases (Z.of_nat j) (N - K)) as [Hj|Hj].
  - now rewrite Hval, lookup_conv_valid.
  - rewrite !lookup_ge_None_2; auto.
    + pose proof length_conv_valid. lia.
    + lia.
Qed.

Lemma convolve_naive_post (out0 : list F) :
  Z.of_nat (length out0) = N - K + 1 ->
  scalar_post in_ kernel N K (run (convolve_naive in_ N kernel K) out0).
Proof.
  intros Hout. unfold run, convolve_naive.
  destruct (for_le_rule
    (fun i (_ : unit) s =>
       length (out s) = length out0 /\
       (forall j : nat, Z.of_nat j < i ->
          out s !! j = Some (conv_sum in_ kernel K (Z.of_nat j) (Z.to_nat K))) /\
       (forall j, stores j (trace s) =
                  if (0 <=? j) && (j <? i) then S (Z.to_nat K) else O) /\
       accesses_ok N K (trace s))
    0 (N - K)
    (fun i _ =>
       store_out i fzero ;;;
       for_lt 0 K 1 (fun k _ =>
         accumulate (load BufIn in_) kernel i k (K - k - 1)) tt)
    tt (mkState out0 []))
    as ([] & s & E & Hlen & Hval & Hst & Hok); [lia| |..].
  - simpl. repeat split; auto.
    + intros j Hj. lia.
    + intros j. destruct (Z.leb_spec 0 j), (Z.ltb_spec j 0); simpl; lia.
    + constructor.
  - intros i [] s Hi (Hlen & Hval & Hst & Hok).
    eexists tt, _. split.
    + apply (last_value_Done in_ kernel K i s); lia.
    + simpl. rewrite length_insert. repeat split; auto.
      * intros j Hj. destruct (decide (Z.to_nat i = j)) as [<-|Hne].
        -- rewrite list_lookup_insert_eq by lia. do 2 f_equal. lia.
        -- rewrite list_lookup_insert_ne by auto. apply Hval. lia.
      * intros j. rewrite stores_app, stores_taps. simpl. rewrite Hst.
        destruct (Z.eqb_spec i j), (Z.leb_spec 0 j), (Z.ltb_spec j i),
          (Z.ltb_spec j (i + 1)); simpl; lia.
      * apply Forall_app. split; [apply accesses_ok_taps; lia|].
        constructor; [simpl; lia|exact Hok].
  - exists s. rewrite (bind_Done _ _ _ _ _ E). repeat split; auto.
    + apply conv_valid_intro; [lia|]. intros j Hj. apply Hval. lia.
    + intros j. rewrite Hst.
      destruct (Z.leb_spec 0 j), (Z.ltb_spec j (N - K + 1)),
        (Z.leb_spec j (N - K)); simpl; lia.
Qed.

(** The run of the reference kernel, index by index. *)
Lemma convolve_naive_lookup (out0 : list F) :
  Z.of_nat (length out0) = N - K + 1 ->
  exists s,
    run (convolve_naive in_ N kernel K) out0 = Done 0 s /\
    Z.of_nat (length (out s)) = N - K + 1 /\
    forall i, 0 <= i <= N - K ->
      zlookup (out s) i = Some (conv_sum in_ kernel K i (Z.to_nat K)).
Proof.
  intros Hout.
  destruct (convolve_naive_post out0 Hout) as (s & E & Ho & _).
  exists s. split; [exact E|]. rewrite Ho. split.
  - apply length_conv_valid.
  - intros i Hi. apply zlookup_Some. split; [lia|].
    rewrite lookup_conv_valid by lia. do 2 f_equal. lia.
Qed.

(** One tap of the reordered kernel: [out[i] += in[i+k] * kernel_value] for
    every output index [i]. *)
Lemma reversed_tap (k : Z) (c : F) s :
  0 <= k < K ->
  rd0 kernel (K - 1 - k) = c ->
  Z.of_nat (length (out s)) = N - K + 1 ->
  (forall j : nat, Z.of_nat j <= N - K ->
     out s !! j = Some (conv_sum in_ kernel K (Z.of_nat j) (Z.to_nat k))) ->
  accesses_ok N K (trace s) ->
  exists s',
    for_le 0 (N - K) (fun i _ =>
      x <- load BufIn in_ (i + k) ;;
      o <- load_out i ;;
      store_out i (fadd o (fmul x c))) tt s = Done tt s' /\
    Z.of_nat (length (out s')) = N - K + 1 /\
    (forall j : nat, Z.of_nat j <= N - K ->
       out s' !! j =
         Some (conv_sum in_ kernel K (Z.of_nat j) (Z.to_nat (k + 1)))) /\
    (forall j, stores j (trace s') =
               if (0 <=? j) && (j <=? N - K) then S (stores j (trace s))
               else stores j (trace s)) /\
    accesses_ok N K (trace s').
Proof.
  intros Hk Hc Hlen Hval Hok.
  destruct (for_le_rule
    (fun i (_ : unit) s' =>
       Z.of_nat (length (out s')) = N - K + 1 /\
       (forall j : nat, Z.of_nat j < i ->
          out s' !! j =
            Some (conv_sum in_ kernel K (Z.of_nat j) (Z.to_nat (k + 1)))) /\
       (forall j : nat, i <= Z.of_nat j <= N - K ->
          out s' !! j =
            Some (conv_sum in_ kernel K (Z.of_nat j) (Z.to_nat k))) /\
       (forall j, stores j (trace s') =
                  if (0 <=? j) && (j <? i) then S (stores j (trace s))
                  else stores j (trace s)) /\
       accesses_ok N K (trace s'))
    0 (N - K)
    (fun i _ =>
      x <- load BufIn in_ (i + k) ;;
      o <- load_out i ;;
      store_out i (fadd o (fmul x c))) tt s)
    as ([] & s' & E & Hlen' & Hnew & _ & Hst & Hok'); [lia| |..].
  - repeat split; auto.
    + intros j Hj. lia.
    + intros j Hj. apply Hval. lia.
    + intros j. destruct (Z.leb_spec 0 j), (Z.ltb_spec j 0); simpl; lia.
  - intros i [] s' Hi (Hlen' & Hnew & Hold & Hst & Hok').
    destruct (zlookup_lt in_ (i + k)) as [x Ex]; [lia|].
    assert (Eo : zlookup (out s') i =
                 Some (conv_sum in_ kernel K i (Z.to_nat k))).
    { apply zlookup_Some. split; [lia|].
      rewrite (Hold (Z.to_nat i)) by lia. do 2 f_equal. lia. }
    eexists tt, _. split.
    + rewrite (bind_Done _ _ _ _ _ (load_Done BufIn in_ _ x s' Ex)).
      rewrite (bind_Done _ _ _ _ _
                 (load_out_Done i _ (mkState _ _) Eo)).
      apply store_out_Done. simpl. lia.
    + simpl. rewrite length_insert. repeat split; auto.
      * intros j Hj. destruct (decide (Z.to_nat i = j)) as [<-|Hne].
        -- rewrite list_lookup_insert_eq by lia.
           replace (Z.to_nat (k + 1)) with (S (Z.to_nat k)) by lia. simpl.
           rewrite !Z2Nat.id by lia.
           now rewrite (rd0_Some _ _ _ Ex), Hc.
        -- rewrite list_lookup_insert_ne by auto. apply Hnew. lia.
      * intros j Hj. rewrite list_lookup_insert_ne by lia.
        apply Hold. lia.
      * intros j. rewrite Hst.
        destruct (Z.eqb_spec i j), (Z.leb_spec 0 j), (Z.ltb_spec j i),
          (Z.ltb_spec j (i + 1)); simpl; lia.
      * repeat constructor; simpl; auto; lia.
  - exists s'. repeat split; auto.
    + intros j Hj. apply Hnew. lia.
    + intros j. rewrite Hst.
      destruct (Z.leb_spec 0 j), (Z.ltb_spec j (N - K + 1)),
        (Z.leb_spec j (N - K)); simpl; lia.
Qed.

Lemma convolve_reversed_naive_post (out0 : list F) :
  Z.of_nat (length out0) = N - K + 1 ->
  scalar_post in_ kernel N K (run (convolve_reversed_naive in_ N kernel K) out0).
Proof.
  intros Hout. unfold run, convolve_reversed_naive.
  (* the zeroing loop *)
  destruct (for_le_rule
    (fun i (_ : unit) s =>
       length (out s) = length out0 /\
       (forall j : nat, Z.of_nat j < i -> out s !! j = Some fzero) /\
       (forall j, stores j (trace s) =
                  if (0 <=? j) && (j <? i) then 1%nat else O) /\
       accesses_ok N K (trace s))
    0 (N - K) (fun i _ => store_out i fzero) tt (mkState out0 []))
    as ([] & s1 & E1 & Hlen1 & Hval1 & Hst1 & Hok1); [lia| |..].
  - simpl. repeat split; auto.
    + intros j Hj. lia.
    + intros j. destruct (Z.leb_spec 0 j), (Z.ltb_spec j 0); simpl; lia.
    + constructor.
  - intros i [] s Hi (Hlen & Hval & Hst & Hok).
    eexists tt, _. split; [apply store_out_Done; lia|].
    simpl. rewrite length_insert. repeat split; auto.
    + intros j Hj. destruct (decide (Z.to_nat i = j)) as [<-|Hne].
      * rewrite list_lookup_insert_eq by lia. reflexivity.
      * rewrite list_lookup_insert_ne by auto. apply Hval. lia.
    + intros j. rewrite Hst.
      destruct (Z.eqb_spec i j), (Z.leb_spec 0 j), (Z.ltb_spec j i),
        (Z.ltb_spec j (i + 1)); simpl; lia.
    + constructor; [simpl; lia|exact Hok].
  - rewrite (bind_Done _ _ _ _ _ E1).
    (* the taps *)
    destruct (for_lt_rule
      (fun k (_ : unit) s =>
         Z.of_nat (length (out s)) = N - K + 1 /\
         (forall j : nat, Z.of_nat j <= N - K ->
            out s !! j =
              Some (conv_sum in_ kernel K (Z.of_nat j) (Z.to_nat k))) /\
         (forall j, stores j (trace s) =
                    if (0 <=? j) && (j <=? N - K) then S (Z.to_nat k)
                    else O) /\
         accesses_ok N K (trace s))
      0 K
      (fun k _ =>
         kernel_value <- load BufKernel kernel (K - k - 1) ;;
         for_le 0 (N - K) (fun i _ =>
           x <- load BufIn in_ (i + k) ;;
           o <- load_out i ;;
           store_out i (fadd o (fmul x kernel_value))) tt) tt s1)
      as ([] & s2 & E2 & Hlen2 & Hval2 & Hst2 & Hok2); [lia| |..].
    + repeat split; auto; [lia| |].
      * intros j Hj. apply Hval1. lia.
      * intros j. rewrite Hst1.
        destruct (Z.leb_spec 0 j), (Z.ltb_spec j (N - K + 1)),
          (Z.leb_spec j (N - K)); simpl; lia.
    + intros k [] s Hk (Hlen & Hval & Hst & Hok).
      destruct (zlookup_lt kernel (K - k - 1)) as [c Ec]; [lia|].
      rewrite (bind_Done _ _ _ _ _ (load_Done BufKernel kernel _ c s Ec)).
      destruct (reversed_tap k c
                  (mkState (out s) (Load BufKernel (K - k - 1) :: trace s)))
        as (s' & E & Hlen' & Hval' & Hst' & Hok'); auto.
      * replace (K - 1 - k) with (K - k - 1) by lia.
        now apply rd0_Some.
      * constructor; [simpl; lia|exact Hok].
      * exists tt, s'. repeat split; auto.
        intros j. rewrite Hst'. simpl. rewrite Hst.
        replace (Z.to_nat (k + 1)) with (S (Z.to_nat k)) by lia.
        now destruct ((0 <=? j) && (j <=? N - K)).
    + exists s2. rewrite (bind_Done _ _ _ _ _ E2). repeat split; auto.
      apply conv_valid_intro; auto.
Qed.

End Scalar.

(** ** Facts of single-precision arithmetic *)

Lemma b32_mul_comm (x y : spec_float) : b32_mul x y = b32_mul y x.
Proof.
  unfold b32_mul, SFmul.
  destruct x as [sx|sx| |sx mx ex], y as [sy|sy| |sy my ey];
    try reflexivity; try (now rewrite xorb_comm).
  now rewrite xorb_comm, Pos.mul_comm, Z.add_comm.
Qed.

(** Adding to [+0] returns the other operand, but for [-0]: the sum of
    zeros of opposite signs is [+0]. *)
Lemma b32_add_zero_l (x : spec_float) :
  b32_add (S754_zero false) x =
    match x with S754_zero true => S754_zero false | _ => x end.
Proof. destruct x as [[]|[]| |sx mx ex]; reflexivity. Qed.

(** ** Vector loads and stores *)

Section Lanes.
Context {F : Type} `{Arith F}.

Lemma mm_loadu_ps_Done w b (buf : list F) p s :
  0 <= p -> p + Z.of_nat w <= Z.of_nat (length buf) ->
  mm_loadu_ps w b buf p s =
    Done (lanes buf p w)
      (mkState (out s) (lanes_trace (Load b) p w ++ trace s)).
Proof.
  revert p s. induction w as [|w IH]; intros p s Hp Hw; simpl.
  - now destruct s.
  - destruct (zlookup_lt buf p) as [x Ex]; [lia|].
    rewrite (bind_Done _ _ _ _ _ (load_Done b buf p x s Ex)).
    rewrite (bind_Done _ _ _ _ _ (IH (p + 1) (mkState _ _) ltac:(lia) ltac:(lia))).
    simpl. unfold ret. now rewrite (rd0_Some _ _ _ Ex), <- app_assoc.
Qed.

Lemma mm_storeu_ps_Done (v : list F) p s :
  0 <= p -> p + Z.of_nat (length v) <= Z.of_nat (length (out s)) ->
  mm_storeu_ps p v s =
    Done tt (mkState (store_lanes p v (out s))
               (lanes_trace Store p (length v) ++ trace s)).
Proof.
  revert p s. induction v as [|x v IH]; intros p s Hp Hv; simpl in *.
  - now destruct s.
  - rewrite (bind_Done _ _ _ _ _ (store_out_Done p x s ltac:(lia))).
    rewrite IH; simpl; rewrite ?length_insert; try lia.
    now rewrite <- app_assoc.
Qed.

Lemma length_store_lanes p (v o : list F) :
  length (store_lanes p v o) = length o.
Proof.
  revert p o. induction v as [|x v IH]; intros p o; simpl; auto.
  now rewrite IH, length_insert.
Qed.

Lemma lookup_store_lanes_lt p (v o : list F) (j : nat) :
  0 <= p -> Z.of_nat j < p -> store_lanes p v o !! j = o !! j.
Proof.
  revert p o. induction v as [|x v IH]; intros p o Hp Hj; simpl; auto.
  rewrite IH by lia. apply list_lookup_insert_ne. lia.
Qed.

Lemma lookup_store_lanes_in p (v o : list F) (l : nat) :
  0 <= p -> p + Z.of_nat (length v) <= Z.of_nat (length o) ->
  (l < length v)%nat ->
  store_lanes p v o !! (Z.to_nat p + l)%nat = v !! l.
Proof.
  revert p o l. induction v as [|x v IH]; intros p o l Hp Hv Hl;
    simpl in *; [lia|].
  destruct l as [|l].
  - rewrite lookup_store_lanes_lt by lia.
    rewrite Nat.add_0_r. apply list_lookup_insert_eq. lia.
  - replace (Z.to_nat p + S l)%nat with (Z.to_nat (p + 1) + l)%nat by lia.
    apply IH; rewrite ?length_insert; lia.
Qed.

Lemma stores_lanes_load j b p w : stores j (lanes_trace (Load b) p w) = O.
Proof.
  revert p. induction w as [|w IH]; intros p; simpl; auto.
  now rewrite stores_app, IH.
Qed.

Lemma stores_lanes_store j p w :
  stores j (lanes_trace Store p w) =
    if (p <=? j) && (j <? p + Z.of_nat w) then 1%nat else O.
Proof.
  revert p. induction w as [|w IH]; intros p.
  - simpl. destruct (Z.leb_spec p j), (Z.ltb_spec j (p + Z.of_nat 0));
      simpl; lia.
  - cbn [lanes_trace]. rewrite stores_app, IH. simpl.
    destruct (Z.eqb_spec p j), (Z.leb_spec p j), (Z.leb_spec (p + 1) j),
      (Z.ltb_spec j (p + 1 + Z.of_nat w)), (Z.ltb_spec j (p + Z.of_nat (S w)));
      simpl; lia.
Qed.

Lemma accesses_ok_lanes N K mk p w :
  (forall q, p <= q < p + Z.of_nat w -> access_ok N K (mk q) = true) ->
  accesses_ok N K (lanes_trace mk p w).
Proof.
  revert p. unfold accesses_ok. induction w as [|w IH]; intros p Hq; simpl.
  - constructor.
  - apply Forall_app. split.
    + apply IH. intros q Hq'. apply Hq. lia.
    + repeat constructor. apply Hq. lia.
Qed.

Lemma stores_loads j b (l : list Z) : stores j (Load b <$> l) = O.
Proof. induction l as [|x l IH]; simpl; auto. Qed.

End Lanes.

(** ** The reversed, broadcast kernel *)

Lemma accesses_ok_kernel_loads N K :
  accesses_ok N K (Load BufKernel <$> seqZ 0 K).
Proof.
  unfold accesses_ok. apply Forall_fmap, Forall_forall.
  intros x Hx%elem_of_seqZ. simpl. lia.
Qed.

Section ReverseKernel.
Context {F : Type} `{Arith F}.
Variables (kernel : list F) (K : Z).
Hypothesis HK : K = Z.of_nat (length kernel).

Lemma reverse_kernel_Done (w : nat) s :
  exists kr,
    reverse_kernel w kernel K (alloca K) s =
      Done kr (mkState (out s) ((Load BufKernel <$> seqZ 0 K) ++ trace s)) /\
    forall k, 0 <= k < K ->
      zlookup kr k = Some (Some (mm_set1_ps w (rd0 kernel (K - k - 1)))).
Proof.
  unfold reverse_kernel.
  destruct (for_lt_rule
    (fun i (kr : list (option (list F))) s' =>
       length kr = Z.to_nat K /\
       (forall k, 0 <= k < i ->
          zlookup kr k = Some (Some (mm_set1_ps w (rd0 kernel (K - k - 1))))) /\
       out s' = out s /\
       trace s' = (Load BufKernel <$> seqZ (K - i) i) ++ trace s)
    0 K
    (fun i kr =>
       c <- load BufKernel kernel (K - i - 1) ;;
       local_store BufKernelReverse kr i (mm_set1_ps w c))
    (alloca K) s)
    as (kr & [o t] & E & Hlen & Hkr & Ho & Ht); [lia| |..].
  - repeat split; auto.
    + unfold alloca. apply length_replicate.
    + intros k Hk. lia.
  - intros i kr s' Hi (Hlen & Hkr & Ho & Ht).
    destruct (zlookup_lt kernel (K - i - 1)) as [c Ec]; [lia|].
    rewrite (bind_Done _ _ _ _ _ (load_Done BufKernel kernel _ c s' Ec)).
    unfold local_store.
    destruct (zlookup_lt kr i) as [v0 ->]; [lia|].
    eexists _, _. split; [reflexivity|]. simpl.
    rewrite length_insert. repeat split; auto.
    + intros k Hk. apply zlookup_Some. split; [lia|].
      destruct (decide (k = i)) as [->|Hne].
      * rewrite list_lookup_insert_eq by lia.
        now rewrite (rd0_Some _ _ _ Ec).
      * rewrite list_lookup_insert_ne by lia.
        pose proof (Hkr k ltac:(lia)) as E.
        apply zlookup_Some in E as [_ E]. exact E.
    + rewrite Ht.
      replace (K - (i + 1)) with (K - i - 1) by lia.
      rewrite (seqZ_cons (K - i - 1) (i + 1)) by lia.
      replace (Z.succ (K - i - 1)) with (K - i) by lia.
      replace (Z.pred (i + 1)) with i by lia. reflexivity.
  - simpl in Ho, Ht. exists kr. rewrite E, Ho, Ht, Z.sub_diag. split; auto.
Qed.

End ReverseKernel.

(** ** [convolve_sse_simple] where its vector blocks fit *)

Section SseSimple.
Context {F : Type} `{Arith F}.
Variables (in_ kernel : list F) (N K : Z).
Hypothesis HN : N = Z.of_nat (length in_).
Hypothesis HK : K = Z.of_nat (length kernel).
Hypothesis HKN : K <= N.

Lemma conv_sum_vec_comm i n :
  (forall x y : F, fmul x y = fmul y x) ->
  conv_sum_vec in_ kernel K i n = conv_sum in_ kernel K i n.
Proof.
  intros fmul_comm. induction n as [|n IH]; simpl; [reflexivity|].
  now rewrite IH, fmul_comm.
Qed.

Lemma sse_block_Done (kr : list (option (list F))) i s :
  (forall k, 0 <= k < K ->
     zlookup kr k = Some (Some (mm_set1_ps 4 (rd0 kernel (K - k - 1))))) ->
  0 <= i -> i + 3 <= N - K ->
  accesses_ok N K (trace s) ->
  exists s',
    for_lt 0 K 1 (fun k acc =>
        data_block <- mm_loadu_ps 4 BufIn in_ (i + k) ;;
        krk <- local_load BufKernelReverse kr k ;;
        let prod := mm_mul_ps krk data_block in
        ret (mm_add_ps acc prod)) (mm_setzero_ps 4) s =
      Done (block_sums in_ kernel K i (Z.to_nat K)) s' /\
    out s' = out s /\
    (forall j, stores j (trace s') = stores j (trace s)) /\
    accesses_ok N K (trace s').
Proof.
  intros Hkr Hi Hfit Hok.
  destruct (for_lt_rule
    (fun k (acc : list F) s' =>
       acc = block_sums in_ kernel K i (Z.to_nat k) /\
       out s' = out s /\
       (forall j, stores j (trace s') = stores j (trace s)) /\
       accesses_ok N K (trace s'))
    0 K
    (fun k acc =>
        data_block <- mm_loadu_ps 4 BufIn in_ (i + k) ;;
        krk <- local_load BufKernelReverse kr k ;;
        let prod := mm_mul_ps krk data_block in
        ret (mm_add_ps acc prod)) (mm_setzero_ps 4) s)
    as (acc & s' & E & -> & Ho & Hst & Hok'); [lia| |..].
  - repeat split; auto.
  - intros k acc s' Hk (-> & Ho & Hst & Hok').
    rewrite (bind_Done _ _ _ _ _
               (mm_loadu_ps_Done 4 BufIn in_ (i + k) s' ltac:(lia) ltac:(lia))).
    unfold local_load at 1. rewrite (Hkr k Hk).
    eexists _, _. split; [reflexivity|]. simpl. repeat split; auto.
    + replace (Z.to_nat (k + 1)) with (S (Z.to_nat k)) by lia.
      unfold block_sums. simpl. rewrite !Z2Nat.id by lia.
      replace (K - 1 - k) with (K - k - 1) by lia.
      repeat (f_equal; [do 3 f_equal; lia|]).
      do 4 f_equal. lia.
    + repeat constructor; simpl; auto; lia.
  - exists s'. split; [exact E|]. repeat split; auto.
Qed.

Lemma lookup_block_sums i n (l : nat) :
  (l < 4)%nat ->
  block_sums in_ kernel K i n !! l = Some (conv_sum_vec in_ kernel K (i + Z.of_nat l) n).
Proof.
  intros Hl. unfold block_sums.
  now rewrite list_lookup_fmap, lookup_seq_lt by lia.
Qed.

Lemma sse_inv_init (out0 : list F) :
  sse_inv in_ kernel N K out0 O (mkState out0 ((Load BufKernel <$> seqZ 0 K) ++ [])).
Proof.
  unfold sse_inv. simpl. repeat split; auto.
  - intros idx Hidx. lia.
  - intros x. rewrite app_nil_r, stores_loads.
    destruct (Z.leb_spec 0 x), (Z.ltb_spec x (4 * Z.of_nat 0)); simpl; lia.
  - rewrite app_nil_r. apply accesses_ok_kernel_loads.
Qed.

Lemma sse_block_step (out0 : list F) kr (j : nat) s :
  (forall k, 0 <= k < K ->
     zlookup kr k = Some (Some (mm_set1_ps 4 (rd0 kernel (K - k - 1))))) ->
  Z.of_nat (length out0) = N - K + 1 ->
  4 * Z.of_nat j + 3 <= N - K ->
  sse_inv in_ kernel N K out0 j s ->
  exists s',
    sse_block in_ K kr (0 + 4 * Z.of_nat j) tt s = Done tt s' /\
    sse_inv in_ kernel N K out0 (S j) s'.
Proof.
  intros Hkr Hout Hj (Hlen & Hval & Hst & Hok). unfold sse_block.
  destruct (sse_block_Done kr (0 + 4 * Z.of_nat j) s Hkr)
    as (s' & E & Ho & Hst' & Hok'); auto; try lia.
  rewrite (bind_Done _ _ _ _ _ E).
  rewrite mm_storeu_ps_Done; [|lia|rewrite Ho; unfold block_sums; simpl; lia].
  eexists. split; [reflexivity|]. unfold sse_inv. cbn [out trace].
  rewrite length_store_lanes, Ho. repeat split; auto.
  - intros idx Hidx.
    destruct (Z.lt_ge_cases (Z.of_nat idx) (4 * Z.of_nat j)) as [Hold|Hnew].
    + rewrite lookup_store_lanes_lt by lia. now apply Hval.
    + replace idx with
        (Z.to_nat (0 + 4 * Z.of_nat j) + (idx - 4 * j))%nat by lia.
      rewrite lookup_store_lanes_in;
        [|lia|unfold block_sums; simpl; lia|unfold block_sums; simpl; lia].
      rewrite lookup_block_sums by lia. do 2 f_equal. lia.
  - intros x. rewrite stores_app, stores_lanes_store, Hst', Hst.
    unfold block_sums. simpl length.
    destruct (Z.leb_spec (0 + 4 * Z.of_nat j) x),
      (Z.ltb_spec x (0 + 4 * Z.of_nat j + Z.of_nat 4)),
      (Z.leb_spec 0 x), (Z.ltb_spec x (4 * Z.of_nat j)),
      (Z.ltb_spec x (4 * Z.of_nat (S j))); simpl; lia.
  - apply Forall_app. split; [|exact Hok'].
    apply accesses_ok_lanes. unfold block_sums. simpl length.
    intros q Hq. simpl. lia.
Qed.

Lemma convolve_sse_simple_post (out0 : list F) :
  (forall x y : F, fmul x y = fmul y x) ->
  Z.of_nat (length out0) = N - K + 1 ->
  (N - K) mod 4 = 0 \/ (N - K) mod 4 = 3 ->
  sse_simple_post in_ kernel N K (run (convolve_sse_simple in_ N kernel K) out0).
Proof.
  intros fmul_comm Hout Hfit. unfold run, convolve_sse_simple.
  destruct (reverse_kernel_Done kernel K HK 4 (mkState out0 []))
    as (kr & Ekr & Hkr).
  rewrite (bind_Done _ _ _ _ _ Ekr). simpl out. simpl trace.
  set (n := Z.to_nat ((N - K + 3) / 4)).
  assert (Hn : 4 * Z.of_nat n = 4 * ((N - K + 3) / 4)).
  { unfold n. rewrite Z2Nat.id; [reflexivity|].
    apply Z.div_pos; lia. }
  assert (Hblocks : 4 * (Z.of_nat n - 1) < N - K <= 4 * Z.of_nat n /\
                    4 * Z.of_nat n <= N - K + 1).
  { rewrite Z.mul_sub_distr_l, Hn.
    pose proof (Z.div_mod (N - K + 3) 4 ltac:(lia)) as Hdm.
    pose proof (Z.mod_pos_bound (N - K + 3) 4 ltac:(lia)) as Hb.
    assert (Hm : (N - K + 3) mod 4 = 3 \/ (N - K + 3) mod 4 = 2).
    { replace (N - K + 3) with (N - K + 3 * 1) by lia.
      rewrite <- Zplus_mod_idemp_l.
      destruct Hfit as [-> | ->]; [left|right]; reflexivity. }
    lia. }
  destruct Hblocks as [Hlast Hcover].
  destruct (for_lt_step_rule (fun j (_ : unit) s => sse_inv in_ kernel N K out0 j s)
    0 (N - K) 4 n (sse_block in_ K kr)
    tt (mkState out0 ((Load BufKernel <$> seqZ 0 K) ++ [])))
    as ([] & s2 & E2 & Hlen2 & Hval2 & Hst2 & Hok2); [lia|lia| |..].
  - apply sse_inv_init.
  - intros j [] s Hj Hinv. exists tt. apply sse_block_step; auto. lia.
  - unfold sse_block in E2. rewrite (bind_Done _ _ _ _ _ E2).
    rewrite (bind_Done _ _ _ _ _
               (last_value_Done in_ kernel K (N - K) s2
                  ltac:(lia) ltac:(lia) ltac:(lia) ltac:(lia))).
    eexists. split; [reflexivity|]. cbv beta. cbn [out trace].
    repeat split.
    + apply (conv_valid_intro in_ kernel N K HN HK HKN).
      * rewrite length_insert. lia.
      * intros j Hj. destruct (decide (Z.to_nat (N - K) = j)) as [<-|Hne].
        -- rewrite list_lookup_insert_eq by lia. do 2 f_equal. lia.
        -- rewrite list_lookup_insert_ne by auto.
           rewrite Hval2 by lia. now rewrite conv_sum_vec_comm.
    + intros x. rewrite stores_app, stores_taps. simpl. rewrite Hst2, <- Hn.
      destruct (Z.eqb_spec (N - K) x), (Z.eqb_spec x (N - K)),
        ((0 <=? x) && (x <? 4 * Z.of_nat n)); simpl; lia.
    + apply Forall_app. split; [apply accesses_ok_taps; lia|].
      constructor; [simpl; lia|exact Hok2].
Qed.

(** A load that straddles the end of a buffer stops at the first element
    past it. *)
Lemma mm_loadu_ps_Fault w b (buf : list F) p s :
  0 <= p <= Z.of_nat (length buf) ->
  Z.of_nat (length buf) < p + Z.of_nat w ->
  mm_loadu_ps w b buf p s = Fault (OutOfBounds b (Z.of_nat (length buf))).
Proof.
  revert p s. induction w as [|w IH]; intros p s Hp Hw; [lia|]. simpl.
  destruct (Z.eq_dec p (Z.of_nat (length buf))) as [->|Hne].
  - apply bind_Fault. unfold load.
    destruct (zlookup buf (Z.of_nat (length buf))) eqn:E; [|reflexivity].
    apply zlookup_Some in E as [_ E]. apply lookup_lt_Some in E. lia.
  - destruct (zlookup_lt buf p) as [x Ex]; [lia|].
    rewrite (bind_Done _ _ _ _ _ (load_Done b buf p x s Ex)).
    apply bind_Fault. apply IH; lia.
Qed.

(** A block that does not fit faults on the first sample past the signal. *)
Lemma sse_block_Fault (kr : list (option (list F))) i s :
  (forall k, 0 <= k < K ->
     zlookup kr k = Some (Some (mm_set1_ps 4 (rd0 kernel (K - k - 1))))) ->
  1 <= K -> 0 <= i < N - K -> N - K < i + 3 ->
  sse_block in_ K kr i tt s = Fault (OutOfBounds BufIn N).
Proof.
  intros Hkr HK1 Hi Hover. unfold sse_block. apply bind_Fault.
  apply (for_lt_step_fault (fun _ _ _ => True) 0 K 1
           (Z.to_nat (N - 3 - i))); auto; try lia.
  - intros k acc s' Hk _.
    rewrite (bind_Done _ _ _ _ _
               (mm_loadu_ps_Done 4 BufIn in_ (i + (0 + 1 * Z.of_nat k)) s'
                  ltac:(lia) ltac:(lia))).
    unfold local_load at 1. rewrite (Hkr (0 + 1 * Z.of_nat k)) by lia.
    eexists _, _. split; [reflexivity|exact I].
  - intros acc s' _. apply bind_Fault. rewrite HN.
    apply mm_loadu_ps_Fault; lia.
Qed.

(** Where the blocks do not fit, the routine faults. *)
Lemma convolve_sse_simple_Fault (out0 : list F) :
  1 <= K ->
  Z.of_nat (length out0) = N - K + 1 ->
  (N - K) mod 4 = 1 \/ (N - K) mod 4 = 2 ->
  run (convolve_sse_simple in_ N kernel K) out0 =
    Fault (OutOfBounds BufIn N).
Proof.
  intros HK1 Hout Hfit. unfold run, convolve_sse_simple.
  destruct (reverse_kernel_Done kernel K HK 4 (mkState out0 []))
    as (kr & Ekr & Hkr).
  rewrite (bind_Done _ _ _ _ _ Ekr). simpl out. simpl trace.
  apply bind_Fault.
  pose proof (Z.div_mod (N - K) 4 ltac:(lia)) as Hdm.
  assert (Hq : 0 <= (N - K) / 4) by (apply Z.div_pos; lia).
  apply (for_lt_step_fault (fun j (_ : unit) s => sse_inv in_ kernel N K out0 j s)
           0 (N - K) 4 (Z.to_nat ((N - K) / 4)) (sse_block in_ K kr)); try lia.
  - apply sse_inv_init.
  - intros j [] s Hj Hinv. exists tt. apply sse_block_step; auto. lia.
  - intros [] s _. apply sse_block_Fault; auto; lia.
Qed.

End SseSimple.

(** ** [convolve_avx_unrolled_vector_unaligned] where its blocks fit *)

Lemma avx_order_lookup (l mi : nat) :
  (l < 4)%nat -> (mi < 4)%nat ->
  avx_order !! (4 * l + mi)%nat = Some (Z.of_nat l + 4 * Z.of_nat mi).
Proof.
  intros Hl Hmi.
  do 4 (destruct l as [|l];
        [do 4 (destruct mi as [|mi]; [reflexivity|]); lia|]).
  lia.
Qed.

Lemma avx_order_permutation : avx_order ≡ₚ Z.of_nat <$> seq 0 16.
Proof. apply (bool_decide_unpack _). vm_compute. exact I. Qed.

(** A left fold is insensitive to the order of a list when its steps
    commute. *)
Lemma foldl_permutation {A B} (f : A -> B -> A) (l1 l2 : list B) :
  (forall a x y, f (f a x) y = f (f a y) x) ->
  l1 ≡ₚ l2 -> forall a, foldl f a l1 = foldl f a l2.
Proof.
  intros Hf Hp. induction Hp as [|x l1 l2 _ IH|x y l|l1 l2 l3 _ IH1 _ IH2];
    intros a; simpl; auto.
  - now rewrite Hf.
  - now rewrite IH1.
Qed.

Section AvxUnaligned.
Context {F : Type} `{Arith F}.
Variables (in_ kernel : list F) (N : Z).
Hypothesis HN : N = Z.of_nat (length in_).
Hypothesis HK : 16 = Z.of_nat (length kernel).
Hypothesis HKN : 16 <= N.

Lemma lookup_vsum x taps (j : nat) :
  (j < 8)%nat -> vsum in_ kernel x taps !! j = Some (sum_taps in_ kernel (x + Z.of_nat j) taps).
Proof.
  intros Hj. unfold vsum. now rewrite list_lookup_fmap, lookup_seq_lt by lia.
Qed.

Lemma vsum_snoc x taps t :
  mm_add_ps (vsum in_ kernel x taps)
      (mm_mul_ps (mm_set1_ps 8 (rd0 kernel (16 - t - 1)))
         (lanes in_ (x + t) 8)) =
    vsum in_ kernel x (taps ++ [t]).
Proof.
  unfold vsum, sum_taps. simpl. rewrite !foldl_app. simpl.
  repeat (f_equal; [do 3 f_equal; lia|]).
  do 4 f_equal. lia.
Qed.

Lemma sum_taps_seq x (n : nat) :
  sum_taps in_ kernel x (Z.of_nat <$> seq 0 n) = conv_sum_vec in_ kernel 16 x n.
Proof.
  induction n as [|n IH]; [reflexivity|].
  rewrite seq_S, fmap_app. unfold sum_taps in *. rewrite foldl_app, IH.
  simpl. do 3 f_equal. lia.
Qed.

(** Up to the order of the additions, a lane holds the reference sum. *)
Lemma sum_taps_avx_order x :
  (forall a b : F, fadd a b = fadd b a) ->
  (forall a b c : F, fadd a (fadd b c) = fadd (fadd a b) c) ->
  (forall a b : F, fmul a b = fmul b a) ->
  sum_taps in_ kernel x avx_order = conv_sum in_ kernel 16 x 16.
Proof.
  intros fadd_comm fadd_assoc fmul_comm.
  rewrite <- conv_sum_vec_comm, <- sum_taps_seq by exact fmul_comm.
  unfold sum_taps. apply foldl_permutation; [|apply avx_order_permutation].
  intros a t1 t2. rewrite <- !fadd_assoc. f_equal. apply fadd_comm.
Qed.

(** One block: both registers hold the sums of their lanes, accumulated in
    the order [avx_order]. *)
Lemma avx_block_Done (kr : list (option (list F))) i s :
  (forall k, 0 <= k < 16 ->
     zlookup kr k = Some (Some (mm_set1_ps 8 (rd0 kernel (16 - k - 1))))) ->
  0 <= i -> i + 15 <= N - 16 ->
  accesses_ok N 16 (trace s) ->
  exists s',
    avx_block (fun l p => mm_loadu_ps 8 BufIn in_ (l + p)) kr i s =
      Done (vsum in_ kernel i avx_order, vsum in_ kernel (i + 8) avx_order) s' /\
    out s' = out s /\
    (forall j, stores j (trace s') = stores j (trace s)) /\
    accesses_ok N 16 (trace s').
Proof.
  intros Hkr Hi Hfit Hok.
  pose (I := fun (t : nat) (accs : list F * list F) (s' : state F) =>
          accs = (vsum in_ kernel i (take t avx_order), vsum in_ kernel (i + 8) (take t avx_order)) /\
          out s' = out s /\
          (forall j, stores j (trace s') = stores j (trace s)) /\
          accesses_ok N 16 (trace s')).
  unfold avx_block, KERNEL_LENGTH, VECTOR_LENGTH, SSE_SIMD_LENGTH,
    AVX_SIMD_LENGTH.
  destruct (for_lt_step_rule (fun j => I (16 * j)%nat) 0 16 16 1
    (fun k accs =>
       for_lt 0 4 1 (fun l accs =>
         for_lt 0 16 4 (fun m accs =>
           data_block <- mm_loadu_ps 8 BufIn in_ (l + (i + k + m)) ;;
           krv <- local_load BufKernelReverse kr (k + l + m) ;;
           let prod := mm_mul_ps krv data_block in
           let acc0 := mm_add_ps (fst accs) prod in
           data_block <- mm_loadu_ps 8 BufIn in_ (l + (i + k + m + 8)) ;;
           krv <- local_load BufKernelReverse kr (k + l + m) ;;
           let prod := mm_mul_ps krv data_block in
           let acc1 := mm_add_ps (snd accs) prod in
           ret (acc0, acc1)) accs) accs)
    (mm_setzero_ps 8, mm_setzero_ps 8) s)
    as (accs & s' & E & -> & Ho & Hst & Hok'); [lia|lia| |..].
  - unfold I. repeat split; auto.
  - intros j accs0 s0 Hj HI. assert (j = O) by lia. subst j.
    change (I (16 * 0)%nat accs0 s0) with (I (4 * 0)%nat accs0 s0) in HI.
    change (16 * 1)%nat with (4 * 4)%nat.
    change (0 + 16 * Z.of_nat 0) with 0.
    apply (for_lt_rule (fun l => I (4 * Z.to_nat l)%nat) 0 4); [lia|exact HI|].
    clear accs0 s0 HI. intros l accs0 s0 Hl HI.
    replace (4 * Z.to_nat (l + 1))%nat with (4 * Z.to_nat l + 4)%nat by lia.
    apply (for_lt_step_rule (fun mi => I (4 * Z.to_nat l + mi)%nat) 0 16 4 4);
      [lia|lia|now rewrite Nat.add_0_r|].
    clear accs0 s0 HI. intros mi [acc0 acc1] s0 Hmi (Hacc & Ho & Hst & Hok').
    injection Hacc as -> ->.
    pose proof (avx_order_lookup (Z.to_nat l) mi ltac:(lia) Hmi) as Htap.
    rewrite Z2Nat.id in Htap by lia.
    set (tap := l + 4 * Z.of_nat mi) in *.
    rewrite (bind_Done _ _ _ _ _
               (mm_loadu_ps_Done 8 BufIn in_
                  (l + (i + 0 + (0 + 4 * Z.of_nat mi))) s0
                  ltac:(lia) ltac:(lia))).
    unfold local_load at 1. rewrite (Hkr (0 + l + (0 + 4 * Z.of_nat mi))) by lia.
    unfold bind at 1, ret at 1.
    rewrite (bind_Done _ _ _ _ _
               (mm_loadu_ps_Done 8 BufIn in_
                  (l + (i + 0 + (0 + 4 * Z.of_nat mi) + 8)) (mkState _ _)
                  ltac:(lia) ltac:(lia))).
    unfold local_load at 1. rewrite (Hkr (0 + l + (0 + 4 * Z.of_nat mi))) by lia.
    eexists _, _. split; [reflexivity|]. unfold I. cbn [out trace fst snd].
    replace (4 * Z.to_nat l + S mi)%nat with (S (4 * Z.to_nat l + mi)) by lia.
    rewrite (take_S_r _ _ _ Htap). repeat split; auto.
    + f_equal.
      * replace (0 + l + (0 + 4 * Z.of_nat mi)) with tap by lia.
        replace (l + (i + 0 + (0 + 4 * Z.of_nat mi))) with (i + tap) by lia.
        apply vsum_snoc.
      * replace (0 + l + (0 + 4 * Z.of_nat mi)) with tap by lia.
        replace (l + (i + 0 + (0 + 4 * Z.of_nat mi) + 8))
          with (i + 8 + tap) by lia.
        apply vsum_snoc.
    + apply Forall_app. split.
      { apply accesses_ok_lanes. intros q Hq. simpl. simpl in Hq. lia. }
      apply Forall_app. split; [|exact Hok'].
      apply accesses_ok_lanes. intros q Hq. simpl. simpl in Hq. lia.
  - exists s'. split; [exact E|]. repeat split; auto.
Qed.

Lemma avx_block_step (out0 : list F) kr (j : nat) s :
  (forall k, 0 <= k < 16 ->
     zlookup kr k = Some (Some (mm_set1_ps 8 (rd0 kernel (16 - k - 1))))) ->
  Z.of_nat (length out0) = N - 16 + 1 ->
  16 * Z.of_nat j + 15 <= N - 16 ->
  avx_inv in_ kernel N out0 j s ->
  exists s',
    (accs <- avx_block (fun l p => mm_loadu_ps 8 BufIn in_ (l + p))
               kr (0 + 16 * Z.of_nat j) ;;
     mm_storeu_ps (0 + 16 * Z.of_nat j) (fst accs) ;;;
     mm_storeu_ps (0 + 16 * Z.of_nat j + AVX_SIMD_LENGTH) (snd accs)) s =
      Done tt s' /\
    avx_inv in_ kernel N out0 (S j) s'.
Proof.
  intros Hkr Hout Hj (Hlen & Hval & Hst & Hok).
  set (i := 0 + 16 * Z.of_nat j). unfold AVX_SIMD_LENGTH.
  destruct (avx_block_Done kr i s Hkr) as (s' & E & Ho & Hst' & Hok');
    auto; try (unfold i; lia).
  rewrite (bind_Done _ _ _ _ _ E). cbn [fst snd].
  assert (Hl8 : forall x, length (vsum in_ kernel x avx_order) = 8%nat).
  { intros x. unfold vsum. now rewrite length_fmap. }
  rewrite (bind_Done _ _ _ _ _
             (mm_storeu_ps_Done (vsum in_ kernel i avx_order) i s'
                ltac:(unfold i; lia)
                ltac:(rewrite Hl8, Ho; unfold i; lia))).
  rewrite mm_storeu_ps_Done; cbn [out trace];
    rewrite ?length_store_lanes, ?Hl8, ?Ho; try (unfold i; lia).
  eexists. split; [reflexivity|]. unfold avx_inv. cbn [out trace].
  rewrite ?length_store_lanes, ?Ho. repeat split; auto.
  - intros idx Hidx.
    destruct (Z.lt_ge_cases (Z.of_nat idx) i) as [Hold|Hnew].
    + rewrite !lookup_store_lanes_lt by lia. apply Hval. unfold i in Hold. lia.
    + destruct (Z.lt_ge_cases (Z.of_nat idx) (i + 8)) as [Hlo|Hhi].
      * rewrite lookup_store_lanes_lt by lia.
        replace idx with (Z.to_nat i + (idx - Z.to_nat i))%nat at 1 by lia.
        rewrite lookup_store_lanes_in;
          rewrite ?Hl8, ?Ho; try (unfold i in *; lia).
        rewrite lookup_vsum by lia. do 2 f_equal. lia.
      * replace idx with
          (Z.to_nat (i + 8) + (idx - Z.to_nat (i + 8)))%nat at 1
          by (unfold i in *; lia).
        rewrite lookup_store_lanes_in;
          rewrite ?length_store_lanes, ?Hl8, ?Ho; try (unfold i in *; lia).
        rewrite lookup_vsum by (unfold i in *; lia).
        do 2 f_equal. unfold i in *. lia.
  - intros x. rewrite !stores_app, !stores_lanes_store, ?Hl8, Hst', Hst.
    unfold i.
    destruct (Z.leb_spec (0 + 16 * Z.of_nat j) x),
      (Z.ltb_spec x (0 + 16 * Z.of_nat j + Z.of_nat 8)),
      (Z.leb_spec (0 + 16 * Z.of_nat j + 8) x),
      (Z.ltb_spec x (0 + 16 * Z.of_nat j + 8 + Z.of_nat 8)),
      (Z.leb_spec 0 x), (Z.ltb_spec x (16 * Z.of_nat j)),
      (Z.ltb_spec x (16 * Z.of_nat (S j))); simpl; lia.
  - apply Forall_app. split.
    { apply accesses_ok_lanes. rewrite ?Hl8. intros q Hq. simpl.
      unfold i in Hq. lia. }
    apply Forall_app. split; [|exact Hok'].
    apply accesses_ok_lanes. rewrite ?Hl8. intros q Hq. simpl.
    unfold i in Hq. lia.
Qed.

Lemma convolve_avx_unaligned_post (out0 : list F) (kernel_length : Z) :
  Z.of_nat (length out0) = N - 16 + 1 ->
  (N - 16) mod 16 = 0 \/ (N - 16) mod 16 = 15 ->
  avx_unaligned_post in_ kernel N
    (run (convolve_avx_unrolled_vector_unaligned in_ N kernel kernel_length)
       out0).
Proof.
  intros Hout Hfit. unfold run, convolve_avx_unrolled_vector_unaligned.
  unfold KERNEL_LENGTH, VECTOR_LENGTH.
  destruct (reverse_kernel_Done kernel 16 HK 8 (mkState out0 []))
    as (kr & Ekr & Hkr).
  rewrite (bind_Done _ _ _ _ _ Ekr). cbn [out trace].
  set (n := Z.to_nat ((N - 16 + 15) / 16)).
  assert (Hblocks : 16 * (Z.of_nat n - 1) < N - 16 <= 16 * Z.of_nat n /\
                    16 * Z.of_nat n <= N - 16 + 1).
  { assert (Hn : Z.of_nat n = (N - 16 + 15) / 16).
    { unfold n. rewrite Z2Nat.id; [reflexivity|]. apply Z.div_pos; lia. }
    rewrite Hn.
    pose proof (Z.div_mod (N - 16 + 15) 16 ltac:(lia)) as Hdm.
    pose proof (Z.mod_pos_bound (N - 16 + 15) 16 ltac:(lia)) as Hb.
    assert (Hm : (N - 16 + 15) mod 16 = 15 \/ (N - 16 + 15) mod 16 = 14).
    { replace (N - 16 + 15) with (N - 16 + 15 * 1) by lia.
      rewrite <- Zplus_mod_idemp_l.
      destruct Hfit as [-> | ->]; [left|right]; reflexivity. }
    lia. }
  destruct Hblocks as [Hlast Hcover].
  destruct (for_lt_step_rule (fun j (_ : unit) s => avx_inv in_ kernel N out0 j s)
    0 (N - 16) 16 n
    (fun i _ =>
       accs <- avx_block (fun l p => mm_loadu_ps 8 BufIn in_ (l + p)) kr i ;;
       mm_storeu_ps i (fst accs) ;;;
       mm_storeu_ps (i + AVX_SIMD_LENGTH) (snd accs))
    tt (mkState out0 ((Load BufKernel <$> seqZ 0 16) ++ [])))
    as ([] & s2 & E2 & Hlen2 & Hval2 & Hst2 & Hok2); [lia|lia| |..].
  - unfold avx_inv. simpl. repeat split; auto.
    + intros idx Hidx. lia.
    + intros x.
      destruct (Z.leb_spec 0 x), (Z.ltb_spec x (16 * Z.of_nat 0)); simpl; lia.
    + repeat constructor; simpl; lia.
  - intros j [] s Hj Hinv. exists tt. apply avx_block_step; auto. lia.
  - rewrite (bind_Done _ _ _ _ _ E2).
    rewrite (bind_Done _ _ _ _ _
               (last_value_Done in_ kernel 16 (N - 16) s2
                  ltac:(lia) ltac:(lia) ltac:(lia) ltac:(lia))).
    eexists. split; [reflexivity|]. cbn [out trace].
    rewrite length_insert. repeat split.
    + lia.
    + intros idx Hidx. apply zlookup_Some. split; [lia|].
      rewrite list_lookup_insert_ne by lia.
      rewrite Hval2 by lia. do 2 f_equal. lia.
    + apply zlookup_Some. split; [lia|].
      now rewrite list_lookup_insert_eq by lia.
    + apply Forall_app. split; [apply accesses_ok_taps; lia|].
      constructor; [simpl; lia|exact Hok2].
Qed.

(** In an arithmetic whose addition is associative and commutative and
    whose multiplication is commutative, the routine leaves the expected
    output. *)
Lemma convolve_avx_unaligned_valid (out0 : list F) (kernel_length : Z) :
  (forall a b : F, fadd a b = fadd b a) ->
  (forall a b c : F, fadd a (fadd b c) = fadd (fadd a b) c) ->
  (forall a b : F, fmul a b = fmul b a) ->
  Z.of_nat (length out0) = N - 16 + 1 ->
  (N - 16) mod 16 = 0 \/ (N - 16) mod 16 = 15 ->
  out_of (run (convolve_avx_unrolled_vector_unaligned in_ N kernel
                 kernel_length) out0) = Some (conv_valid in_ kernel).
Proof.
  intros fadd_comm fadd_assoc fmul_comm Hout Hfit.
  destruct (convolve_avx_unaligned_post out0 kernel_length Hout Hfit)
    as (s & -> & Hlen & Hval & Hlast & _).
  simpl. f_equal. apply (conv_valid_intro in_ kernel N 16 HN HK HKN); auto.
  intros j Hj. change (Z.to_nat 16) with 16%nat.
  destruct (Z.eq_dec (Z.of_nat j) (N - 16)) as [Heq|Hne].
  - rewrite <- Heq in Hlast. apply zlookup_Some in Hlast as [_ E].
    now rewrite Nat2Z.id in E.
  - pose proof (Hval (Z.of_nat j) ltac:(lia)) as E.
    apply zlookup_Some in E as [_ E]. rewrite Nat2Z.id in E.
    now rewrite E, sum_taps_avx_order.
Qed.

End AvxUnaligned.

(** ** C1: the reference kernel *)

(** C1. For a signal of length [N >= 1] and a kernel of length [K],
    [1 <= K <= N], [convolve_naive] returns 0 and leaves, at every output
    index [0 <= i <= N-K], the sum over [k] from 0 to [K-1] of
    [in[i+k] * kernel[K-1-k]] ([conv_sum]: the kernel index descends as the
    data index ascends), accumulated from zero in ascending [k]. *)
Theorem convolve_naive_correct {F} `{Arith F} (in_ kernel out0 : list F)
    (N K : Z) :
  N = Z.of_nat (length in_) -> K = Z.of_nat (length kernel) ->
  1 <= N -> 1 <= K <= N ->
  Z.of_nat (length out0) = N - K + 1 ->
  exists s,
    run (convolve_naive in_ N kernel K) out0 = Done 0 s /\
    Z.of_nat (length (out s)) = N - K + 1 /\
    forall i, 0 <= i <= N - K ->
      zlookup (out s) i = Some (conv_sum in_ kernel K i (Z.to_nat K)).
Proof.
  intros HN HK HN1 HKN Hout.
  apply (convolve_naive_lookup in_ kernel N K HN HK ltac:(lia) out0 Hout).
Qed.

Lemma convolve_naive_correct_witness :
  exists s,
    run (convolve_naive (b32_of_Z <$> [1; 2; 3; 4; 5]) 5
           (b32_of_Z <$> [1; 0; -1]) 3) (b32_of_Z <$> [7; 7; 7]) = Done 0 s /\
    Z.of_nat (length (out s)) = 5 - 3 + 1 /\
    forall i, 0 <= i <= 5 - 3 ->
      zlookup (out s) i =
        Some (conv_sum (b32_of_Z <$> [1; 2; 3; 4; 5])
                (b32_of_Z <$> [1; 0; -1]) 3 i (Z.to_nat 3)).
Proof.
  apply (convolve_naive_correct (b32_of_Z <$> [1; 2; 3; 4; 5])
           (b32_of_Z <$> [1; 0; -1]) (b32_of_Z <$> [7; 7; 7]) 5 3);
    simpl; lia.
Defined.

(** ** C2: the variants against the reference *)

(** C2, as the code has it.  On a valid call [convolve_reversed_naive]
    leaves the very output of [convolve_naive] (each [out[i]] receives the
    same products in the same order), and so does [convolve_sse_simple]
    when its vector blocks fit the buffers, that is when [N-K] is 0 or 3
    modulo 4.  Where [K = 16] and its blocks of sixteen fit,
    [convolve_avx_unrolled_vector_unaligned] leaves in every element the
    same 16 products summed in the order [avx_order], and the reference sum
    in the last one ([avx_unaligned_post]): the output of the reference up
    to the order of the additions ([sum_taps_avx_order]).  Multiplication
    is taken commutative, as it is in IEEE arithmetic: the vector code
    multiplies coefficient by sample, the reference sample by
    coefficient. *)
Theorem variants_agree_with_naive {F} `{Arith F}
    (fmul_comm : forall x y : F, fmul x y = fmul y x)
    (in_ kernel out0 : list F) (N K : Z) :
  N = Z.of_nat (length in_) -> K = Z.of_nat (length kernel) ->
  1 <= K <= N ->
  Z.of_nat (length out0) = N - K + 1 ->
  exists o,
    out_of (run (convolve_naive in_ N kernel K) out0) = Some o /\
    out_of (run (convolve_reversed_naive in_ N kernel K) out0) = Some o /\
    ((N - K) mod 4 = 0 \/ (N - K) mod 4 = 3 ->
     out_of (run (convolve_sse_simple in_ N kernel K) out0) = Some o) /\
    (K = 16 -> (N - 16) mod 16 = 0 \/ (N - 16) mod 16 = 15 ->
     avx_unaligned_post in_ kernel N
       (run (convolve_avx_unrolled_vector_unaligned in_ N kernel K) out0)).
Proof.
  intros HN HK HKN Hout.
  destruct (convolve_naive_post in_ kernel N K HN HK ltac:(lia) out0 Hout)
    as (s1 & E1 & Ho1 & _).
  destruct (convolve_reversed_naive_post in_ kernel N K HN HK ltac:(lia)
              out0 Hout) as (s2 & E2 & Ho2 & _).
  exists (conv_valid in_ kernel). rewrite E1, E2. simpl.
  rewrite Ho1, Ho2. repeat split; auto.
  - intros Hfit.
    destruct (convolve_sse_simple_post in_ kernel N K HN HK
                ltac:(lia) out0 fmul_comm Hout Hfit) as (s3 & E3 & Ho3 & _).
    rewrite E3. simpl. now rewrite Ho3.
  - intros HK16 Hfit. subst K.
    apply convolve_avx_unaligned_post; auto; lia.
Qed.

Lemma variants_agree_with_naive_witness :
  exists o,
    out_of (run (convolve_naive signal32 32 kernel16 16) (replicate 17 fzero)) =
      Some o /\
    out_of (run (convolve_reversed_naive signal32 32 kernel16 16)
              (replicate 17 fzero)) = Some o /\
    ((32 - 16) mod 4 = 0 \/ (32 - 16) mod 4 = 3 ->
     out_of (run (convolve_sse_simple signal32 32 kernel16 16)
               (replicate 17 fzero)) = Some o) /\
    (16 = 16 -> (32 - 16) mod 16 = 0 \/ (32 - 16) mod 16 = 15 ->
     avx_unaligned_post signal32 kernel16 32
       (run (convolve_avx_unrolled_vector_unaligned signal32 32 kernel16 16)
          (replicate 17 fzero))).
Proof.
  apply (@variants_agree_with_naive spec_float b32_arith b32_mul_comm
           signal32 kernel16 (replicate 17 fzero) 32 16);
    [reflexivity|reflexivity|lia|reflexivity].
Defined.

(** C2 as stated fails for the AVX routines: a kernel of 8 coefficients is
    a multiple of their lane width, but they read 16 coefficients whatever
    [kernel_length] says. *)
Lemma avx_kernel_of_eight_faults :
  run (convolve_avx_unrolled_vector_unaligned (b32_of_Z <$> seqZ 1 24) 24
         (b32_of_Z <$> seqZ 1 8) 8) (replicate 17 fzero) =
    Fault (OutOfBounds BufKernel 15) /\
  is_Some (out_of (run (convolve_naive (b32_of_Z <$> seqZ 1 24) 24
                          (b32_of_Z <$> seqZ 1 8) 8) (replicate 17 fzero))).
Proof. split; vm_compute; eauto. Qed.

(** ** C3: the vector main loop overruns the buffers *)

(** C3.  On every call within the documented preconditions
    ([1 <= K <= N], buffers of [N], [K] and [N-K+1] floats) for which [N-K]
    is 1 or 2 modulo 4, the vector main loop of [convolve_sse_simple] runs
    a last block that does not fit and loads [in[N]], past the signal: the
    routine is not memory safe. *)
Theorem convolve_sse_simple_overruns {F} `{Arith F}
    (in_ kernel out0 : list F) (N K : Z) :
  N = Z.of_nat (length in_) -> K = Z.of_nat (length kernel) ->
  1 <= K <= N ->
  Z.of_nat (length out0) = N - K + 1 ->
  (N - K) mod 4 = 1 \/ (N - K) mod 4 = 2 ->
  run (convolve_sse_simple in_ N kernel K) out0 = Fault (OutOfBounds BufIn N).
Proof.
  intros HN HK HKN Hout Hmod.
  apply (convolve_sse_simple_Fault in_ kernel N K); auto; lia.
Qed.

Lemma convolve_sse_simple_overruns_witness :
  run (convolve_sse_simple (b32_of_Z <$> [1; 2; 3; 4; 5]) 5 kernel4 4)
    (replicate 2 fzero) = Fault (OutOfBounds BufIn 5).
Proof.
  apply (convolve_sse_simple_overruns (b32_of_Z <$> [1; 2; 3; 4; 5]) kernel4
           (replicate 2 fzero) 5 4);
    [reflexivity|reflexivity|lia|reflexivity|left; reflexivity].
Defined.

(** Were the signal buffer padded so that the loads succeed, the same block
    would store four lanes at [out[0..3]]: [out[2]] is past the output. *)
Lemma convolve_sse_simple_overruns_out :
  run (convolve_sse_simple (b32_of_Z <$> [1; 2; 3; 4; 5; 0; 0; 0]) 5
         kernel4 4) (replicate 2 fzero) = Fault (OutOfBounds BufOut 2).
Proof. vm_compute. reflexivity. Qed.

(** ** C4: the seam between the vector loop and the scalar tail *)

(** C4, at lengths that leave a remainder smaller than a vector step.
    With [N = 6], [K = 4] (three output samples), [convolve_sse_simple] has
    no full vector step, runs one all the same and faults on [in[6]]; with
    [N = 21] and a kernel of 16 (six output samples),
    [convolve_avx_unrolled_vector] and
    [convolve_avx_unrolled_vector_unaligned] fault in the same way, on
    element 21 of the copy [in_aligned[0]] and of the signal.  With
    [N = 8], [K = 4] (a remainder of one sample) [convolve_sse_simple]
    returns the output of the reference. *)
Theorem vector_tail_overruns :
  run (convolve_sse_simple (b32_of_Z <$> seqZ 1 6) 6 kernel4 4)
    (replicate 3 fzero) = Fault (OutOfBounds BufIn 6) /\
  run (convolve_avx_unrolled_vector (b32_of_Z <$> seqZ 1 21) 21 kernel16 16)
    (replicate 6 fzero) = Fault (OutOfBounds BufInAligned 21) /\
  run (convolve_avx_unrolled_vector_unaligned (b32_of_Z <$> seqZ 1 21) 21
         kernel16 16) (replicate 6 fzero) = Fault (OutOfBounds BufIn 21) /\
  out_of (run (convolve_sse_simple signal8 8 kernel4 4) (replicate 5 fzero)) =
    out_of (run (convolve_naive signal8 8 kernel4 4) (replicate 5 fzero)).
Proof. repeat split; vm_compute; reflexivity. Qed.

(** ** C5: the concrete scenario *)

(** C5, for the kernels that accept a kernel of three coefficients:
    [convolve_naive] and [convolve_reversed_naive] turn [1,2,3,4,5] and
    [1,0,-1] into [2,2,2], whatever the output buffer held. *)
Theorem scalar_kernels_concrete (out0 : list spec_float) :
  length out0 = 3%nat ->
  out_of (run (convolve_naive signal5 5 kernel3 3) out0) =
    Some (b32_of_Z <$> [2; 2; 2]) /\
  out_of (run (convolve_reversed_naive signal5 5 kernel3 3) out0) =
    Some (b32_of_Z <$> [2; 2; 2]).
Proof.
  intros Hlen.
  destruct (convolve_naive_post signal5 kernel3 5 3
              eq_refl eq_refl ltac:(lia) out0) as (s1 & E1 & Ho1 & _);
    [simpl; lia|].
  destruct (convolve_reversed_naive_post signal5 kernel3 5 3
              eq_refl eq_refl ltac:(lia) out0) as (s2 & E2 & Ho2 & _);
    [simpl; lia|].
  rewrite E1, E2. unfold out_of. rewrite Ho1, Ho2.
  split; vm_compute; reflexivity.
Qed.

Lemma scalar_kernels_concrete_witness :
  out_of (run (convolve_naive signal5 5 kernel3 3) (b32_of_Z <$> [7; 8; 9])) =
    Some (b32_of_Z <$> [2; 2; 2]) /\
  out_of (run (convolve_reversed_naive signal5 5 kernel3 3)
            (b32_of_Z <$> [7; 8; 9])) =
    Some (b32_of_Z <$> [2; 2; 2]).
Proof.
  apply (scalar_kernels_concrete (b32_of_Z <$> [7; 8; 9])). reflexivity.
Defined.

(** C5 as stated fails for the routines with a fixed kernel length: they
    read [kernel[15]], which a kernel of three coefficients does not have. *)
Lemma avx_concrete_scenario_faults :
  run (convolve_avx_unrolled_vector_unaligned signal5 5 kernel3 3)
    (b32_of_Z <$> [0; 0; 0]) = Fault (OutOfBounds BufKernel 15) /\
  run (convolve_avx_unrolled_vector signal5 5 kernel3 3)
    (b32_of_Z <$> [0; 0; 0]) = Fault (OutOfBounds BufKernel 15).
Proof. split; vm_compute; reflexivity. Qed.

(** ** C6: how often the output is stored to *)

(** C6, as the code has it ([scalar_post], [sse_simple_post]).  On a valid
    call the scalar kernels return 0, store to every element [out[0..N-K]]
    [K+1] times (the zero, then one accumulation per tap) and to nothing
    else, and the buffer they leave is the expected output, in which
    nothing of its former contents is left; every access they make is
    within the contract.  Where its vector blocks fit, [convolve_sse_simple]
    leaves the same buffer, storing once to each element that a block
    covers and [K+1] more times to [out[N-K]], the last value. *)
Theorem output_buffer_stores {F} `{Arith F}
    (fmul_comm : forall x y : F, fmul x y = fmul y x)
    (in_ kernel out0 : list F) (N K : Z) :
  N = Z.of_nat (length in_) -> K = Z.of_nat (length kernel) ->
  1 <= K <= N ->
  Z.of_nat (length out0) = N - K + 1 ->
  scalar_post in_ kernel N K (run (convolve_naive in_ N kernel K) out0) /\
  scalar_post in_ kernel N K
    (run (convolve_reversed_naive in_ N kernel K) out0) /\
  ((N - K) mod 4 = 0 \/ (N - K) mod 4 = 3 ->
   sse_simple_post in_ kernel N K
     (run (convolve_sse_simple in_ N kernel K) out0)).
Proof.
  intros HN HK HKN Hout. repeat split.
  - apply convolve_naive_post; auto; lia.
  - apply convolve_reversed_naive_post; auto; lia.
  - intros Hfit. apply convolve_sse_simple_post; auto; lia.
Qed.

Lemma output_buffer_stores_witness :
  scalar_post signal8 kernel4 8 4
    (run (convolve_naive signal8 8 kernel4 4) (b32_of_Z <$> [7; 8; 9; 7; 8])) /\
  scalar_post signal8 kernel4 8 4
    (run (convolve_reversed_naive signal8 8 kernel4 4)
       (b32_of_Z <$> [7; 8; 9; 7; 8])) /\
  ((8 - 4) mod 4 = 0 \/ (8 - 4) mod 4 = 3 ->
   sse_simple_post signal8 kernel4 8 4
     (run (convolve_sse_simple signal8 8 kernel4 4)
        (b32_of_Z <$> [7; 8; 9; 7; 8]))).
Proof.
  apply (@output_buffer_stores spec_float b32_arith b32_mul_comm
           signal8 kernel4 (b32_of_Z <$> [7; 8; 9; 7; 8]) 8 4); simpl; lia.
Defined.

(** C6 as stated fails on the concrete scenario: [convolve_naive] stores
    to [out[0]] four times, not once. *)
Lemma convolve_naive_stores_four_times :
  match run (convolve_naive signal5 5 kernel3 3) (b32_of_Z <$> [7; 8; 9]) with
  | Done _ s => stores 0 (trace s) = 4%nat /\ stores 0 (trace s) <> 1%nat
  | Fault _ => False
  end.
Proof. vm_compute. split; [reflexivity|discriminate]. Qed.

(** ** C7: a single-coefficient kernel scales the signal *)

(** C7. With [K = 1], in single precision, [convolve_naive] leaves
    [out[i] = in[i] * kernel[0]] for every [0 <= i <= N-1]: the stored value
    [0.0 + in[i] * kernel[0]] has the value of the product, and is the
    product itself unless the product is the negative zero (then it is the
    positive zero). *)
Theorem convolve_naive_single_tap (in_ out0 : list spec_float)
    (c : spec_float) (N : Z) :
  N = Z.of_nat (length in_) -> 1 <= N ->
  Z.of_nat (length out0) = N ->
  exists s,
    run (convolve_naive in_ N [c] 1) out0 = Done 0 s /\
    forall i x, 0 <= i <= N - 1 -> zlookup in_ i = Some x ->
      exists o,
        zlookup (out s) i = Some o /\
        same_value o (b32_mul x c) /\
        (b32_mul x c <> S754_zero true -> o = b32_mul x c).
Proof.
  intros HN HN1 Hout.
  destruct (convolve_naive_lookup in_ [c] N 1 HN eq_refl ltac:(lia) out0)
    as (s & E & _ & Hval); [lia|].
  exists s. split; [exact E|]. intros i x Hi Ex.
  rewrite (Hval i) by lia. eexists. split; [reflexivity|].
  change (Z.to_nat 1) with 1%nat. cbn [conv_sum].
  change (Z.of_nat 0) with 0. rewrite Z.add_0_r, (rd0_Some _ _ _ Ex).
  change (rd0 [c] (1 - 1 - 0)) with c.
  change (fadd fzero (fmul x c)) with (b32_add (S754_zero false) (b32_mul x c)).
  rewrite b32_add_zero_l.
  destruct (b32_mul x c) as [[]|[]| |sx mx ex]; split;
    try (left; reflexivity); try reflexivity; try congruence.
  right. eauto.
Qed.

Lemma convolve_naive_single_tap_witness :
  exists s,
    run (convolve_naive (b32_of_Z <$> [1; -2; 3]) 3 [b32_of_Z 5] 1)
      (b32_of_Z <$> [0; 0; 0]) = Done 0 s /\
    forall i x, 0 <= i <= 3 - 1 ->
      zlookup (b32_of_Z <$> [1; -2; 3]) i = Some x ->
      exists o,
        zlookup (out s) i = Some o /\
        same_value o (b32_mul x (b32_of_Z 5)) /\
        (b32_mul x (b32_of_Z 5) <> S754_zero true ->
         o = b32_mul x (b32_of_Z 5)).
Proof.
  apply (convolve_naive_single_tap (b32_of_Z <$> [1; -2; 3])
           (b32_of_Z <$> [0; 0; 0]) (b32_of_Z 5) 3); simpl; lia.
Defined.

(** ** C8: linearity in the kernel *)

Section Linearity.
Context {F : Type} `{Arith F}.
Hypothesis fadd_comm : forall x y : F, fadd x y = fadd y x.
Hypothesis fadd_assoc : forall x y z : F, fadd x (fadd y z) = fadd (fadd x y) z.
Hypothesis fadd_0_l : forall x : F, fadd fzero x = x.
Hypothesis fmul_comm : forall x y : F, fmul x y = fmul y x.
Hypothesis fmul_assoc : forall x y z : F, fmul x (fmul y z) = fmul (fmul x y) z.
Hypothesis fmul_0_r : forall x : F, fmul x fzero = fzero.
Hypothesis fmul_distr :
  forall x y z : F, fmul x (fadd y z) = fadd (fmul x y) (fmul x z).

Lemma rd0_scale c (l : list F) i : rd0 (scale c l) i = fmul c (rd0 l i).
Proof.
  unfold rd0, scale, zlookup. destruct (i <? 0); simpl; [now rewrite fmul_0_r|].
  rewrite list_lookup_fmap. destruct (l !! Z.to_nat i); simpl; auto.
Qed.

Lemma rd0_add_lists (l1 l2 : list F) i :
  length l1 = length l2 ->
  rd0 (add_lists l1 l2) i = fadd (rd0 l1 i) (rd0 l2 i).
Proof.
  intros Hlen. unfold rd0, add_lists, zlookup.
  destruct (i <? 0); simpl; [now rewrite fadd_0_l|].
  rewrite lookup_zip_with.
  destruct (l1 !! Z.to_nat i) eqn:E1, (l2 !! Z.to_nat i) eqn:E2; simpl; auto.
  - apply lookup_lt_Some in E1. apply lookup_ge_None in E2. lia.
  - apply lookup_lt_Some in E2. apply lookup_ge_None in E1. lia.
Qed.

Lemma conv_sum_scale c (in_ kernel : list F) K i n :
  conv_sum in_ (scale c kernel) K i n = fmul c (conv_sum in_ kernel K i n).
Proof.
  induction n as [|n IH]; simpl; [now rewrite fmul_0_r|].
  rewrite IH, rd0_scale, fmul_distr. f_equal.
  rewrite !fmul_assoc. f_equal. apply fmul_comm.
Qed.

Lemma conv_sum_add_lists (in_ k1 k2 : list F) K i n :
  length k1 = length k2 ->
  conv_sum in_ (add_lists k1 k2) K i n =
    fadd (conv_sum in_ k1 K i n) (conv_sum in_ k2 K i n).
Proof.
  intros Hlen. induction n as [|n IH]; simpl; [now rewrite fadd_0_l|].
  rewrite IH, rd0_add_lists, fmul_distr by exact Hlen.
  set (a := conv_sum in_ k1 K i n). set (b := conv_sum in_ k2 K i n).
  set (p := fmul _ (rd0 k1 _)). set (q := fmul _ (rd0 k2 _)).
  rewrite !fadd_assoc. f_equal.
  rewrite <- !fadd_assoc. f_equal. apply fadd_comm.
Qed.

Lemma conv_valid_scale c (in_ kernel : list F) :
  conv_valid in_ (scale c kernel) = scale c (conv_valid in_ kernel).
Proof.
  assert (Hl : length (scale c kernel) = length kernel)
    by apply length_fmap.
  unfold conv_valid. rewrite !Hl.
  set (l := seq _ _). unfold scale at 2. rewrite <- list_fmap_compose.
  apply list_fmap_ext. intros _ j _. simpl. apply conv_sum_scale.
Qed.

Lemma conv_valid_add_lists (in_ k1 k2 : list F) :
  length k1 = length k2 ->
  conv_valid in_ (add_lists k1 k2) =
    add_lists (conv_valid in_ k1) (conv_valid in_ k2).
Proof.
  intros Hlen.
  assert (Hl : length (add_lists k1 k2) = length k1).
  { unfold add_lists. rewrite length_zip_with. lia. }
  unfold conv_valid. rewrite !Hl, <- !Hlen.
  set (l := seq _ _). unfold add_lists at 2.
  rewrite zip_with_fmap_l, zip_with_fmap_r, zip_with_diag.
  apply list_fmap_ext. intros _ j _. simpl.
  now apply conv_sum_add_lists.
Qed.

(** Background: were the arithmetic exact (the laws of a commutative
    semiring, as in integer arithmetic; they do not hold in [Binary32]),
    [convolve_naive] with the kernel scaled by [c] would leave the output
    of the unscaled kernel scaled by [c], and with the sum of two kernels
    of equal length the sum of their two outputs.  The failures below are
    failures of these laws, that is of rounding, alone. *)
Lemma convolve_naive_linear (in_ kernel kernel' out0 : list F) (c : F)
    (N K : Z) :
  N = Z.of_nat (length in_) -> K = Z.of_nat (length kernel) ->
  length kernel' = length kernel ->
  1 <= K <= N ->
  Z.of_nat (length out0) = N - K + 1 ->
  exists o o',
    out_of (run (convolve_naive in_ N kernel K) out0) = Some o /\
    out_of (run (convolve_naive in_ N kernel' K) out0) = Some o' /\
    out_of (run (convolve_naive in_ N (scale c kernel) K) out0) =
      Some (scale c o) /\
    out_of (run (convolve_naive in_ N (add_lists kernel kernel') K) out0) =
      Some (add_lists o o').
Proof.
  intros HN HK Hlen HKN Hout.
  destruct (convolve_naive_post in_ kernel N K HN HK ltac:(lia) out0 Hout)
    as (s1 & E1 & Ho1 & _).
  destruct (convolve_naive_post in_ kernel' N K HN ltac:(lia) ltac:(lia)
              out0 Hout) as (s2 & E2 & Ho2 & _).
  destruct (convolve_naive_post in_ (scale c kernel) N K HN) with (out0 := out0)
    as (s3 & E3 & Ho3 & _); try lia.
  { unfold scale. rewrite length_fmap. lia. }
  destruct (convolve_naive_post in_ (add_lists kernel kernel') N K HN)
    with (out0 := out0) as (s4 & E4 & Ho4 & _); try lia.
  { unfold add_lists. rewrite length_zip_with. lia. }
  exists (out s1), (out s2). rewrite E1, E2, E3, E4. simpl.
  rewrite Ho1, Ho2, Ho3, Ho4.
  rewrite conv_valid_scale, conv_valid_add_lists by auto.
  repeat split; reflexivity.
Qed.

End Linearity.

Lemma convolve_naive_linear_witness :
  exists o o',
    out_of (run (convolve_naive [1; 2; 3] 3 [1; -1] 2) [0; 0]) = Some o /\
    out_of (run (convolve_naive [1; 2; 3] 3 [4; 5] 2) [0; 0]) = Some o' /\
    out_of (run (convolve_naive [1; 2; 3] 3 (scale 7 [1; -1]) 2) [0; 0]) =
      Some (scale 7 o) /\
    out_of (run (convolve_naive [1; 2; 3] 3 (add_lists [1; -1] [4; 5]) 2)
              [0; 0]) = Some (add_lists o o').
Proof.
  apply (@convolve_naive_linear Z z_arith
           Z.add_comm Z.add_assoc Z.add_0_l Z.mul_comm Z.mul_assoc
           Z.mul_0_r Z.mul_add_distr_l
           [1; 2; 3] [1; -1] [4; 5] [0; 0] 7 3 2);
    simpl; lia.
Defined.

(** *** Single precision: the sign symmetry *)

(** Rounding does not look at the sign: it is carried to the result. *)
Lemma binary_round_aux_opp s m e l :
  binary_round_aux prec emax (negb s) m e l =
    SFopp (binary_round_aux prec emax s m e l).
Proof.
  unfold binary_round_aux.
  destruct (shr_fexp prec emax m e l) as [mrs e'].
  destruct (shr_fexp prec emax _ e' loc_Exact) as [mrs' e''].
  destruct (shr_m mrs') as [|p|p]; try reflexivity.
  now destruct (e'' <=? emax - prec).
Qed.

Lemma binary_round_opp s m e :
  binary_round prec emax (negb s) m e = SFopp (binary_round prec emax s m e).
Proof.
  unfold binary_round.
  destruct (shl_align m e _) as [mz ez]. apply binary_round_aux_opp.
Qed.

(** [x * (-y) = -(x * y)], exactly. *)
Lemma b32_mul_opp_r x y : b32_mul x (SFopp y) = SFopp (b32_mul x y).
Proof.
  unfold b32_mul.
  destruct x as [sx|sx| |sx mx ex], y as [sy|sy| |sy my ey];
    cbn [SFmul SFopp]; try reflexivity; try (now destruct sx, sy).
  rewrite <- binary_round_aux_opp. f_equal. now destruct sx, sy.
Qed.

(** [a + (-p) = -(a' + p)] when [a = -a'], but for the sign of a zero. *)
Lemma b32_add_opp a a' p :
  same_value a (SFopp a') ->
  same_value (b32_add a (SFopp p)) (SFopp (b32_add a' p)).
Proof.
  intros [->|(sx & sy & -> & Hz)].
  - unfold b32_add.
    destruct a' as [sa|sa| |sa ma ea], p as [sp|sp| |sp mp ep];
      cbn [SFadd SFopp];
      try solve [left; reflexivity];
      try solve [destruct sa, sp; cbn [negb SFopp];
                 ((left; reflexivity) || (right; eauto))].
    set (A := Z.pos (fst (shl_align ma ea (Z.min ea ep)))).
    set (B := Z.pos (fst (shl_align mp ep (Z.min ea ep)))).
    replace (cond_Zopp (negb sa) A + cond_Zopp (negb sp) B)
      with (- (cond_Zopp sa A + cond_Zopp sp B))
      by (destruct sa, sp; unfold cond_Zopp; cbn [negb]; lia).
    destruct (cond_Zopp sa A + cond_Zopp sp B) as [|q|q];
      unfold binary_normalize; cbn [Z.opp].
    + right. eauto.
    + left. apply (binary_round_opp false).
    + left. apply (binary_round_opp true).
  - destruct a' as [sa|sa| |sa ma ea]; try discriminate.
    unfold b32_add.
    destruct p as [sp|sp| |sp mp ep]; cbn [SFadd SFopp];
      try solve [left; reflexivity];
      try solve [destruct sx, sa, sp; cbn [negb SFopp];
                 ((left; reflexivity) || (right; eauto))].
Qed.

Lemma rd0_negate (l : list spec_float) i :
  0 <= i < Z.of_nat (length l) -> rd0 (SFopp <$> l) i = SFopp (rd0 l i).
Proof.
  intros Hi. unfold rd0, zlookup. destruct (Z.ltb_spec i 0); [lia|].
  rewrite list_lookup_fmap.
  destruct (lookup_lt_is_Some_2 l (Z.to_nat i) ltac:(lia)) as [v ->].
  reflexivity.
Qed.

Lemma conv_sum_negate (in_ kernel : list spec_float) K i n :
  K = Z.of_nat (length kernel) -> Z.of_nat n <= K ->
  same_value (conv_sum in_ (SFopp <$> kernel) K i n)
    (SFopp (conv_sum in_ kernel K i n)).
Proof.
  intros HK. induction n as [|n IH]; intros Hn.
  - right. exists false, true. split; reflexivity.
  - cbn [conv_sum]. rewrite rd0_negate by lia.
    change fmul with b32_mul. change fadd with b32_add.
    rewrite b32_mul_opp_r. apply b32_add_opp, IH. lia.
Qed.

(** C8, as the code has it.  In IEEE single precision, in which the code
    computes, linearity in the kernel is not exact (see the counterexample
    below); the instance of it that holds on every valid call is the
    scaling by -1.  [convolve_naive] with every coefficient of the kernel
    negated ([SFopp] flips the sign, as the multiplication by [-1.0f]
    does) returns 0 like the call with the kernel itself, and leaves at
    every index [0 <= i <= N-K] the negation of the sample that call
    leaves: the same magnitude, infinity or NaN with the sign flipped,
    where a zero sample may keep its sign ([same_value]). *)
Theorem convolve_naive_negated_kernel (in_ kernel out0 : list spec_float)
    (N K : Z) :
  N = Z.of_nat (length in_) -> K = Z.of_nat (length kernel) ->
  1 <= K <= N ->
  Z.of_nat (length out0) = N - K + 1 ->
  exists s s',
    run (convolve_naive in_ N kernel K) out0 = Done 0 s /\
    run (convolve_naive in_ N (SFopp <$> kernel) K) out0 = Done 0 s' /\
    forall i, 0 <= i <= N - K ->
      exists o o',
        zlookup (out s) i = Some o /\
        zlookup (out s') i = Some o' /\
        same_value o' (SFopp o).
Proof.
  intros HN HK HKN Hout.
  destruct (convolve_naive_lookup in_ kernel N K HN HK ltac:(lia) out0 Hout)
    as (s & E & _ & Hval).
  destruct (convolve_naive_lookup in_ (SFopp <$> kernel) N K HN
              ltac:(rewrite length_fmap; exact HK) ltac:(lia) out0 Hout)
    as (s' & E' & _ & Hval').
  exists s, s'. split; [exact E|]. split; [exact E'|]. intros i Hi.
  eexists _, _. split; [apply Hval, Hi|]. split; [apply Hval', Hi|].
  apply conv_sum_negate; [exact HK|lia].
Qed.

Lemma convolve_naive_negated_kernel_witness :
  exists s s',
    run (convolve_naive signal5 5 kernel3 3) (b32_of_Z <$> [7; 8; 9]) =
      Done 0 s /\
    run (convolve_naive signal5 5 (SFopp <$> kernel3) 3)
      (b32_of_Z <$> [7; 8; 9]) = Done 0 s' /\
    forall i, 0 <= i <= 5 - 3 ->
      exists o o',
        zlookup (out s) i = Some o /\
        zlookup (out s') i = Some o' /\
        same_value o' (SFopp o).
Proof.
  apply (convolve_naive_negated_kernel signal5 kernel3
           (b32_of_Z <$> [7; 8; 9]) 5 3);
    [reflexivity|reflexivity|lia|reflexivity].
Defined.

(** C8 as stated fails in single precision.  Scaling: with the signal [3],
    the kernel [0.1f] and [c = 7], [3 * (7 * 0.1f)] and [7 * (3 * 0.1f)]
    round differently.  Sums: with the kernels [1] and [2^-24],
    [3 * (1 + 2^-24)] is 3 while [3 * 1 + 3 * 2^-24] rounds up. *)
Lemma convolve_naive_not_linear_in_binary32 :
  naive1 (scale (b32_of_Z 7) [tenth]) <>
    scale (b32_of_Z 7) <$> naive1 [tenth] /\
  naive1 (add_lists [b32_of_Z 1] [tiny]) <>
    add_lists (default [] (naive1 [b32_of_Z 1])) <$> naive1 [tiny].
Proof. vm_compute. split; discriminate. Qed.

(** ** C9: the AVX routines and their kernel argument *)

Lemma bind_ext {F A B} (m1 m2 : M F A) (k1 k2 : A -> M F B) s :
  m1 s = m2 s -> (forall a s', k1 a s' = k2 a s') ->
  bind m1 k1 s = bind m2 k2 s.
Proof.
  intros Em Ek. unfold bind. rewrite Em.
  destruct (m2 s); [apply Ek|reflexivity].
Qed.

(** Two bodies that agree within the bounds make the same loop. *)
Lemma for_lt_ext {F A} (lo hi step : Z) (body1 body2 : Z -> A -> M F A) :
  0 <= step ->
  (forall i a s, lo <= i < hi -> body1 i a s = body2 i a s) ->
  forall a s, for_lt lo hi step body1 a s = for_lt lo hi step body2 a s.
Proof.
  intros Hstep Hbody.
  assert (Hfuel : forall fuel i a s, lo <= i ->
            for_fuel fuel (fun i => i <? hi) step body1 i a s =
            for_fuel fuel (fun i => i <? hi) step body2 i a s).
  { induction fuel as [|fuel IH]; intros i a s Hi; simpl; [reflexivity|].
    destruct (Z.ltb_spec i hi); [|reflexivity].
    apply bind_ext; [apply Hbody; lia|].
    intros a' s'. apply IH. lia. }
  intros a s. apply Hfuel. lia.
Qed.

Lemma zlookup_take {A} (l : list A) (n : nat) i :
  i < Z.of_nat n -> zlookup (take n l) i = zlookup l i.
Proof.
  intros Hi. unfold zlookup. destruct (Z.ltb_spec i 0); [reflexivity|].
  apply lookup_take_lt. lia.
Qed.

Section KernelPrefix.
Context {F : Type} `{Arith F}.
Variables (kernel1 kernel2 : list F).
Hypothesis Hprefix : take 16 kernel1 = take 16 kernel2.

Lemma load_kernel_prefix j :
  j < 16 -> load BufKernel kernel1 j = load BufKernel kernel2 j.
Proof.
  intros Hj. unfold load.
  rewrite <- (zlookup_take kernel1 16), <- (zlookup_take kernel2 16) by lia.
  now rewrite Hprefix.
Qed.

Lemma reverse_kernel_prefix w kr s :
  reverse_kernel w kernel1 KERNEL_LENGTH kr s =
    reverse_kernel w kernel2 KERNEL_LENGTH kr s.
Proof.
  unfold reverse_kernel. apply for_lt_ext; [lia|].
  intros i a s' Hi. unfold KERNEL_LENGTH in *.
  now rewrite load_kernel_prefix by lia.
Qed.

Lemma last_value_prefix rd i s :
  last_value rd kernel1 i KERNEL_LENGTH s =
    last_value rd kernel2 i KERNEL_LENGTH s.
Proof.
  unfold last_value. apply bind_ext; [reflexivity|].
  intros _ s'. apply for_lt_ext; [lia|].
  intros k a s'' Hk. unfold accumulate, KERNEL_LENGTH in *.
  now rewrite load_kernel_prefix by lia.
Qed.

End KernelPrefix.

(** C9. The output of [convolve_avx_unrolled_vector] and of
    [convolve_avx_unrolled_vector_unaligned] does not depend on the
    argument [kernel_length], nor on the kernel beyond its first 16
    coefficients: two calls on the same signal and output buffer, with
    kernels that agree on their first 16 coefficients and with any two
    values of [kernel_length], end in the same result, the same output
    buffer and the same accesses. *)
Theorem avx_kernels_ignore_kernel_length {F} `{Arith F}
    (in_ out0 kernel1 kernel2 : list F) (N kernel_length1 kernel_length2 : Z) :
  take 16 kernel1 = take 16 kernel2 ->
  run (convolve_avx_unrolled_vector in_ N kernel1 kernel_length1) out0 =
    run (convolve_avx_unrolled_vector in_ N kernel2 kernel_length2) out0 /\
  run (convolve_avx_unrolled_vector_unaligned in_ N kernel1 kernel_length1)
      out0 =
    run (convolve_avx_unrolled_vector_unaligned in_ N kernel2 kernel_length2)
      out0.
Proof.
  intros Hprefix.
  unfold run, convolve_avx_unrolled_vector,
    convolve_avx_unrolled_vector_unaligned.
  split.
  - apply bind_ext; [now apply reverse_kernel_prefix|]. intros kr s1.
    apply bind_ext; [reflexivity|]. intros ia s2.
    apply bind_ext; [reflexivity|]. intros _ s3.
    apply bind_ext; [now apply last_value_prefix|]. reflexivity.
  - apply bind_ext; [now apply reverse_kernel_prefix|]. intros kr s1.
    apply bind_ext; [reflexivity|]. intros _ s2.
    apply bind_ext; [now apply last_value_prefix|]. reflexivity.
Qed.

Lemma avx_kernels_ignore_kernel_length_witness :
  run (convolve_avx_unrolled_vector (seqZ 1 32) 32 (seqZ 1 16 ++ [99]) 17)
      (seqZ 0 17) =
    run (convolve_avx_unrolled_vector (seqZ 1 32) 32 (seqZ 1 16 ++ [5; 6]) 3)
      (seqZ 0 17) /\
  run (convolve_avx_unrolled_vector_unaligned (seqZ 1 32) 32
         (seqZ 1 16 ++ [99]) 17) (seqZ 0 17) =
    run (convolve_avx_unrolled_vector_unaligned (seqZ 1 32) 32
           (seqZ 1 16 ++ [5; 6]) 3) (seqZ 0 17).
Proof.
  apply (avx_kernels_ignore_kernel_length (seqZ 1 32) (seqZ 0 17)
           (seqZ 1 16 ++ [99]) (seqZ 1 16 ++ [5; 6]) 32 17 3).
  reflexivity.
Defined.

(** ** C10: a kernel longer than the signal *)

Lemma for_le_none {F A} (lo hi : Z) (body : Z -> A -> M F A) a s :
  hi < lo -> for_le lo hi body a s = Done a s.
Proof.
  intros Hlt. unfold for_le.
  now replace (Z.to_nat (hi + 1 - lo)) with O by lia.
Qed.

Lemma for_lt_none {F A} (lo hi step : Z) (body : Z -> A -> M F A) a s :
  hi <= lo -> for_lt lo hi step body a s = Done a s.
Proof.
  intros Hle. unfold for_lt.
  now replace (Z.to_nat (hi - lo)) with O by lia.
Qed.

(** C10, as the code has it.  With a kernel longer than the signal,
    [0 <= N < K], and a kernel buffer of at least [K] floats,
    [convolve_naive] runs no iteration and makes no access at all; in
    [convolve_reversed_naive] the zeroing loop and every accumulation loop
    run no iteration, while the loop over the taps still runs [K] times,
    reading [kernel[K-1]] down to [kernel[0]].  Both leave the output
    buffer as it was, store nothing, stay in bounds and return 0.  The
    signal length is not negative: [length - kernel_length] then lies
    between [-K] and [-1] and is computed without overflow of [int]. *)
Theorem scalar_kernels_short_signal {F} `{Arith F}
    (in_ kernel out0 : list F) (N K : Z) :
  0 <= N -> N < K -> K <= Z.of_nat (length kernel) ->
  run (convolve_naive in_ N kernel K) out0 = Done 0 (mkState out0 []) /\
  run (convolve_reversed_naive in_ N kernel K) out0 =
    Done 0 (mkState out0 (Load BufKernel <$> seqZ 0 K)).
Proof.
  intros HN0 HNK Hker. unfold run, convolve_naive, convolve_reversed_naive.
  split.
  - erewrite bind_Done by (apply for_le_none; lia). reflexivity.
  - erewrite bind_Done by (apply for_le_none; lia).
    destruct (Z.le_gt_cases K 0) as [HK0|HK0].
    + erewrite bind_Done by (apply for_lt_none; lia).
      now rewrite seqZ_nil by lia.
    + destruct (for_lt_rule
        (fun k (_ : unit) s =>
           out s = out0 /\ trace s = Load BufKernel <$> seqZ (K - k) k)
        0 K
        (fun k _ =>
           kernel_value <- load BufKernel kernel (K - k - 1) ;;
           for_le 0 (N - K) (fun i _ =>
             x <- load BufIn in_ (i + k) ;;
             o <- load_out i ;;
             store_out i (fadd o (fmul x kernel_value))) tt)
        tt (mkState out0 []))
        as ([] & [o t] & E & Ho & Ht); [lia| |..].
      * split; reflexivity.
      * intros k [] s Hk [Ho Ht].
        destruct (zlookup_lt kernel (K - k - 1)) as [c Ec]; [lia|].
        rewrite (bind_Done _ _ _ _ _ (load_Done BufKernel kernel _ c s Ec)).
        rewrite for_le_none by lia. eexists tt, _. split; [reflexivity|].
        simpl. split; [exact Ho|]. rewrite Ht.
        replace (K - (k + 1)) with (K - k - 1) by lia.
        rewrite (seqZ_cons (K - k - 1) (k + 1)) by lia.
        replace (Z.succ (K - k - 1)) with (K - k) by lia.
        replace (Z.pred (k + 1)) with k by lia. reflexivity.
      * simpl in Ho, Ht. rewrite (bind_Done _ _ _ _ _ E). subst o t.
        now rewrite Z.sub_diag.
Qed.

Lemma scalar_kernels_short_signal_witness :
  run (convolve_naive (b32_of_Z <$> [1]) 1 (b32_of_Z <$> [1; 2]) 2)
    (b32_of_Z <$> [9]) = Done 0 (mkState (b32_of_Z <$> [9]) []) /\
  run (convolve_reversed_naive (b32_of_Z <$> [1]) 1 (b32_of_Z <$> [1; 2]) 2)
    (b32_of_Z <$> [9]) =
    Done 0 (mkState (b32_of_Z <$> [9]) (Load BufKernel <$> seqZ 0 2)).
Proof.
  apply (scalar_kernels_short_signal (b32_of_Z <$> [1])
           (b32_of_Z <$> [1; 2]) (b32_of_Z <$> [9]) 1 2); simpl; lia.
Defined.

(** C10 as stated fails at [N = 1], [K = 2]: [convolve_naive] makes no
    access, but the tap loop of [convolve_reversed_naive] runs twice,
    reading [kernel[1]] and [kernel[0]]. *)
Lemma reversed_naive_short_signal_iterates :
  trace_of (run (convolve_naive (b32_of_Z <$> [1]) 1
                   (b32_of_Z <$> [1; 2]) 2) (b32_of_Z <$> [9])) = Some [] /\
  trace_of (run (convolve_reversed_naive (b32_of_Z <$> [1]) 1
                   (b32_of_Z <$> [1; 2]) 2) (b32_of_Z <$> [9])) =
    Some [Load BufKernel 1; Load BufKernel 0].
Proof. split; vm_compute; reflexivity. Qed.

(** * The other routines: proofs *)

(** ** Loops: unfolding, splitting, tiling *)

Lemma bind_assoc {F A B C} (m : M F A) (f : A -> M F B) (g : B -> M F C) s :
  bind (bind m f) g s = bind m (fun a => bind (f a) g) s.
Proof. unfold bind. now destruct (m s). Qed.

Lemma for_lt_unfold {F A} (lo hi step : Z) (body : Z -> A -> M F A) a s :
  0 < step -> lo < hi ->
  for_lt lo hi step body a s =
    bind (body lo a) (for_lt (lo + step) hi step body) s.
Proof.
  intros Hstep Hlt. unfold for_lt.
  destruct (Z.to_nat (hi - lo)) as [|fuel] eqn:Ef; [lia|].
  simpl. destruct (Z.ltb_spec lo hi); [|lia].
  apply bind_ext; [reflexivity|]. intros a' s'.
  apply (for_fuel_enough hi step); auto; lia.
Qed.

(** [for (i = lo; i < hi; i++)] is the loop to [mid] followed by the loop
    from [mid]. *)
Lemma for_lt_split {F A} (lo mid hi : Z) (body : Z -> A -> M F A) a s :
  lo <= mid <= hi ->
  for_lt lo hi 1 body a s =
    bind (for_lt lo mid 1 body a) (for_lt mid hi 1 body) s.
Proof.
  intros Hm. remember (Z.to_nat (mid - lo)) as d eqn:Ed.
  revert lo a s Hm Ed. induction d as [|d IH]; intros lo a s Hm Ed.
  - assert (lo = mid) by lia. subst lo.
    now rewrite (bind_Done _ _ _ _ _
                   (for_lt_none mid mid 1 body a s ltac:(lia))).
  - rewrite for_lt_unfold by lia.
    etransitivity;
      [|symmetry; apply bind_ext;
          [apply for_lt_unfold; lia|reflexivity]].
    rewrite bind_assoc. apply bind_ext; [reflexivity|].
    intros a' s'. apply IH; lia.
Qed.

(** The loop over [lo, lo+n) is the loop over [0, n) on the shifted body. *)
Lemma for_lt_shift {F A} (lo n : Z) (body : Z -> A -> M F A) a s :
  for_lt lo (lo + n) 1 body a s =
    for_lt 0 n 1 (fun l => body (lo + l)) a s.
Proof.
  unfold for_lt. replace (lo + n - lo) with (n - 0) by lia.
  assert (Hgen : forall fuel d a s,
            for_fuel fuel (fun i => i <? lo + n) 1 body (lo + d) a s =
            for_fuel fuel (fun i => i <? n) 1 (fun l => body (lo + l)) d a s).
  { induction fuel as [|fuel IH]; intros d a0 s0; simpl; [reflexivity|].
    destruct (Z.ltb_spec (lo + d) (lo + n)), (Z.ltb_spec d n);
      try lia; [|reflexivity].
    apply bind_ext; [reflexivity|]. intros a' s'.
    replace (lo + d + 1) with (lo + (d + 1)) by lia. apply IH. }
  rewrite <- Hgen. now rewrite Z.add_0_r.
Qed.

(** Loop tiling: a loop over [4n] indices is the loop over [n] tiles of
    four. *)
Lemma for_lt_tile {F A} (n : nat) (lo : Z) (body : Z -> A -> M F A) a s :
  for_lt lo (lo + 4 * Z.of_nat n) 1 body a s =
    for_lt lo (lo + 4 * Z.of_nat n) 4
      (fun k a => for_lt 0 4 1 (fun l a => body (k + l) a) a) a s.
Proof.
  revert lo a s. induction n as [|n IH]; intros lo a s.
  - now rewrite !for_lt_none by lia.
  - rewrite (for_lt_split lo (lo + 4)) by lia.
    rewrite (for_lt_unfold lo _ 4) by lia.
    apply bind_ext; [apply for_lt_shift|]. intros a' s'.
    replace (lo + 4 * Z.of_nat (S n)) with (lo + 4 + 4 * Z.of_nat n) by lia.
    apply IH.
Qed.

(** ** Runs that leave defined behaviour *)

Lemma bind_faults_l {F A B} (m : M F A) (k : A -> M F B) s :
  out_of (m s) = None -> out_of (bind m k s) = None.
Proof. unfold bind. now destruct (m s). Qed.

Lemma bind_faults_r {F A B} (m : M F A) (k : A -> M F B) s :
  (forall a s', m s = Done a s' -> out_of (k a s') = None) ->
  out_of (bind m k s) = None.
Proof. intros Hk. unfold bind. destruct (m s); [now apply Hk|reflexivity]. Qed.

(** A loop one of whose iterations faults in every state faults. *)
Lemma for_lt_faults {F A} (lo hi step : Z) (j : nat)
    (body : Z -> A -> M F A) :
  0 < step -> lo + step * Z.of_nat j < hi ->
  (forall a s, out_of (body (lo + step * Z.of_nat j) a s) = None) ->
  forall a s, out_of (for_lt lo hi step body a s) = None.
Proof.
  intros Hstep. revert lo. induction j as [|j IH]; intros lo Hlt Hbody a s.
  - rewrite for_lt_unfold by lia. apply bind_faults_l.
    replace lo with (lo + step * Z.of_nat 0) at 1 by lia. apply Hbody.
  - rewrite for_lt_unfold by lia. apply bind_faults_r. intros a' s' _.
    apply IH; [lia|]. intros a0 s0.
    replace (lo + step + step * Z.of_nat j)
      with (lo + step * Z.of_nat (S j)) by lia.
    apply Hbody.
Qed.

(** What the locals of a loop keep whenever the loop returns. *)
Lemma for_lt_keeps {F A} (P : A -> Prop) (lo hi step : Z)
    (body : Z -> A -> M F A) :
  (forall i a s a' s', P a -> body i a s = Done a' s' -> P a') ->
  forall a s a' s',
    P a -> for_lt lo hi step body a s = Done a' s' -> P a'.
Proof.
  intros Hbody. unfold for_lt. generalize (Z.to_nat (hi - lo)) as fuel.
  intros fuel. revert lo. induction fuel as [|fuel IH];
    intros lo a s a' s' HP E; simpl in E.
  - injection E as <- <-. exact HP.
  - destruct (lo <? hi).
    + unfold bind in E. destruct (body lo a s) as [a1 s1|] eqn:E1;
        [|discriminate].
      eapply IH; [|exact E]. eapply Hbody; eauto.
    + injection E as <- <-. exact HP.
Qed.

Section PartialUnroll.
Context {F : Type} `{Arith F}.

(** A vector load past the end of a buffer faults. *)
Lemma mm_loadu_ps_faults w b (buf : list F) p s :
  (0 < w)%nat -> Z.of_nat (length buf) < p + Z.of_nat w ->
  out_of (mm_loadu_ps w b buf p s) = None.
Proof.
  revert p s. induction w as [|w IH]; intros p s Hw0 Hw; [lia|]. simpl.
  unfold load at 1. destruct (zlookup buf p) eqn:E; [|reflexivity].
  apply zlookup_Some in E as [? E]. apply lookup_lt_Some in E.
  apply bind_faults_r. intros x s' _. apply bind_faults_l.
  apply IH; lia.
Qed.

(** The taps in tiles of four are the taps one by one. *)
Lemma partial_unroll_taps (in_ : list F) kr i K acc s :
  K mod 4 = 0 ->
  for_lt 0 K 4 (fun k acc =>
      let data_offset := i + k in
      for_lt 0 4 1 (fun l acc =>
        data_block <- mm_loadu_ps 4 BufIn in_ (data_offset + l) ;;
        krv <- local_load BufKernelReverse kr (k + l) ;;
        let prod := mm_mul_ps krv data_block in
        ret (mm_add_ps acc prod)) acc) acc s =
  for_lt 0 K 1 (fun k acc =>
      data_block <- mm_loadu_ps 4 BufIn in_ (i + k) ;;
      krv <- local_load BufKernelReverse kr k ;;
      let prod := mm_mul_ps krv data_block in
      ret (mm_add_ps acc prod)) acc s.
Proof.
  intros Hmod. destruct (Z.le_gt_cases K 0) as [HK|HK].
  - now rewrite !for_lt_none by lia.
  - pose proof (Z.div_mod K 4 ltac:(lia)) as Hdm. rewrite Hmod in Hdm.
    assert (Hq : 0 <= K / 4) by (apply Z.div_pos; lia).
    replace K with (0 + 4 * Z.of_nat (Z.to_nat (K / 4))) by lia.
    rewrite (for_lt_tile _ 0 (fun k acc =>
      data_block <- mm_loadu_ps 4 BufIn in_ (i + k) ;;
      krv <- local_load BufKernelReverse kr k ;;
      let prod := mm_mul_ps krv data_block in
      ret (mm_add_ps acc prod))).
    apply for_lt_ext; [lia|]. intros k a s' _. cbv zeta.
    apply for_lt_ext; [lia|]. intros l a' s'' _.
    now replace (i + k + l) with (i + (k + l)) by lia.
Qed.

Lemma convolve_sse_partial_unroll_simple (in_ kernel out0 : list F) N K :
  K mod 4 = 0 ->
  run (convolve_sse_partial_unroll in_ N kernel K) out0 =
    run (convolve_sse_simple in_ N kernel K) out0.
Proof.
  intros Hmod. unfold run, convolve_sse_partial_unroll, convolve_sse_simple.
  apply bind_ext; [reflexivity|]. intros kr s1.
  apply bind_ext; [|reflexivity].
  apply for_lt_ext; [lia|]. intros i [] s2 _.
  apply bind_ext; [|reflexivity].
  now apply partial_unroll_taps.
Qed.

(** The reversed kernel has [kernel_length] elements. *)
Lemma reverse_kernel_length (kernel : list F) w K s kr s' :
  reverse_kernel w kernel K (alloca K) s = Done kr s' ->
  length kr = Z.to_nat K.
Proof.
  unfold reverse_kernel.
  apply (for_lt_keeps (fun kr : list (option (list F)) =>
                         length kr = Z.to_nat K)).
  - intros i a s0 a' s0' Ha E. unfold bind in E.
    destruct (load BufKernel kernel (K - i - 1) s0) as [c s1|]; [|discriminate].
    unfold local_store in E. destruct (zlookup a i); [|discriminate].
    injection E as <- <-. now rewrite length_insert.
  - unfold alloca. apply length_replicate.
Qed.

Lemma convolve_sse_partial_unroll_faults (in_ kernel out0 : list F) N K :
  K mod 4 <> 0 -> 0 < K < N ->
  out_of (run (convolve_sse_partial_unroll in_ N kernel K) out0) = None.
Proof.
  intros Hmod HK. unfold run, convolve_sse_partial_unroll.
  apply bind_faults_r. intros kr s1 Ekr.
  apply reverse_kernel_length in Ekr.
  apply bind_faults_l.
  apply (for_lt_faults 0 (N - K) 4 0); [lia|lia|]. intros [] s2.
  apply bind_faults_l.
  pose proof (Z.div_mod K 4 ltac:(lia)) as Hdm.
  pose proof (Z.mod_pos_bound K 4 ltac:(lia)) as Hb.
  assert (Hq : 0 <= K / 4) by (apply Z.div_pos; lia).
  apply (for_lt_faults 0 K 4 (Z.to_nat (K / 4))); [lia|lia|].
  intros acc s3. cbv zeta.
  apply (for_lt_faults 0 4 1 (Z.to_nat (K mod 4))); [lia|lia|].
  intros acc' s4. apply bind_faults_r. intros data s5 _.
  apply bind_faults_l. unfold local_load.
  replace (0 + 4 * Z.of_nat (Z.to_nat (K / 4)) +
           (0 + 1 * Z.of_nat (Z.to_nat (K mod 4)))) with K by lia.
  destruct (zlookup kr K) as [v|] eqn:E; [|reflexivity].
  apply zlookup_Some in E as [_ E]. apply lookup_lt_Some in E. lia.
Qed.

End PartialUnroll.

(** ** Reads of the signal, direct or through a copy *)

Section LastValue.
Context {F : Type} `{Arith F}.
Variables (in_ kernel : list F) (N K : Z).
Variable rd : Z -> M F F.
Hypothesis Hrd : forall p s, 0 <= p < N ->
  exists s', rd p s = Done (rd0 in_ p) s' /\ out s' = out s /\
    (forall j, stores j (trace s') = stores j (trace s)) /\
    (accesses_ok N K (trace s) -> accesses_ok N K (trace s')).

(** The special case of the last value, whatever the signal is read
    through. *)
Lemma last_value_reads i s :
  0 <= i < Z.of_nat (length (out s)) -> 0 <= K ->
  i + K <= N -> K <= Z.of_nat (length kernel) ->
  exists s',
    last_value rd kernel i K s = Done tt s' /\
    out s' = <[Z.to_nat i := conv_sum in_ kernel K i (Z.to_nat K)]> (out s) /\
    (forall j, stores j (trace s') =
               (stores j (trace s) +
                if (i =? j)%Z then S (Z.to_nat K) else O)%nat) /\
    (i <= N - K -> accesses_ok N K (trace s) -> accesses_ok N K (trace s')).
Proof.
  intros Hi HK Hin Hker. unfold last_value.
  rewrite (bind_Done _ _ _ _ _ (store_out_Done i fzero s Hi)).
  destruct (for_lt_rule
    (fun k (_ : unit) s' =>
       out s' = <[Z.to_nat i := conv_sum in_ kernel K i (Z.to_nat k)]> (out s) /\
       (forall j, stores j (trace s') =
                  (stores j (trace s) +
                   if (i =? j)%Z then S (Z.to_nat k) else O)%nat) /\
       (i <= N - K -> accesses_ok N K (trace s) -> accesses_ok N K (trace s')))
    0 K (fun k _ => accumulate rd kernel i k (K - k - 1)) tt
    (mkState (<[Z.to_nat i := fzero]> (out s)) (Store i :: trace s)))
    as ([] & s' & E & Ho & Hst & Hok); [lia| |..].
  - cbn [out trace]. repeat split; auto.
    + intros j. simpl. destruct (i =? j); lia.
    + intros Hle Hok. constructor; [simpl; lia|exact Hok].
  - intros k [] s' Hk (Ho & Hst & Hok).
    destruct (Hrd (i + k) s') as (s1 & E1 & Ho1 & Hst1 & Hok1); [lia|].
    destruct (zlookup_lt kernel (K - k - 1)) as [c Ec]; [lia|].
    eexists tt, _. split.
    + eapply accumulate_Done; [exact E1|exact Ec|].
      rewrite Ho1, Ho. apply zlookup_Some. split; [lia|].
      apply list_lookup_insert_eq. lia.
    + cbn [out trace]. rewrite Ho1, Ho, list_insert_insert_eq.
      replace (Z.to_nat (k + 1)) with (S (Z.to_nat k)) by lia. simpl conv_sum.
      rewrite Z2Nat.id by lia.
      replace (K - 1 - k) with (K - k - 1) by lia.
      rewrite (rd0_Some _ _ _ Ec). repeat split; auto.
      * intros j. simpl. rewrite Hst1, Hst. destruct (i =? j); lia.
      * intros Hle Hok0. repeat constructor; simpl; try lia.
        apply Hok1, Hok; auto.
  - exists s'. split; [exact E|]. repeat split; auto.
Qed.

End LastValue.

(** ** The AVX family: blocks of sixteen outputs *)

Lemma mm256_fmadd_ps_unfused {F} `{Arith F} (a b c : list F) :
  mm256_fmadd_ps unfused a b c = mm_add_ps c (mm_mul_ps a b).
Proof.
  revert b c. induction a as [|x a IH]; intros [|y b] [|z c]; simpl; auto.
  unfold mm_add_ps, mm_mul_ps in IH. now rewrite IH.
Qed.

(** The block of the routines that do not fuse is the fused block over
    [unfused]. *)
Lemma avx_block_unfused {F} `{Arith F} loadu (kr : list (option (list F))) i s :
  avx_block loadu kr i s = avx_block_fma unfused loadu kr i s.
Proof.
  unfold avx_block, avx_block_fma.
  apply for_lt_ext; [unfold VECTOR_LENGTH; lia|]. intros k a1 s1 _. cbv zeta.
  apply for_lt_ext; [lia|]. intros l a2 s2 _.
  apply for_lt_ext; [unfold SSE_SIMD_LENGTH; lia|]. intros m a3 s3 _.
  apply bind_ext; [reflexivity|]. intros d1 s4.
  apply bind_ext; [reflexivity|]. intros k1 s5.
  apply bind_ext; [reflexivity|]. intros d2 s6.
  apply bind_ext; [reflexivity|]. intros k2 s7.
  now rewrite !mm256_fmadd_ps_unfused.
Qed.

Section AvxFamily.
Context {F : Type} `{Arith F}.
Variable ffma : F -> F -> F -> F.
Variables (in_ kernel : list F) (N : Z).
Hypothesis HN : N = Z.of_nat (length in_).
Hypothesis HK : 16 = Z.of_nat (length kernel).
Hypothesis HKN : 16 <= N.
Variable loadu : Z -> Z -> M F (list F).
Hypothesis Hloadu : forall l p s, 0 <= l < 4 -> 0 <= p -> l + p + 8 <= N ->
  exists s', loadu l p s = Done (lanes in_ (l + p) 8) s' /\ out s' = out s /\
    (forall j, stores j (trace s') = stores j (trace s)) /\
    (accesses_ok N 16 (trace s) -> accesses_ok N 16 (trace s')).

Lemma lookup_vfma x taps (j : nat) :
  (j < 8)%nat ->
  vfma ffma in_ kernel x taps !! j =
    Some (fma_taps ffma in_ kernel (x + Z.of_nat j) taps).
Proof.
  intros Hj. unfold vfma. now rewrite list_lookup_fmap, lookup_seq_lt by lia.
Qed.

Lemma length_vfma x taps : length (vfma ffma in_ kernel x taps) = 8%nat.
Proof. unfold vfma. now rewrite length_fmap. Qed.

Lemma vfma_snoc x taps t :
  mm256_fmadd_ps ffma (mm_set1_ps 8 (rd0 kernel (16 - t - 1)))
      (lanes in_ (x + t) 8) (vfma ffma in_ kernel x taps) =
    vfma ffma in_ kernel x (taps ++ [t]).
Proof.
  unfold vfma, fma_taps. simpl. rewrite !foldl_app. simpl.
  repeat (f_equal; [do 2 f_equal; lia|]).
  do 3 f_equal. lia.
Qed.

(** One block: both registers hold the accumulations of their lanes, in
    the order [avx_order]. *)
Lemma avx_block_fma_Done (kr : list (option (list F))) i s :
  (forall k, 0 <= k < 16 ->
     zlookup kr k = Some (Some (mm_set1_ps 8 (rd0 kernel (16 - k - 1))))) ->
  0 <= i -> i + 15 <= N - 16 ->
  exists s',
    avx_block_fma ffma loadu kr i s =
      Done (vfma ffma in_ kernel i avx_order,
            vfma ffma in_ kernel (i + 8) avx_order) s' /\
    out s' = out s /\
    (forall j, stores j (trace s') = stores j (trace s)) /\
    (accesses_ok N 16 (trace s) -> accesses_ok N 16 (trace s')).
Proof.
  intros Hkr Hi Hfit.
  pose (I := fun (t : nat) (accs : list F * list F) (s' : state F) =>
          accs = (vfma ffma in_ kernel i (take t avx_order),
                  vfma ffma in_ kernel (i + 8) (take t avx_order)) /\
          out s' = out s /\
          (forall j, stores j (trace s') = stores j (trace s)) /\
          (accesses_ok N 16 (trace s) -> accesses_ok N 16 (trace s'))).
  unfold avx_block_fma, KERNEL_LENGTH, VECTOR_LENGTH, SSE_SIMD_LENGTH,
    AVX_SIMD_LENGTH.
  destruct (for_lt_step_rule (fun j => I (16 * j)%nat) 0 16 16 1
    (fun k accs =>
       for_lt 0 4 1 (fun l accs =>
         for_lt 0 16 4 (fun m accs =>
           data_block <- loadu l (i + k + m) ;;
           krv <- local_load BufKernelReverse kr (k + l + m) ;;
           let acc0 := mm256_fmadd_ps ffma krv data_block (fst accs) in
           data_block <- loadu l (i + k + m + 8) ;;
           krv <- local_load BufKernelReverse kr (k + l + m) ;;
           let acc1 := mm256_fmadd_ps ffma krv data_block (snd accs) in
           ret (acc0, acc1)) accs) accs)
    (mm_setzero_ps 8, mm_setzero_ps 8) s)
    as (accs & s' & E & -> & Ho & Hst & Hok'); [lia|lia| |..].
  - unfold I. repeat split; auto.
  - intros j accs0 s0 Hj HI. assert (j = O) by lia. subst j.
    change (I (16 * 0)%nat accs0 s0) with (I (4 * 0)%nat accs0 s0) in HI.
    change (16 * 1)%nat with (4 * 4)%nat.
    change (0 + 16 * Z.of_nat 0) with 0.
    apply (for_lt_rule (fun l => I (4 * Z.to_nat l)%nat) 0 4); [lia|exact HI|].
    clear accs0 s0 HI. intros l accs0 s0 Hl HI.
    replace (4 * Z.to_nat (l + 1))%nat with (4 * Z.to_nat l + 4)%nat by lia.
    apply (for_lt_step_rule (fun mi => I (4 * Z.to_nat l + mi)%nat) 0 16 4 4);
      [lia|lia|now rewrite Nat.add_0_r|].
    clear accs0 s0 HI. intros mi [acc0 acc1] s0 Hmi (Hacc & Ho & Hst & Hok').
    injection Hacc as -> ->.
    pose proof (avx_order_lookup (Z.to_nat l) mi ltac:(lia) Hmi) as Htap.
    rewrite Z2Nat.id in Htap by lia.
    set (tap := l + 4 * Z.of_nat mi) in *.
    destruct (Hloadu l (i + 0 + (0 + 4 * Z.of_nat mi)) s0)
      as (s1 & E1 & Ho1 & Hst1 & Hok1); [lia|lia|lia|].
    rewrite (bind_Done _ _ _ _ _ E1).
    unfold local_load at 1. rewrite (Hkr (0 + l + (0 + 4 * Z.of_nat mi))) by lia.
    unfold bind at 1, ret at 1. cbv zeta.
    destruct (Hloadu l (i + 0 + (0 + 4 * Z.of_nat mi) + 8) s1)
      as (s2 & E2 & Ho2 & Hst2 & Hok2); [lia|lia|lia|].
    rewrite (bind_Done _ _ _ _ _ E2).
    unfold local_load at 1. rewrite (Hkr (0 + l + (0 + 4 * Z.of_nat mi))) by lia.
    eexists _, _. split; [reflexivity|]. unfold I. cbn [out trace fst snd].
    replace (4 * Z.to_nat l + S mi)%nat with (S (4 * Z.to_nat l + mi)) by lia.
    rewrite (take_S_r _ _ _ Htap). repeat split.
    + f_equal.
      * replace (0 + l + (0 + 4 * Z.of_nat mi)) with tap by lia.
        replace (l + (i + 0 + (0 + 4 * Z.of_nat mi))) with (i + tap) by lia.
        apply vfma_snoc.
      * replace (0 + l + (0 + 4 * Z.of_nat mi)) with tap by lia.
        replace (l + (i + 0 + (0 + 4 * Z.of_nat mi) + 8))
          with (i + 8 + tap) by lia.
        apply vfma_snoc.
    + congruence.
    + intros x. now rewrite Hst2, Hst1.
    + auto.
  - exists s'. split; [exact E|]. repeat split; auto.
Qed.

Lemma avx_block_fma_step (out0 : list F) kr (j : nat) s :
  (forall k, 0 <= k < 16 ->
     zlookup kr k = Some (Some (mm_set1_ps 8 (rd0 kernel (16 - k - 1))))) ->
  Z.of_nat (length out0) = N - 16 + 1 ->
  16 * Z.of_nat j + 15 <= N - 16 ->
  fma_inv ffma in_ kernel N out0 j s ->
  exists s',
    (accs <- avx_block_fma ffma loadu kr (0 + 16 * Z.of_nat j) ;;
     mm_storeu_ps (0 + 16 * Z.of_nat j) (fst accs) ;;;
     mm_storeu_ps (0 + 16 * Z.of_nat j + AVX_SIMD_LENGTH) (snd accs)) s =
      Done tt s' /\
    fma_inv ffma in_ kernel N out0 (S j) s'.
Proof.
  intros Hkr Hout Hj (Hlen & Hval & Hst & Hok).
  set (i := 0 + 16 * Z.of_nat j). unfold AVX_SIMD_LENGTH.
  destruct (avx_block_fma_Done kr i s Hkr) as (s' & E & Ho & Hst' & Hok');
    try (unfold i; lia).
  rewrite (bind_Done _ _ _ _ _ E). cbn [fst snd].
  rewrite (bind_Done _ _ _ _ _
             (mm_storeu_ps_Done (vfma ffma in_ kernel i avx_order) i s'
                ltac:(unfold i; lia)
                ltac:(rewrite length_vfma, Ho; unfold i; lia))).
  rewrite mm_storeu_ps_Done; cbn [out trace];
    rewrite ?length_store_lanes, ?length_vfma, ?Ho; try (unfold i; lia).
  eexists. split; [reflexivity|]. unfold fma_inv. cbn [out trace].
  rewrite ?length_store_lanes, ?Ho. repeat split; auto.
  - intros idx Hidx.
    destruct (Z.lt_ge_cases (Z.of_nat idx) i) as [Hold|Hnew].
    + rewrite !lookup_store_lanes_lt by lia. apply Hval. unfold i in Hold. lia.
    + destruct (Z.lt_ge_cases (Z.of_nat idx) (i + 8)) as [Hlo|Hhi].
      * rewrite lookup_store_lanes_lt by lia.
        replace idx with (Z.to_nat i + (idx - Z.to_nat i))%nat at 1 by lia.
        rewrite lookup_store_lanes_in;
          rewrite ?length_vfma, ?Ho; try (unfold i in *; lia).
        rewrite lookup_vfma by lia. do 2 f_equal. lia.
      * replace idx with
          (Z.to_nat (i + 8) + (idx - Z.to_nat (i + 8)))%nat at 1
          by (unfold i in *; lia).
        rewrite lookup_store_lanes_in;
          rewrite ?length_store_lanes, ?length_vfma, ?Ho;
          try (unfold i in *; lia).
        rewrite lookup_vfma by (unfold i in *; lia).
        do 2 f_equal. unfold i in *. lia.
  - intros x. rewrite !stores_app, !stores_lanes_store, ?length_vfma, Hst', Hst.
    unfold i.
    destruct (Z.leb_spec (0 + 16 * Z.of_nat j) x),
      (Z.ltb_spec x (0 + 16 * Z.of_nat j + Z.of_nat 8)),
      (Z.leb_spec (0 + 16 * Z.of_nat j + 8) x),
      (Z.ltb_spec x (0 + 16 * Z.of_nat j + 8 + Z.of_nat 8)),
      (Z.leb_spec 0 x), (Z.ltb_spec x (16 * Z.of_nat j)),
      (Z.ltb_spec x (16 * Z.of_nat (S j))); simpl; lia.
  - apply Forall_app. split.
    { apply accesses_ok_lanes. rewrite ?length_vfma. intros q Hq. simpl.
      unfold i in Hq. lia. }
    apply Forall_app. split; [|now apply Hok'].
    apply accesses_ok_lanes. rewrite ?length_vfma. intros q Hq. simpl.
    unfold i in Hq. lia.
Qed.

Variable rd : Z -> M F F.
Hypothesis Hrd : forall p s, 0 <= p < N ->
  exists s', rd p s = Done (rd0 in_ p) s' /\ out s' = out s /\
    (forall j, stores j (trace s') = stores j (trace s)) /\
    (accesses_ok N 16 (trace s) -> accesses_ok N 16 (trace s')).

(** The main loop and the last value, from a state in which nothing was
    stored yet. *)
Lemma avx_family_main (out0 : list F) kr s :
  (forall k, 0 <= k < 16 ->
     zlookup kr k = Some (Some (mm_set1_ps 8 (rd0 kernel (16 - k - 1))))) ->
  Z.of_nat (length out0) = N - 16 + 1 ->
  (N - 16) mod 16 = 0 \/ (N - 16) mod 16 = 15 ->
  out s = out0 -> (forall x, stores x (trace s) = O) ->
  accesses_ok N 16 (trace s) ->
  avx_family_post ffma in_ kernel N
    ((for_lt 0 (N - 16) 16 (fun i _ =>
        accs <- avx_block_fma ffma loadu kr i ;;
        mm_storeu_ps i (fst accs) ;;;
        mm_storeu_ps (i + AVX_SIMD_LENGTH) (snd accs)) tt ;;;
      last_value rd kernel (N - 16) 16 ;;;
      ret 0) s).
Proof.
  intros Hkr Hout Hfit Hs Hst0 Hok0.
  set (n := Z.to_nat ((N - 16 + 15) / 16)).
  assert (Hn : Z.of_nat n = (N - 16 + 15) / 16).
  { unfold n. rewrite Z2Nat.id; [reflexivity|]. apply Z.div_pos; lia. }
  assert (Hblocks : 16 * (Z.of_nat n - 1) < N - 16 <= 16 * Z.of_nat n /\
                    16 * Z.of_nat n <= N - 16 + 1).
  { rewrite Hn.
    pose proof (Z.div_mod (N - 16 + 15) 16 ltac:(lia)) as Hdm.
    pose proof (Z.mod_pos_bound (N - 16 + 15) 16 ltac:(lia)) as Hb.
    assert (Hm : (N - 16 + 15) mod 16 = 15 \/ (N - 16 + 15) mod 16 = 14).
    { replace (N - 16 + 15) with (N - 16 + 15 * 1) by lia.
      rewrite <- Zplus_mod_idemp_l.
      destruct Hfit as [-> | ->]; [left|right]; reflexivity. }
    lia. }
  destruct Hblocks as [Hlast Hcover].
  destruct (for_lt_step_rule
    (fun j (_ : unit) s => fma_inv ffma in_ kernel N out0 j s)
    0 (N - 16) 16 n
    (fun i _ =>
       accs <- avx_block_fma ffma loadu kr i ;;
       mm_storeu_ps i (fst accs) ;;;
       mm_storeu_ps (i + AVX_SIMD_LENGTH) (snd accs))
    tt s)
    as ([] & s2 & E2 & Hlen2 & Hval2 & Hst2 & Hok2); [lia|lia| |..].
  - unfold fma_inv. rewrite Hs. repeat split; auto.
    + intros idx Hidx. lia.
    + intros x. rewrite Hst0.
      destruct (Z.leb_spec 0 x), (Z.ltb_spec x (16 * Z.of_nat 0)); simpl; lia.
  - intros j [] s0 Hj Hinv. exists tt. apply avx_block_fma_step; auto. lia.
  - rewrite (bind_Done _ _ _ _ _ E2).
    destruct (last_value_reads in_ kernel N 16 rd Hrd (N - 16) s2)
      as (s3 & E3 & Ho3 & Hst3 & Hok3); try lia.
    rewrite (bind_Done _ _ _ _ _ E3).
    eexists. split; [reflexivity|]. rewrite Ho3.
    rewrite length_insert. repeat split.
    + lia.
    + intros idx Hidx. apply zlookup_Some. split; [lia|].
      rewrite list_lookup_insert_ne by lia.
      rewrite Hval2 by lia. do 2 f_equal. lia.
    + apply zlookup_Some. split; [lia|].
      now rewrite list_lookup_insert_eq by lia.
    + intros x. rewrite Hst3, Hst2, <- Hn.
      destruct (Z.eqb_spec (N - 16) x), (Z.eqb_spec x (N - 16)),
        ((0 <=? x) && (x <? 16 * Z.of_nat n)); simpl; lia.
    + apply Hok3; [lia|exact Hok2].
Qed.

End AvxFamily.

Section Rows.
Context {F : Type} `{Arith F}.

Lemma length_lanes (buf : list F) p w : length (lanes buf p w) = w.
Proof. revert p. induction w as [|w IH]; intros p; simpl; auto. Qed.

Lemma lookup_lanes (buf : list F) p w (q : nat) :
  (q < w)%nat -> lanes buf p w !! q = Some (rd0 buf (p + Z.of_nat q)).
Proof.
  revert p q. induction w as [|w IH]; intros p q Hq; [lia|].
  destruct q as [|q]; simpl.
  - now rewrite Z.add_0_r.
  - rewrite IH by lia. do 2 f_equal. lia.
Qed.

(** A vector load that reaches an element never written faults. *)
Lemma row_loadu_ps_faults w (row : list (option F)) lim p s :
  (forall q v, lim <= q -> zlookup row q <> Some (Some v)) ->
  (0 < w)%nat -> lim < p + Z.of_nat w ->
  out_of (row_loadu_ps w row p s) = None.
Proof.
  intros Hrow. revert p. induction w as [|w IH]; intros p Hw0 Hw; [lia|].
  simpl. unfold local_load at 1.
  destruct (zlookup row p) as [[v|]|] eqn:E; try reflexivity.
  unfold bind at 1, ret at 1. apply bind_faults_l.
  apply IH; [|lia].
  destruct w as [|w]; [|lia].
  exfalso. apply (Hrow p v); [lia|exact E].
Qed.

Lemma lanes_trace_not_elem (mk : Z -> event) e p w :
  (forall q, mk q <> e) -> e ∉ lanes_trace mk p w.
Proof.
  intros Hmk. revert p. induction w as [|w IH]; intros p; simpl.
  - apply not_elem_of_nil.
  - rewrite elem_of_app, list_elem_of_singleton. intros [E|E].
    + now apply IH in E.
    + now apply (Hmk p).
Qed.

End Rows.

Section Copies.
Context {F : Type} `{Arith F}.
Variables (in_ : list F) (N K : Z).
Hypothesis HN : N = Z.of_nat (length in_).

Lemma zlookup_shifted_row_lt l q :
  0 <= l -> 0 <= q < N - l ->
  zlookup (shifted_row in_ N l) q = Some (Some (rd0 in_ (l + q))).
Proof.
  intros Hl Hq. apply zlookup_Some. split; [lia|]. unfold shifted_row.
  rewrite lookup_app_l by (rewrite length_fmap, length_lanes; lia).
  rewrite list_lookup_fmap, lookup_lanes by lia.
  now rewrite Z2Nat.id by lia.
Qed.

Lemma zlookup_shifted_row_ge l q v :
  0 <= l <= N -> N - l <= q ->
  zlookup (shifted_row in_ N l) q <> Some (Some v).
Proof.
  intros Hl Hq E. apply zlookup_Some in E as [_ E]. unfold shifted_row in E.
  rewrite lookup_app_r in E by (rewrite length_fmap, length_lanes; lia).
  apply lookup_replicate in E as [E _]. discriminate.
Qed.

Lemma memcpy_from_in_Done l s :
  0 <= l <= N ->
  memcpy_from_in (alloca N) in_ l (N - l) s =
    Done (shifted_row in_ N l)
      (mkState (out s)
         (lanes_trace (Load BufIn) l (Z.to_nat (N - l)) ++ trace s)).
Proof.
  intros Hl. unfold memcpy_from_in.
  destruct (Z.ltb_spec (N - l) 0); [lia|].
  rewrite (bind_Done _ _ _ _ _
             (mm_loadu_ps_Done (Z.to_nat (N - l)) BufIn in_ l s
                ltac:(lia) ltac:(lia))).
  unfold alloca. rewrite length_replicate.
  destruct (Z.ltb_spec (Z.of_nat (Z.to_nat N)) (N - l)); [lia|].
  unfold ret, shifted_row. rewrite drop_replicate.
  do 3 f_equal. lia.
Qed.

(** The four shifted copies. *)
Lemma shifted_copies_Done (R : nat) s :
  (4 <= R)%nat -> 3 <= N ->
  exists ia s',
    shifted_copies in_ N (replicate R (alloca N)) s = Done ia s' /\
    out s' = out s /\
    (forall j, stores j (trace s') = stores j (trace s)) /\
    (accesses_ok N K (trace s) -> accesses_ok N K (trace s')) /\
    (forall j, Load BufOut j ∉ trace s -> Load BufOut j ∉ trace s') /\
    forall l, 0 <= l < 4 -> zlookup ia l = Some (shifted_row in_ N l).
Proof.
  intros HR HN3. unfold shifted_copies, SSE_SIMD_LENGTH.
  destruct (for_lt_rule
    (fun i (ia : list (list (option F))) s' =>
       length ia = R /\
       (forall l, 0 <= l < i -> zlookup ia l = Some (shifted_row in_ N l)) /\
       (forall l, i <= l < Z.of_nat R -> zlookup ia l = Some (alloca N)) /\
       out s' = out s /\
       (forall j, stores j (trace s') = stores j (trace s)) /\
       (accesses_ok N K (trace s) -> accesses_ok N K (trace s')) /\
       (forall j, Load BufOut j ∉ trace s -> Load BufOut j ∉ trace s'))
    0 4
    (fun i ia =>
       row <- row_of ia i ;;
       row <- memcpy_from_in row in_ i (N - i) ;;
       ret (<[Z.to_nat i := row]> ia))
    (replicate R (alloca N)) s)
    as (ia & s' & E & Hlen & Hrows & _ & Ho & Hst & Hok & Hno); [lia| |..].
  - rewrite length_replicate. repeat split; auto.
    + intros l Hl. lia.
    + intros l Hl. apply zlookup_Some. split; [lia|].
      apply lookup_replicate. split; [reflexivity|lia].
  - intros i ia s' Hi (Hlen & Hrows & Hrest & Ho & Hst & Hok & Hno).
    unfold row_of. rewrite (Hrest i) by lia.
    unfold bind at 1, ret at 1.
    rewrite (bind_Done _ _ _ _ _ (memcpy_from_in_Done i s' ltac:(lia))).
    eexists _, _. split; [reflexivity|]. cbn [out trace].
    rewrite length_insert. repeat split; auto.
    + intros l Hl. apply zlookup_Some. split; [lia|].
      destruct (decide (l = i)) as [->|Hne].
      * apply list_lookup_insert_eq. lia.
      * rewrite list_lookup_insert_ne by lia.
        pose proof (Hrows l ltac:(lia)) as E. now apply zlookup_Some in E.
    + intros l Hl. apply zlookup_Some. split; [lia|].
      rewrite list_lookup_insert_ne by lia.
      pose proof (Hrest l ltac:(lia)) as E. now apply zlookup_Some in E.
    + intros j. now rewrite stores_app, stores_lanes_load, Hst.
    + intros Hok0. apply Forall_app. split; [|now apply Hok].
      apply accesses_ok_lanes. intros q Hq. simpl. lia.
    + intros j Hj. rewrite elem_of_app. intros [E|E]; [|now apply Hno in E].
      revert E. now apply lanes_trace_not_elem.
  - exists ia, s'. split; [exact E|]. repeat split; auto.
Qed.

(** A vector load from a row whose elements are those of the signal from
    sample [l] on. *)
Lemma row_loadu_ps_Done w (row : list (option F)) l p s :
  (forall q : nat, (q < w)%nat ->
     zlookup row (p + Z.of_nat q) = Some (Some (rd0 in_ (l + p + Z.of_nat q)))) ->
  row_loadu_ps w row p s = Done (lanes in_ (l + p) w) s.
Proof.
  revert p. induction w as [|w IH]; intros p Hrow; simpl; [reflexivity|].
  unfold local_load at 1.
  pose proof (Hrow O ltac:(lia)) as E0. rewrite !Z.add_0_r in E0. rewrite E0.
  unfold bind at 1, ret at 1.
  assert (Hrow' : forall q : nat, (q < w)%nat ->
            zlookup row (p + 1 + Z.of_nat q) =
              Some (Some (rd0 in_ (l + (p + 1) + Z.of_nat q)))).
  { intros q Hq. pose proof (Hrow (S q) ltac:(lia)) as E.
    replace (p + 1 + Z.of_nat q) with (p + Z.of_nat (S q)) by lia.
    replace (l + (p + 1) + Z.of_nat q) with (l + p + Z.of_nat (S q)) by lia.
    exact E. }
  rewrite (bind_Done _ _ _ _ _ (IH (p + 1) Hrow')).
  unfold ret. do 3 f_equal. lia.
Qed.

End Copies.

(** ** The routines of the AVX family where their blocks fit *)

Section SignalReads.
Context {F : Type} `{Arith F}.
Variables (in_ : list F) (N : Z).
Hypothesis HN : N = Z.of_nat (length in_).

Lemma loadu_in_reads l p s :
  0 <= l < 4 -> 0 <= p -> l + p + 8 <= N ->
  exists s',
    mm_loadu_ps 8 BufIn in_ (l + p) s = Done (lanes in_ (l + p) 8) s' /\
    out s' = out s /\
    (forall j, stores j (trace s') = stores j (trace s)) /\
    (accesses_ok N 16 (trace s) -> accesses_ok N 16 (trace s')).
Proof.
  intros Hl Hp Hfit.
  rewrite (mm_loadu_ps_Done 8 BufIn in_ (l + p) s) by lia.
  eexists. split; [reflexivity|]. cbn [out trace].
  split; [reflexivity|split].
  - intros j. now rewrite stores_app, stores_lanes_load.
  - intros Hok. apply Forall_app. split; [|exact Hok].
    apply accesses_ok_lanes. intros q Hq. simpl. simpl in Hq. lia.
Qed.

Lemma load_in_reads p s :
  0 <= p < N ->
  exists s',
    load BufIn in_ p s = Done (rd0 in_ p) s' /\
    out s' = out s /\
    (forall j, stores j (trace s') = stores j (trace s)) /\
    (accesses_ok N 16 (trace s) -> accesses_ok N 16 (trace s')).
Proof.
  intros Hp. destruct (zlookup_lt in_ p) as [x Ex]; [lia|].
  rewrite (load_Done BufIn in_ p x s Ex), (rd0_Some _ _ _ Ex).
  eexists. split; [reflexivity|]. cbn [out trace].
  split; [reflexivity|split; [reflexivity|]].
  intros Hok. constructor; [simpl; lia|exact Hok].
Qed.

Section ThroughCopies.
Variable ia : list (list (option F)).
Hypothesis Hia : forall l, 0 <= l < 4 ->
  zlookup ia l = Some (shifted_row in_ N l).

Lemma loadu_copy_reads l p s :
  0 <= l < 4 -> 0 <= p -> l + p + 8 <= N ->
  exists s',
    (row <- row_of ia l ;; row_loadu_ps 8 row p) s =
      Done (lanes in_ (l + p) 8) s' /\
    out s' = out s /\
    (forall j, stores j (trace s') = stores j (trace s)) /\
    (accesses_ok N 16 (trace s) -> accesses_ok N 16 (trace s')).
Proof.
  intros Hl Hp Hfit. exists s. split; [|auto].
  unfold row_of. rewrite (Hia l Hl). unfold bind at 1, ret at 1.
  apply row_loadu_ps_Done. intros q Hq.
  rewrite zlookup_shifted_row_lt by lia. do 3 f_equal. lia.
Qed.

Lemma load_copy_reads p s :
  0 <= p < N ->
  exists s',
    (row <- row_of ia 0 ;; local_load BufInAligned row p) s =
      Done (rd0 in_ p) s' /\
    out s' = out s /\
    (forall j, stores j (trace s') = stores j (trace s)) /\
    (accesses_ok N 16 (trace s) -> accesses_ok N 16 (trace s')).
Proof.
  intros Hp. exists s. split; [|auto].
  unfold row_of. rewrite (Hia 0) by lia. unfold bind at 1, ret at 1.
  unfold local_load. now rewrite zlookup_shifted_row_lt by lia.
Qed.

End ThroughCopies.

End SignalReads.

Section AvxRoutines.
Context {F : Type} `{Arith F}.
Variables (in_ kernel : list F) (N : Z).
Hypothesis HN : N = Z.of_nat (length in_).
Hypothesis HK : 16 = Z.of_nat (length kernel).
Hypothesis HKN : 16 <= N.

(** The main loop and the last value of the routines that do not fuse. *)
Lemma avx_family_main_unfused loadu rd (out0 : list F) kr s :
  (forall l p s, 0 <= l < 4 -> 0 <= p -> l + p + 8 <= N ->
     exists s', loadu l p s = Done (lanes in_ (l + p) 8) s' /\ out s' = out s /\
       (forall j, stores j (trace s') = stores j (trace s)) /\
       (accesses_ok N 16 (trace s) -> accesses_ok N 16 (trace s'))) ->
  (forall p s, 0 <= p < N ->
     exists s', rd p s = Done (rd0 in_ p) s' /\ out s' = out s /\
       (forall j, stores j (trace s') = stores j (trace s)) /\
       (accesses_ok N 16 (trace s) -> accesses_ok N 16 (trace s'))) ->
  (forall k, 0 <= k < 16 ->
     zlookup kr k = Some (Some (mm_set1_ps 8 (rd0 kernel (16 - k - 1))))) ->
  Z.of_nat (length out0) = N - 16 + 1 ->
  (N - 16) mod 16 = 0 \/ (N - 16) mod 16 = 15 ->
  out s = out0 -> (forall x, stores x (trace s) = O) ->
  accesses_ok N 16 (trace s) ->
  avx_family_post unfused in_ kernel N
    ((for_lt 0 (N - 16) 16 (fun i _ =>
        accs <- avx_block loadu kr i ;;
        mm_storeu_ps i (fst accs) ;;;
        mm_storeu_ps (i + AVX_SIMD_LENGTH) (snd accs)) tt ;;;
      last_value rd kernel (N - 16) 16 ;;;
      ret 0) s).
Proof.
  intros Hloadu Hrd Hkr Hout Hfit Hs Hst Hok.
  assert (E : (for_lt 0 (N - 16) 16 (fun i _ =>
                 accs <- avx_block loadu kr i ;;
                 mm_storeu_ps i (fst accs) ;;;
                 mm_storeu_ps (i + AVX_SIMD_LENGTH) (snd accs)) tt ;;;
               last_value rd kernel (N - 16) 16 ;;;
               ret 0) s =
              (for_lt 0 (N - 16) 16 (fun i _ =>
                 accs <- avx_block_fma unfused loadu kr i ;;
                 mm_storeu_ps i (fst accs) ;;;
                 mm_storeu_ps (i + AVX_SIMD_LENGTH) (snd accs)) tt ;;;
               last_value rd kernel (N - 16) 16 ;;;
               ret 0) s).
  { apply bind_ext; [|reflexivity].
    apply for_lt_ext; [lia|]. intros i [] s' _.
    apply bind_ext; [apply avx_block_unfused|reflexivity]. }
  rewrite E.
  apply (avx_family_main unfused in_ kernel N) with (out0 := out0); auto.
Qed.

Lemma kernel_loads_state (out0 : list F) :
  (forall x, stores x (trace (mkState out0
                 ((Load BufKernel <$> seqZ 0 16) ++ []))) = O) /\
  accesses_ok N 16 (trace (mkState out0 ((Load BufKernel <$> seqZ 0 16) ++ []))).
Proof.
  cbn [trace]. rewrite app_nil_r. split.
  - intros x. apply stores_loads.
  - apply accesses_ok_kernel_loads.
Qed.

Lemma convolve_avx_fma_post ffma (out0 : list F) (kernel_length : Z) :
  Z.of_nat (length out0) = N - 16 + 1 ->
  (N - 16) mod 16 = 0 \/ (N - 16) mod 16 = 15 ->
  avx_family_post ffma in_ kernel N
    (run (convolve_avx_unrolled_vector_unaligned_fma ffma in_ N kernel
            kernel_length) out0).
Proof.
  intros Hout Hfit. unfold run, convolve_avx_unrolled_vector_unaligned_fma.
  unfold KERNEL_LENGTH, VECTOR_LENGTH.
  destruct (reverse_kernel_Done kernel 16 HK 8 (mkState out0 []))
    as (kr & Ekr & Hkr).
  rewrite (bind_Done _ _ _ _ _ Ekr). cbn [out trace].
  destruct (kernel_loads_state out0) as [Hst Hok].
  apply (avx_family_main ffma in_ kernel N) with (out0 := out0); auto.
  - now apply loadu_in_reads.
  - now apply load_in_reads.
Qed.

Lemma convolve_avx_unaligned_family_post (out0 : list F) (kernel_length : Z) :
  Z.of_nat (length out0) = N - 16 + 1 ->
  (N - 16) mod 16 = 0 \/ (N - 16) mod 16 = 15 ->
  avx_family_post unfused in_ kernel N
    (run (convolve_avx_unrolled_vector_unaligned in_ N kernel kernel_length)
       out0).
Proof.
  intros Hout Hfit. unfold run, convolve_avx_unrolled_vector_unaligned.
  unfold KERNEL_LENGTH, VECTOR_LENGTH.
  destruct (reverse_kernel_Done kernel 16 HK 8 (mkState out0 []))
    as (kr & Ekr & Hkr).
  rewrite (bind_Done _ _ _ _ _ Ekr). cbn [out trace].
  destruct (kernel_loads_state out0) as [Hst Hok].
  apply avx_family_main_unfused with (out0 := out0); auto.
  - now apply loadu_in_reads.
  - now apply load_in_reads.
Qed.

Lemma convolve_avx_copies_post (out0 : list F) (kernel_length : Z) :
  Z.of_nat (length out0) = N - 16 + 1 ->
  (N - 16) mod 16 = 0 \/ (N - 16) mod 16 = 15 ->
  avx_family_post unfused in_ kernel N
    (run (convolve_avx_unrolled_vector in_ N kernel kernel_length) out0).
Proof.
  intros Hout Hfit. unfold run, convolve_avx_unrolled_vector.
  unfold KERNEL_LENGTH, VECTOR_LENGTH.
  destruct (reverse_kernel_Done kernel 16 HK 8 (mkState out0 []))
    as (kr & Ekr & Hkr).
  rewrite (bind_Done _ _ _ _ _ Ekr). cbn [out trace].
  destruct (kernel_loads_state out0) as [Hst Hok].
  destruct (shifted_copies_Done in_ N 16 HN (Z.to_nat AVX_SIMD_LENGTH)
              (mkState out0 ((Load BufKernel <$> seqZ 0 16) ++ [])))
    as (ia & s1 & Eia & Ho1 & Hst1 & Hok1 & _ & Hia);
    [unfold AVX_SIMD_LENGTH; lia|lia|].
  rewrite (bind_Done _ _ _ _ _ Eia).
  apply avx_family_main_unfused with (out0 := out0); auto.
  - now apply loadu_copy_reads.
  - now apply load_copy_reads.
Qed.

End AvxRoutines.

(** ** The routines of the AVX family where their blocks do not fit *)

Section AvxFaults.
Context {F : Type} `{Arith F}.
Variable ffma : F -> F -> F -> F.
Variable N : Z.
Variable loadu : Z -> Z -> M F (list F).
Hypothesis Hover : forall p s, N < p + 11 -> out_of (loadu 3 p s) = None.

(** A block that reaches past the signal faults, at the latest in its last
    load. *)
Lemma avx_block_fma_faults (kr : list (option (list F))) i s :
  N < i + 31 -> out_of (avx_block_fma ffma loadu kr i s) = None.
Proof.
  intros Hi.
  unfold avx_block_fma, KERNEL_LENGTH, VECTOR_LENGTH, SSE_SIMD_LENGTH,
    AVX_SIMD_LENGTH.
  apply (for_lt_faults 0 16 16 0); [lia|lia|]. intros a1 s1. cbv zeta.
  apply (for_lt_faults 0 4 1 3); [lia|lia|]. intros a2 s2.
  apply (for_lt_faults 0 16 4 3); [lia|lia|]. intros a3 s3.
  apply bind_faults_r. intros d1 s4 _.
  apply bind_faults_r. intros k1 s5 _. cbv zeta.
  apply bind_faults_l. apply Hover. lia.
Qed.

End AvxFaults.

(** The main loop runs a block that reaches past the signal unless [N - 16]
    is 0 or 15 modulo 16. *)
Lemma avx_main_faults {F A} (N : Z) (body : Z -> A -> M F A) :
  (forall i a s, N < i + 31 -> out_of (body i a s) = None) ->
  16 < N -> 1 <= (N - 16) mod 16 <= 14 ->
  forall a s, out_of (for_lt 0 (N - 16) 16 body a s) = None.
Proof.
  intros Hbody HN Hmod.
  pose proof (Z.div_mod (N - 16) 16 ltac:(lia)) as Hdm.
  assert (Hq : 0 <= (N - 16) / 16) by (apply Z.div_pos; lia).
  apply (for_lt_faults 0 (N - 16) 16 (Z.to_nat ((N - 16) / 16))); [lia|lia|].
  intros a s. apply Hbody. lia.
Qed.

Section LoadFaults.
Context {F : Type} `{Arith F}.
Variables (in_ : list F) (N : Z).

Lemma loadu_in_faults p s :
  N = Z.of_nat (length in_) -> N < p + 11 ->
  out_of (mm_loadu_ps 8 BufIn in_ (3 + p) s) = None.
Proof. intros HN Hp. apply mm_loadu_ps_faults; lia. Qed.

Lemma loadu_copy_faults (ia : list (list (option F))) p s :
  3 <= N -> zlookup ia 3 = Some (shifted_row in_ N 3) ->
  N < p + 11 ->
  out_of ((row <- row_of ia 3 ;; row_loadu_ps 8 row p) s) = None.
Proof.
  intros HN3 Hia Hp. unfold row_of. rewrite Hia. unfold bind at 1, ret at 1.
  apply (row_loadu_ps_faults 8 _ (N - 3)); [|lia|lia].
  intros q v Hq. apply zlookup_shifted_row_ge; lia.
Qed.

End LoadFaults.

Section AvxRoutinesFault.
Context {F : Type} `{Arith F}.
Variables (in_ kernel : list F) (N : Z).
Hypothesis HN : N = Z.of_nat (length in_).
Hypothesis HN16 : 16 < N.
Hypothesis Hmod : 1 <= (N - 16) mod 16 <= 14.

Lemma convolve_avx_unaligned_faults (out0 : list F) (kernel_length : Z) :
  out_of (run (convolve_avx_unrolled_vector_unaligned in_ N kernel
                 kernel_length) out0) = None.
Proof.
  unfold run, convolve_avx_unrolled_vector_unaligned,
    KERNEL_LENGTH, VECTOR_LENGTH.
  apply bind_faults_r. intros kr s1 _. apply bind_faults_l.
  apply avx_main_faults; auto. intros i [] s Hi.
  apply bind_faults_l. rewrite avx_block_unfused.
  apply (avx_block_fma_faults unfused N); [|exact Hi].
  intros p s' Hp. now apply (loadu_in_faults in_ N).
Qed.

Lemma convolve_avx_fma_faults ffma (out0 : list F) (kernel_length : Z) :
  out_of (run (convolve_avx_unrolled_vector_unaligned_fma ffma in_ N kernel
                 kernel_length) out0) = None.
Proof.
  unfold run, convolve_avx_unrolled_vector_unaligned_fma,
    KERNEL_LENGTH, VECTOR_LENGTH.
  apply bind_faults_r. intros kr s1 _. apply bind_faults_l.
  apply avx_main_faults; auto. intros i [] s Hi.
  apply bind_faults_l.
  apply (avx_block_fma_faults ffma N); [|exact Hi].
  intros p s' Hp. now apply (loadu_in_faults in_ N).
Qed.

Lemma convolve_avx_copies_faults (out0 : list F) (kernel_length : Z) :
  out_of (run (convolve_avx_unrolled_vector in_ N kernel kernel_length)
            out0) = None.
Proof.
  unfold run, convolve_avx_unrolled_vector, KERNEL_LENGTH, VECTOR_LENGTH.
  apply bind_faults_r. intros kr s1 _.
  destruct (shifted_copies_Done in_ N 16 HN (Z.to_nat AVX_SIMD_LENGTH) s1)
    as (ia & s2 & Eia & _ & _ & _ & _ & Hia);
    [unfold AVX_SIMD_LENGTH; lia|lia|].
  rewrite (bind_Done _ _ _ _ _ Eia). apply bind_faults_l.
  apply avx_main_faults; auto. intros i [] s Hi.
  apply bind_faults_l. rewrite avx_block_unfused.
  apply (avx_block_fma_faults unfused N); [|exact Hi].
  intros p s' Hp. apply (loadu_copy_faults in_ N); [lia|apply Hia; lia|exact Hp].
Qed.

End AvxRoutinesFault.

Lemma stateless_ret {F A} (a : A) : stateless (F := F) (ret a).
Proof. intros s a' s' E. now injection E as _ <-. Qed.

Lemma stateless_bind {F A B} (m : M F A) (k : A -> M F B) :
  stateless m -> (forall a, stateless (k a)) -> stateless (bind m k).
Proof.
  intros Hm Hk s b s' E. unfold bind in E.
  destruct (m s) as [a s1|] eqn:Em; [|discriminate].
  apply Hm in Em. subst s1. now apply Hk in E.
Qed.

Lemma stateless_for_lt {F A} (lo hi step : Z) (body : Z -> A -> M F A) a :
  (forall i a, stateless (body i a)) -> stateless (for_lt lo hi step body a).
Proof.
  intros Hbody. unfold for_lt. generalize (Z.to_nat (hi - lo)) as fuel.
  intros fuel. revert lo a. induction fuel as [|fuel IH]; intros lo a; simpl.
  - apply stateless_ret.
  - destruct (lo <? hi); [|apply stateless_ret].
    apply stateless_bind; [apply Hbody|]. intros a'. apply IH.
Qed.

Lemma stateless_local_load {F A} b (arr : list (option A)) i :
  stateless (F := F) (local_load b arr i).
Proof.
  unfold local_load. destruct (zlookup arr i) as [[v|]|];
    try (intros s a s' E; discriminate). apply stateless_ret.
Qed.

Lemma stateless_row_loadu_ps {F} `{Arith F} w (row : list (option F)) p :
  stateless (row_loadu_ps w row p).
Proof.
  revert p. induction w as [|w IH]; intros p; simpl; [apply stateless_ret|].
  apply stateless_bind; [apply stateless_local_load|]. intros x.
  apply stateless_bind; [apply IH|]. intros xs. apply stateless_ret.
Qed.

Lemma stateless_row_of {F} `{Arith F} (ia : list (list (option F))) l :
  stateless (row_of ia l).
Proof.
  unfold row_of. destruct (zlookup ia l); [apply stateless_ret|].
  intros s a s' E. discriminate.
Qed.

(** A block that reads the signal through the copies touches neither the
    caller's buffers nor the log. *)
Lemma stateless_avx_block {F} `{Arith F} (ia : list (list (option F))) kr i :
  stateless (avx_block (fun l p =>
               row <- row_of ia l ;; row_loadu_ps 8 row p) kr i).
Proof.
  unfold avx_block.
  apply stateless_for_lt. intros k a1. cbv zeta.
  apply stateless_for_lt. intros l a2.
  apply stateless_for_lt. intros m a3.
  apply stateless_bind.
  { apply stateless_bind; [apply stateless_row_of|].
    intros row. apply stateless_row_loadu_ps. }
  intros d1. apply stateless_bind; [apply stateless_local_load|]. intros k1.
  apply stateless_bind.
  { apply stateless_bind; [apply stateless_row_of|].
    intros row. apply stateless_row_loadu_ps. }
  intros d2. apply stateless_bind; [apply stateless_local_load|]. intros k2.
  apply stateless_ret.
Qed.


Section LocalArrays.
Context {F : Type} `{Arith F}.

Lemma local_storeu_ps_Done b (arr : list (option F)) p (v : list F) s :
  0 <= p -> p + Z.of_nat (length v) <= Z.of_nat (length arr) ->
  local_storeu_ps b arr p v s = Done (store_lanes p (Some <$> v) arr) s.
Proof.
  revert p arr. induction v as [|x v IH]; intros p arr Hp Hv; simpl in *.
  - reflexivity.
  - unfold local_store. destruct (zlookup_lt arr p) as [v0 ->]; [lia|].
    unfold bind at 1, ret at 1. apply IH; rewrite ?length_insert; lia.
Qed.

Lemma local_loadu_ps_Done b (arr : list (option F)) (xs : list F) p s :
  (forall (q : nat) x, xs !! q = Some x ->
     zlookup arr (p + Z.of_nat q) = Some (Some x)) ->
  local_loadu_ps b (length xs) arr p s = Done xs s.
Proof.
  revert p. induction xs as [|x xs IH]; intros p Hxs; simpl; [reflexivity|].
  unfold local_load at 1.
  pose proof (Hxs O x eq_refl) as E0. rewrite Z.add_0_r in E0. rewrite E0.
  unfold bind at 1, ret at 1.
  rewrite (bind_Done _ _ _ _ _ (IH (p + 1) ltac:(
    intros q y Hq; pose proof (Hxs (S q) y Hq) as E;
    now replace (p + 1 + Z.of_nat q) with (p + Z.of_nat (S q)) by lia))).
  reflexivity.
Qed.

Lemma store_lanes_all (v o : list F) :
  length v = length o -> store_lanes 0 v o = v.
Proof.
  intros Hlen. apply list_eq. intros j.
  destruct (decide (j < length v)%nat) as [Hj|Hj].
  - replace j with (Z.to_nat 0 + j)%nat at 1 by lia.
    apply lookup_store_lanes_in; lia.
  - rewrite !lookup_ge_None_2; rewrite ?length_store_lanes; auto; lia.
Qed.


End LocalArrays.

(** ** [convolve_avx_unrolled_vector_local_output] *)

Section LocalOutputProof.
Context {F : Type} `{Arith F}.
Variables (in_ kernel : list F) (N : Z).
Hypothesis HN : N = Z.of_nat (length in_).
Hypothesis HK : 16 = Z.of_nat (length kernel).
Hypothesis HKN : 16 <= N.

Lemma length_avx_output :
  length (avx_output in_ kernel N) = Z.to_nat (N - 16 + 1).
Proof. unfold avx_output. now rewrite length_fmap, length_seq. Qed.

Lemma lookup_avx_output (q : nat) x :
  avx_output in_ kernel N !! q = Some x ->
  Z.of_nat q <= N - 16 /\
  x = if Z.of_nat q <? N - 16
      then fma_taps unfused in_ kernel (Z.of_nat q) avx_order
      else conv_sum in_ kernel 16 (N - 16) 16.
Proof.
  unfold avx_output. rewrite list_lookup_fmap. intros E.
  destruct (seq 0 (Z.to_nat (N - 16 + 1)) !! q) as [q'|] eqn:Eq;
    [|discriminate].
  apply lookup_seq in Eq as [-> Hq]. simpl in E. injection E as <-.
  split; [lia|reflexivity].
Qed.

(** One block of the main loop: sixteen more elements of [local_out]. *)
Lemma local_output_block_step (ia : list (list (option F))) kr (j : nat)
    (lo : list (option F)) s :
  (forall l, 0 <= l < 4 -> zlookup ia l = Some (shifted_row in_ N l)) ->
  (forall k, 0 <= k < 16 ->
     zlookup kr k = Some (Some (mm_set1_ps 8 (rd0 kernel (16 - k - 1))))) ->
  16 * Z.of_nat j + 15 <= N - 16 ->
  length lo = Z.to_nat (N - 16 + 1) ->
  (forall idx : nat, Z.of_nat idx < 16 * Z.of_nat j ->
     lo !! idx = Some (Some (fma_taps unfused in_ kernel (Z.of_nat idx)
                               avx_order))) ->
  exists lo',
    (accs <- avx_block (fun l p =>
                row <- row_of ia l ;; row_loadu_ps 8 row p)
              kr (0 + 16 * Z.of_nat j) ;;
     lo1 <- local_storeu_ps BufOut lo (0 + 16 * Z.of_nat j) (fst accs) ;;
     local_storeu_ps BufOut lo1 (0 + 16 * Z.of_nat j + AVX_SIMD_LENGTH)
       (snd accs)) s = Done lo' s /\
    length lo' = Z.to_nat (N - 16 + 1) /\
    (forall idx : nat, Z.of_nat idx < 16 * Z.of_nat (S j) ->
       lo' !! idx = Some (Some (fma_taps unfused in_ kernel (Z.of_nat idx)
                                  avx_order))).
Proof.
  intros Hia Hkr Hj Hlen Hval. set (i := 0 + 16 * Z.of_nat j).
  unfold AVX_SIMD_LENGTH.
  destruct (avx_block_fma_Done unfused in_ kernel N
              (fun l p => row <- row_of ia l ;; row_loadu_ps 8 row p)
              (loadu_copy_reads in_ N ia Hia) kr i s Hkr)
    as (s' & E & _); try (unfold i; lia).
  rewrite <- avx_block_unfused in E.
  assert (s' = s) by (eapply stateless_avx_block; exact E). subst s'.
  rewrite (bind_Done _ _ _ _ _ E). cbn [fst snd].
  rewrite (bind_Done _ _ _ _ _
             (local_storeu_ps_Done BufOut lo i
                (vfma unfused in_ kernel i avx_order) s
                ltac:(unfold i; lia)
                ltac:(rewrite length_vfma, Hlen; unfold i; lia))).
  rewrite local_storeu_ps_Done;
    rewrite ?length_store_lanes, ?length_vfma, ?Hlen; try (unfold i; lia).
  eexists. split; [reflexivity|].
  rewrite !length_store_lanes. split; [exact Hlen|].
  intros idx Hidx.
  destruct (Z.lt_ge_cases (Z.of_nat idx) i) as [Hold|Hnew].
  - rewrite !lookup_store_lanes_lt by lia. apply Hval. unfold i in Hold. lia.
  - destruct (Z.lt_ge_cases (Z.of_nat idx) (i + 8)) as [Hlo|Hhi].
    + rewrite lookup_store_lanes_lt by lia.
      replace idx with (Z.to_nat i + (idx - Z.to_nat i))%nat at 1 by lia.
      rewrite lookup_store_lanes_in;
        rewrite ?length_fmap, ?length_vfma, ?Hlen; try (unfold i in *; lia).
      rewrite list_lookup_fmap, lookup_vfma by lia. simpl.
      do 3 f_equal. lia.
    + replace idx with
        (Z.to_nat (i + 8) + (idx - Z.to_nat (i + 8)))%nat at 1
        by (unfold i in *; lia).
      rewrite lookup_store_lanes_in;
        rewrite ?length_store_lanes, ?length_fmap, ?length_vfma, ?Hlen;
        try (unfold i in *; lia).
      rewrite list_lookup_fmap, lookup_vfma by (unfold i in *; lia). simpl.
      do 3 f_equal. unfold i in *. lia.
Qed.

(** The last value, accumulated in [local_out]. *)
Lemma local_output_last (ia : list (list (option F))) (lo : list (option F)) s :
  (forall l, 0 <= l < 4 -> zlookup ia l = Some (shifted_row in_ N l)) ->
  length lo = Z.to_nat (N - 16 + 1) ->
  exists s',
    for_lt 0 16 1 (fun k lo2 =>
       row <- row_of ia 0 ;;
       x <- local_load BufInAligned row (N - 16 + k) ;;
       c <- load BufKernel kernel (16 - k - 1) ;;
       o <- local_load BufOut lo2 (N - 16) ;;
       local_store BufOut lo2 (N - 16) (fadd o (fmul x c)))
      (<[Z.to_nat (N - 16) := Some fzero]> lo) s =
      Done (<[Z.to_nat (N - 16) :=
               Some (conv_sum in_ kernel 16 (N - 16) 16)]> lo) s' /\
    out s' = out s /\
    (forall j, stores j (trace s') = stores j (trace s)) /\
    (forall j, Load BufOut j ∉ trace s -> Load BufOut j ∉ trace s') /\
    (accesses_ok N 16 (trace s) -> accesses_ok N 16 (trace s')).
Proof.
  intros Hia Hlen.
  destruct (for_lt_rule
    (fun k (lo2 : list (option F)) s' =>
       lo2 = <[Z.to_nat (N - 16) :=
                 Some (conv_sum in_ kernel 16 (N - 16) (Z.to_nat k))]> lo /\
       out s' = out s /\
       (forall j, stores j (trace s') = stores j (trace s)) /\
       (forall j, Load BufOut j ∉ trace s -> Load BufOut j ∉ trace s') /\
       (accesses_ok N 16 (trace s) -> accesses_ok N 16 (trace s')))
    0 16
    (fun k lo2 =>
       row <- row_of ia 0 ;;
       x <- local_load BufInAligned row (N - 16 + k) ;;
       c <- load BufKernel kernel (16 - k - 1) ;;
       o <- local_load BufOut lo2 (N - 16) ;;
       local_store BufOut lo2 (N - 16) (fadd o (fmul x c)))
    (<[Z.to_nat (N - 16) := Some fzero]> lo) s)
    as (lo' & s' & E & -> & Ho & Hst & Hno & Hok); [lia| |..].
  - repeat split; auto.
  - intros k lo2 s' Hk (-> & Ho & Hst & Hno & Hok).
    unfold row_of. rewrite (Hia 0) by lia. unfold bind at 1, ret at 1.
    unfold local_load at 1. rewrite zlookup_shifted_row_lt by lia.
    unfold bind at 1, ret at 1.
    destruct (zlookup_lt kernel (16 - k - 1)) as [c Ec]; [lia|].
    rewrite (bind_Done _ _ _ _ _ (load_Done BufKernel kernel _ c s' Ec)).
    assert (Ecur : zlookup (<[Z.to_nat (N - 16) :=
                     Some (conv_sum in_ kernel 16 (N - 16) (Z.to_nat k))]> lo)
                     (N - 16) =
                   Some (Some (conv_sum in_ kernel 16 (N - 16) (Z.to_nat k)))).
    { apply zlookup_Some. split; [lia|]. apply list_lookup_insert_eq. lia. }
    unfold local_load at 1. rewrite Ecur. unfold bind at 1, ret at 1.
    unfold local_store. rewrite Ecur.
    eexists _, _. split; [reflexivity|]. cbn [out trace].
    rewrite list_insert_insert_eq.
    replace (Z.to_nat (k + 1)) with (S (Z.to_nat k)) by lia. simpl conv_sum.
    rewrite Z2Nat.id by lia.
    replace (16 - 1 - k) with (16 - k - 1) by lia.
    rewrite (rd0_Some _ _ _ Ec), Z.add_0_l. repeat split; auto.
    + intros j Hj. rewrite not_elem_of_cons. split; [discriminate|auto].
    + intros Hok0. constructor; [simpl; lia|now apply Hok].
  - exists s'. split; [exact E|]. repeat split; auto.
Qed.

Lemma convolve_avx_local_output_post (out0 : list F) (kernel_length : Z) :
  Z.of_nat (length out0) = N - 16 + 1 ->
  (N - 16) mod 16 = 0 \/ (N - 16) mod 16 = 15 ->
  local_output_post in_ kernel N
    (run (convolve_avx_unrolled_vector_local_output in_ N kernel
            kernel_length) out0).
Proof.
  intros Hout Hfit. unfold run, convolve_avx_unrolled_vector_local_output.
  unfold KERNEL_LENGTH, VECTOR_LENGTH. cbv zeta.
  destruct (reverse_kernel_Done kernel 16 HK 8 (mkState out0 []))
    as (kr & Ekr & Hkr).
  rewrite (bind_Done _ _ _ _ _ Ekr). cbn [out trace].
  destruct (kernel_loads_state N out0) as [Hst0 Hok0].
  destruct (shifted_copies_Done in_ N 16 HN (Z.to_nat AVX_SIMD_LENGTH)
              (mkState out0 ((Load BufKernel <$> seqZ 0 16) ++ [])))
    as (ia & s1 & Eia & Ho1 & Hst1 & Hok1 & Hno1 & Hia);
    [unfold AVX_SIMD_LENGTH; lia|lia|].
  rewrite (bind_Done _ _ _ _ _ Eia).
  set (n := Z.to_nat ((N - 16 + 15) / 16)).
  assert (Hn : Z.of_nat n = (N - 16 + 15) / 16).
  { unfold n. rewrite Z2Nat.id; [reflexivity|]. apply Z.div_pos; lia. }
  assert (Hblocks : 16 * (Z.of_nat n - 1) < N - 16 <= 16 * Z.of_nat n /\
                    16 * Z.of_nat n <= N - 16 + 1).
  { rewrite Hn.
    pose proof (Z.div_mod (N - 16 + 15) 16 ltac:(lia)) as Hdm.
    pose proof (Z.mod_pos_bound (N - 16 + 15) 16 ltac:(lia)) as Hb.
    assert (Hm : (N - 16 + 15) mod 16 = 15 \/ (N - 16 + 15) mod 16 = 14).
    { replace (N - 16 + 15) with (N - 16 + 15 * 1) by lia.
      rewrite <- Zplus_mod_idemp_l.
      destruct Hfit as [-> | ->]; [left|right]; reflexivity. }
    lia. }
  destruct Hblocks as [Hlast Hcover].
  destruct (for_lt_step_rule
    (fun j (lo : list (option F)) s =>
       s = s1 /\ length lo = Z.to_nat (N - 16 + 1) /\
       forall idx : nat, Z.of_nat idx < 16 * Z.of_nat j ->
         lo !! idx = Some (Some (fma_taps unfused in_ kernel (Z.of_nat idx)
                                   avx_order)))
    0 (N - 16) 16 n
    (fun i lo =>
       accs <- avx_block (fun l p =>
                  row <- row_of ia l ;; row_loadu_ps 8 row p) kr i ;;
       lo1 <- local_storeu_ps BufOut lo i (fst accs) ;;
       local_storeu_ps BufOut lo1 (i + AVX_SIMD_LENGTH) (snd accs))
    (alloca (N - 16 + 1)) s1)
    as (lo2 & s2 & E2 & -> & Hlen2 & Hval2); [lia|lia| |..].
  - split; [reflexivity|]. split.
    + unfold alloca. apply length_replicate.
    + intros idx Hidx. lia.
  - intros j lo s Hj [-> [Hlen Hval]].
    destruct (local_output_block_step ia kr j lo s1 Hia Hkr ltac:(lia)
                Hlen Hval) as (lo' & E & Hlen' & Hval').
    exists lo', s1. split; [exact E|]. auto.
  - rewrite (bind_Done _ _ _ _ _ E2).
    unfold local_store at 1.
    destruct (zlookup_lt lo2 (N - 16)) as [v0 ->]; [lia|].
    unfold bind at 1, ret at 1.
    destruct (local_output_last ia lo2 s1 Hia Hlen2)
      as (s3 & E3 & Ho3 & Hst3 & Hno3 & Hok3).
    rewrite (bind_Done _ _ _ _ _ E3).
    unfold memcpy_to_out. destruct (Z.ltb_spec (N - 16 + 1) 0); [lia|].
    rewrite <- (length_avx_output).
    rewrite bind_assoc.
    erewrite bind_Done; cycle 1.
    { apply local_loadu_ps_Done. intros q x Hq.
      apply lookup_avx_output in Hq as [Hq ->].
      apply zlookup_Some. split; [lia|]. rewrite Z.add_0_l, Nat2Z.id.
      destruct (Z.ltb_spec (Z.of_nat q) (N - 16)).
      - rewrite list_lookup_insert_ne by lia. apply Hval2. lia.
      - replace q with (Z.to_nat (N - 16)) by lia.
        apply list_lookup_insert_eq. lia. }
    rewrite (bind_Done _ _ _ _ _
               (mm_storeu_ps_Done (avx_output in_ kernel N) 0 s3 ltac:(lia)
                  ltac:(rewrite length_avx_output, Ho3, Ho1; simpl; lia))).
    eexists. split; [reflexivity|]. cbn [out trace].
    split; [|split; [|split]].
    + apply store_lanes_all.
      rewrite length_avx_output, Ho3, Ho1. simpl. lia.
    + intros j. rewrite stores_app, stores_lanes_store, Hst3, Hst1, Hst0.
      rewrite length_avx_output.
      destruct (Z.leb_spec 0 j), (Z.leb_spec j (N - 16)),
        (Z.ltb_spec j (0 + Z.of_nat (Z.to_nat (N - 16 + 1)))); simpl; lia.
    + intros j. rewrite elem_of_app. intros [E|E].
      * revert E. now apply lanes_trace_not_elem.
      * revert E. apply Hno3, Hno1. cbn [trace]. rewrite app_nil_r.
        intros (x & E & _)%list_elem_of_fmap. discriminate.
    + apply Forall_app. split; [|now apply Hok3, Hok1].
      apply accesses_ok_lanes. rewrite length_avx_output.
      intros q Hq. simpl. lia.
Qed.

End LocalOutputProof.

Section MoreAvx.
Context {F : Type} `{Arith F}.

Lemma convolve_avx_local_output_faults (in_ kernel out0 : list F) N
    (kernel_length : Z) :
  N = Z.of_nat (length in_) -> 16 < N -> 1 <= (N - 16) mod 16 <= 14 ->
  out_of (run (convolve_avx_unrolled_vector_local_output in_ N kernel
                 kernel_length) out0) = None.
Proof.
  intros HN HN16 Hmod.
  unfold run, convolve_avx_unrolled_vector_local_output,
    KERNEL_LENGTH, VECTOR_LENGTH. cbv zeta.
  apply bind_faults_r. intros kr s1 _.
  destruct (shifted_copies_Done in_ N 16 HN (Z.to_nat AVX_SIMD_LENGTH) s1)
    as (ia & s2 & Eia & _ & _ & _ & _ & Hia);
    [unfold AVX_SIMD_LENGTH; lia|lia|].
  rewrite (bind_Done _ _ _ _ _ Eia). apply bind_faults_l.
  apply avx_main_faults; auto. intros i lo s Hi.
  apply bind_faults_l. rewrite avx_block_unfused.
  apply (avx_block_fma_faults unfused N); [|exact Hi].
  intros p s' Hp.
  apply (loadu_copy_faults in_ N); [lia|apply Hia; lia|exact Hp].
Qed.

(** The output described lane by lane is the list [avx_output]. *)
Lemma avx_family_post_out (in_ kernel : list F) N (r : result F Z) :
  16 <= N ->
  avx_family_post unfused in_ kernel N r ->
  out_of r = Some (avx_output in_ kernel N).
Proof.
  intros HN (s & -> & Hlen & Hval & Hlast & _). simpl. f_equal.
  apply list_eq. intros j.
  destruct (decide (Z.of_nat j <= N - 16)) as [Hj|Hj].
  - unfold avx_output. rewrite list_lookup_fmap, lookup_seq_lt by lia. simpl.
    destruct (Z.ltb_spec (Z.of_nat j) (N - 16)).
    + pose proof (Hval (Z.of_nat j) ltac:(lia)) as E.
      apply zlookup_Some in E as [_ E]. now rewrite Nat2Z.id in E.
    + assert (Ej : Z.of_nat j = N - 16) by lia.
      apply zlookup_Some in Hlast as [_ E]. rewrite <- Ej, Nat2Z.id in E.
      now rewrite E, Ej.
  - rewrite !lookup_ge_None_2; auto; [rewrite length_avx_output|]; lia.
Qed.

(** The three routines that do not fuse leave the same output buffer. *)
Lemma avx_family_same_output (in_ kernel out0 : list F) N k1 k2 k3 :
  N = Z.of_nat (length in_) -> 16 = Z.of_nat (length kernel) -> 16 <= N ->
  Z.of_nat (length out0) = N - 16 + 1 ->
  out_of (run (convolve_avx_unrolled_vector in_ N kernel k1) out0) =
    out_of (run (convolve_avx_unrolled_vector_unaligned in_ N kernel k2)
              out0) /\
  out_of (run (convolve_avx_unrolled_vector_local_output in_ N kernel k3)
            out0) =
    out_of (run (convolve_avx_unrolled_vector_unaligned in_ N kernel k2)
              out0).
Proof.
  intros HN HK HKN Hout.
  pose proof (Z.mod_pos_bound (N - 16) 16 ltac:(lia)) as Hb.
  destruct (decide ((N - 16) mod 16 = 0 \/ (N - 16) mod 16 = 15))
    as [Hfit|Hunfit].
  - rewrite (avx_family_post_out in_ kernel N _ HKN
               (convolve_avx_copies_post in_ kernel N HN HK HKN out0 k1
                  Hout Hfit)).
    rewrite (avx_family_post_out in_ kernel N _ HKN
               (convolve_avx_unaligned_family_post in_ kernel N HN HK HKN
                  out0 k2 Hout Hfit)).
    destruct (convolve_avx_local_output_post in_ kernel N HN HK HKN out0 k3
                Hout Hfit) as (s & E & Eo & _).
    rewrite E. simpl. rewrite Eo. split; reflexivity.
  - assert (Hmod : 1 <= (N - 16) mod 16 <= 14) by lia.
    assert (HN16 : 16 < N).
    { destruct (Z.eq_dec N 16) as [E16|]; [|lia].
      rewrite E16 in Hmod. change ((16 - 16) mod 16) with 0 in Hmod. lia. }
    rewrite convolve_avx_copies_faults, convolve_avx_unaligned_faults,
      convolve_avx_local_output_faults by auto.
    split; reflexivity.
Qed.

(** With the multiply-add that does not fuse, the FMA routine is the
    unaligned routine. *)
Lemma convolve_avx_fma_unfused (in_ kernel out0 : list F) N k1 k2 :
  run (convolve_avx_unrolled_vector_unaligned_fma unfused in_ N kernel k1)
      out0 =
    run (convolve_avx_unrolled_vector_unaligned in_ N kernel k2) out0.
Proof.
  unfold run, convolve_avx_unrolled_vector_unaligned_fma,
    convolve_avx_unrolled_vector_unaligned.
  apply bind_ext; [reflexivity|]. intros kr s1.
  apply bind_ext; [|reflexivity].
  apply for_lt_ext; [unfold VECTOR_LENGTH; lia|]. intros i [] s2 _.
  apply bind_ext; [|reflexivity]. symmetry. apply avx_block_unfused.
Qed.

(** The FMA routine and the routine with the local output ignore
    [kernel_length] and the kernel past its first 16 coefficients. *)
Lemma avx_more_kernels_prefix ffma (in_ out0 kernel1 kernel2 : list F)
    N k1 k2 :
  take 16 kernel1 = take 16 kernel2 ->
  run (convolve_avx_unrolled_vector_unaligned_fma ffma in_ N kernel1 k1)
      out0 =
    run (convolve_avx_unrolled_vector_unaligned_fma ffma in_ N kernel2 k2)
      out0 /\
  run (convolve_avx_unrolled_vector_local_output in_ N kernel1 k1) out0 =
    run (convolve_avx_unrolled_vector_local_output in_ N kernel2 k2) out0.
Proof.
  intros Hprefix.
  unfold run, convolve_avx_unrolled_vector_unaligned_fma,
    convolve_avx_unrolled_vector_local_output.
  split.
  - apply bind_ext; [now apply reverse_kernel_prefix|]. intros kr s1.
    apply bind_ext; [reflexivity|]. intros _ s2.
    apply bind_ext; [now apply last_value_prefix|]. reflexivity.
  - cbv zeta.
    apply bind_ext; [now apply reverse_kernel_prefix|]. intros kr s1.
    apply bind_ext; [reflexivity|]. intros ia s2.
    apply bind_ext; [reflexivity|]. intros lo s3.
    apply bind_ext; [reflexivity|]. intros lo1 s4.
    apply bind_ext; [|reflexivity].
    apply for_lt_ext; [lia|]. intros k lo2 s5 Hk.
    apply bind_ext; [reflexivity|]. intros row s6.
    apply bind_ext; [reflexivity|]. intros x s7.
    apply bind_ext; [|reflexivity].
    unfold KERNEL_LENGTH in *.
    now rewrite (load_kernel_prefix kernel1 kernel2 Hprefix) by lia.
Qed.




(** A signal shorter than the kernel: the last value is stored at a
    negative index. *)
Lemma last_value_negative (rd : Z -> M F F) (kernel : list F) i n s :
  i < 0 -> last_value rd kernel i n s = Fault (OutOfBounds BufOut i).
Proof.
  intros Hi. unfold last_value. apply bind_Fault. unfold store_out, zlookup.
  destruct (Z.ltb_spec i 0); [reflexivity|lia].
Qed.

Lemma sse_short_signal (in_ kernel out0 : list F) N K :
  K = Z.of_nat (length kernel) -> N < K ->
  run (convolve_sse_simple in_ N kernel K) out0 =
    Fault (OutOfBounds BufOut (N - K)) /\
  run (convolve_sse_partial_unroll in_ N kernel K) out0 =
    Fault (OutOfBounds BufOut (N - K)).
Proof.
  intros HK HNK. unfold run, convolve_sse_simple, convolve_sse_partial_unroll.
  destruct (reverse_kernel_Done kernel K HK 4 (mkState out0 []))
    as (kr & Ekr & _).
  rewrite !(bind_Done _ _ _ _ _ Ekr).
  split; (erewrite bind_Done by (apply for_lt_none; lia));
    apply bind_Fault, last_value_negative; lia.
Qed.

Lemma avx_short_signal ffma (in_ kernel out0 : list F) N k :
  16 = Z.of_nat (length kernel) -> N < 16 ->
  run (convolve_avx_unrolled_vector_unaligned in_ N kernel k) out0 =
    Fault (OutOfBounds BufOut (N - 16)) /\
  run (convolve_avx_unrolled_vector_unaligned_fma ffma in_ N kernel k) out0 =
    Fault (OutOfBounds BufOut (N - 16)) /\
  out_of (run (convolve_avx_unrolled_vector in_ N kernel k) out0) = None /\
  out_of (run (convolve_avx_unrolled_vector_local_output in_ N kernel k)
            out0) = None.
Proof.
  intros HK HN.
  unfold run, convolve_avx_unrolled_vector_unaligned,
    convolve_avx_unrolled_vector_unaligned_fma, convolve_avx_unrolled_vector,
    convolve_avx_unrolled_vector_local_output, KERNEL_LENGTH. cbv zeta.
  destruct (reverse_kernel_Done kernel 16 HK 8 (mkState out0 []))
    as (kr & Ekr & _).
  rewrite !(bind_Done _ _ _ _ _ Ekr).
  repeat split.
  - erewrite bind_Done by (apply for_lt_none; lia).
    apply bind_Fault, last_value_negative. lia.
  - erewrite bind_Done by (apply for_lt_none; lia).
    apply bind_Fault, last_value_negative. lia.
  - apply bind_faults_r. intros ia s1 _.
    erewrite bind_Done by (apply for_lt_none; lia).
    apply bind_faults_l. now rewrite last_value_negative by lia.
  - apply bind_faults_r. intros ia s1 _.
    erewrite bind_Done by (apply for_lt_none; lia).
    apply bind_faults_l. unfold local_store, zlookup.
    destruct (Z.ltb_spec (N - 16) 0); [reflexivity|lia].
Qed.

(** [convolve_sse_partial_unroll] on a valid call with a kernel of a
    multiple of four coefficients: the behaviour of [convolve_sse_simple]. *)
Lemma convolve_sse_partial_unroll_post (in_ kernel out0 : list F) N K :
  (forall x y : F, fmul x y = fmul y x) ->
  N = Z.of_nat (length in_) -> K = Z.of_nat (length kernel) -> 1 <= K <= N ->
  K mod 4 = 0 ->
  Z.of_nat (length out0) = N - K + 1 ->
  ((N - K) mod 4 = 0 \/ (N - K) mod 4 = 3 ->
   sse_simple_post in_ kernel N K
     (run (convolve_sse_partial_unroll in_ N kernel K) out0)) /\
  ((N - K) mod 4 = 1 \/ (N - K) mod 4 = 2 ->
   run (convolve_sse_partial_unroll in_ N kernel K) out0 =
     Fault (OutOfBounds BufIn N)).
Proof.
  intros fmul_comm HN HK HKN Hmod Hout.
  rewrite convolve_sse_partial_unroll_simple by exact Hmod. split.
  - intros Hfit. apply convolve_sse_simple_post; auto; lia.
  - intros Hfit. apply convolve_sse_simple_Fault; auto; lia.
Qed.

End MoreAvx.

(** ** Aligned loads *)

(** Two bodies that agree at the indices the loop visits make the same
    loop. *)
Lemma for_lt_ext_step {F A} (lo hi step : Z) (body1 body2 : Z -> A -> M F A) :
  0 < step ->
  (forall (j : nat) a s, lo + step * Z.of_nat j < hi ->
     body1 (lo + step * Z.of_nat j) a s = body2 (lo + step * Z.of_nat j) a s) ->
  forall a s, for_lt lo hi step body1 a s = for_lt lo hi step body2 a s.
Proof.
  intros Hstep Hbody. unfold for_lt.
  generalize (Z.to_nat (hi - lo)) as fuel. intros fuel.
  assert (Hgen : forall fuel (j : nat) a s,
            for_fuel fuel (fun i => i <? hi) step body1
              (lo + step * Z.of_nat j) a s =
            for_fuel fuel (fun i => i <? hi) step body2
              (lo + step * Z.of_nat j) a s).
  { clear fuel. induction fuel as [|fuel IH]; intros j a s; simpl;
      [reflexivity|].
    destruct (Z.ltb_spec (lo + step * Z.of_nat j) hi); [|reflexivity].
    apply bind_ext; [now apply Hbody|]. intros a' s'.
    replace (lo + step * Z.of_nat j + step)
      with (lo + step * Z.of_nat (S j)) by lia.
    apply IH. }
  intros a s. specialize (Hgen fuel O a s).
  now replace (lo + step * Z.of_nat 0) with lo in Hgen by lia.
Qed.

(** A loop in steps of [step] over [2n] steps is the loop in steps of
    [2 * step] whose body runs two of them. *)
Lemma for_lt_pair {F A} (n : nat) (lo step : Z) (body : Z -> A -> M F A) a s :
  0 < step ->
  for_lt lo (lo + 2 * step * Z.of_nat n) step body a s =
    for_lt lo (lo + 2 * step * Z.of_nat n) (2 * step)
      (fun m a => a' <- body m a ;; body (m + step) a') a s.
Proof.
  intros Hstep. revert lo a s. induction n as [|n IH]; intros lo a s.
  - now rewrite !for_lt_none by lia.
  - rewrite (for_lt_unfold lo _ step) by nia.
    rewrite (for_lt_unfold lo _ (2 * step)) by nia.
    rewrite bind_assoc. apply bind_ext; [reflexivity|]. intros a1 s1.
    rewrite (for_lt_unfold (lo + step) _ step) by nia.
    apply bind_ext; [reflexivity|]. intros a2 s2.
    replace (lo + step + step) with (lo + 2 * step) by lia.
    replace (lo + 2 * step * Z.of_nat (S n))
      with (lo + 2 * step + 2 * step * Z.of_nat n) by lia.
    apply IH.
Qed.

Lemma mod_0_add (a b c : Z) :
  0 < c -> a mod c = 0 -> b mod c = 0 -> (a + b) mod c = 0.
Proof.
  intros Hc Ha Hb. rewrite Z.add_mod by lia. rewrite Ha, Hb. simpl.
  apply Z.mod_0_l. lia.
Qed.

Lemma mod_0_mul_l (a b c : Z) : 0 < c -> b mod c = 0 -> (a * b) mod c = 0.
Proof.
  intros Hc Hb. rewrite Z.mul_mod by lia. rewrite Hb, Z.mul_0_r.
  apply Z.mod_0_l. lia.
Qed.

Lemma mod_0_mul_r (a c : Z) : 0 < c -> (c * a) mod c = 0.
Proof. intros Hc. rewrite Z.mul_comm. apply Z.mod_mul. lia. Qed.

Section AlignedLoads.
Context {F : Type} `{Arith F}.

Lemma row_loadu_ps_length w (row : list (option F)) p s v s' :
  row_loadu_ps w row p s = Done v s' -> length v = w.
Proof.
  revert p v s s'. induction w as [|w IH]; intros p v s s' E; simpl in E.
  - now injection E as <- _.
  - unfold bind in E.
    destruct (local_load BufInAligned row p s) as [x s1|]; [|discriminate].
    destruct (row_loadu_ps w row (p + 1) s1) as [xs s2|] eqn:E2;
      [|discriminate].
    injection E as <- _. simpl. f_equal. eapply IH, E2.
Qed.

(** Two loads of adjacent blocks are the load of both. *)
Lemma row_loadu_ps_app w1 w2 (row : list (option F)) p s :
  (a <- row_loadu_ps w1 row p ;;
   b <- row_loadu_ps w2 row (p + Z.of_nat w1) ;;
   ret (a ++ b)) s =
  row_loadu_ps (w1 + w2) row p s.
Proof.
  revert p s. induction w1 as [|w1 IH]; intros p s.
  - simpl. unfold bind at 1, ret at 1. rewrite Z.add_0_r.
    unfold bind. destruct (row_loadu_ps w2 row p s); reflexivity.
  - replace (p + Z.of_nat (S w1)) with (p + 1 + Z.of_nat w1) by lia.
    cbn [row_loadu_ps Nat.add]. specialize (IH (p + 1)).
    unfold bind, ret in *.
    destruct (local_load BufInAligned row p s) as [x s1|]; [|reflexivity].
    rewrite <- IH.
    destruct (row_loadu_ps w1 row (p + 1) s1) as [a s2|]; [|reflexivity].
    destruct (row_loadu_ps w2 row (p + 1 + Z.of_nat w1) s2); reflexivity.
Qed.

(** An aligned load at a multiple of the register width, in rows whose
    length is one, is the unaligned load. *)
Lemma mm_load_ps_aligned w (ia : list (list (option F))) N l p s :
  (0 < w)%nat -> N mod Z.of_nat w = 0 -> p mod Z.of_nat w = 0 ->
  mm_load_ps w ia N l p s = (row <- row_of ia l ;; row_loadu_ps w row p) s.
Proof.
  intros Hw HN Hp. unfold mm_load_ps.
  rewrite (mod_0_add (l * N) p);
    [reflexivity|lia|apply mod_0_mul_l; [lia|exact HN]|exact Hp].
Qed.

(** In rows whose length is not a multiple of the register width, the row
    after the first starts at an address that is not aligned. *)
Lemma mm_load_ps_faults w (ia : list (list (option F))) N p s :
  (0 < w)%nat -> N mod Z.of_nat w <> 0 -> p mod Z.of_nat w = 0 ->
  out_of (mm_load_ps w ia N 1 p s) = None.
Proof.
  intros Hw HN Hp. unfold mm_load_ps.
  rewrite Z.add_mod, Hp, Z.add_0_r, Z.mul_1_l, Z.mod_mod by lia.
  destruct (Z.eqb_spec (N mod Z.of_nat w) 0); [lia|reflexivity].
Qed.

(** The pair of aligned loads of four is the load of eight. *)
Lemma m128_load_aligned (ia : list (list (option F))) N l p s :
  N mod 4 = 0 -> p mod 4 = 0 ->
  (lower_data_block <- mm_load_ps 4 ia N l p ;;
   upper_data_block <- mm_load_ps 4 ia N l (p + SSE_SIMD_LENGTH) ;;
   let data_block := mm256_castps128_ps256 lower_data_block in
   ret (mm256_insertf128_ps data_block upper_data_block)) s =
  (row <- row_of ia l ;; row_loadu_ps 8 row p) s.
Proof.
  intros HN Hp. unfold SSE_SIMD_LENGTH.
  etransitivity.
  { apply bind_ext; [apply (mm_load_ps_aligned 4); auto; lia|].
    intros a s'. apply bind_ext; [|reflexivity].
    apply (mm_load_ps_aligned 4); auto; try lia.
    apply (mod_0_add p 4 4); auto; lia. }
  unfold row_of. destruct (zlookup ia l) as [row|]; [|reflexivity].
  pose proof (row_loadu_ps_app 4 4 row p s) as E.
  change (4 + 4)%nat with 8%nat in E. change (Z.of_nat 4) with 4 in E.
  unfold bind, ret in *. rewrite <- E.
  destruct (row_loadu_ps 4 row p s) as [a s1|] eqn:Ea; [|reflexivity].
  apply row_loadu_ps_length in Ea.
  destruct (row_loadu_ps 4 row (p + 4) s1) as [b s2|]; [|reflexivity].
  unfold mm256_insertf128_ps, mm256_castps128_ps256.
  now rewrite take_ge by lia.
Qed.

End AlignedLoads.

Lemma mod_of_mul (c q a : Z) : 0 < c -> a = c * q -> a mod c = 0.
Proof. intros Hc ->. now apply mod_0_mul_r. Qed.

(** ** [convolve_avx_unrolled_vector_m128_load] *)

Section M128Load.
Context {F : Type} `{Arith F}.

(** With rows of a multiple of four floats, every pair of aligned loads is
    at aligned addresses: the routine is [convolve_avx_unrolled_vector]. *)
Lemma convolve_avx_m128_load_copies (in_ kernel out0 : list F) N k1 k2 :
  N mod 4 = 0 ->
  run (convolve_avx_unrolled_vector_m128_load in_ N kernel k1) out0 =
    run (convolve_avx_unrolled_vector in_ N kernel k2) out0.
Proof.
  intros HN.
  unfold run, convolve_avx_unrolled_vector_m128_load,
    convolve_avx_unrolled_vector. cbv zeta.
  apply bind_ext; [reflexivity|]. intros kr s1.
  apply bind_ext; [reflexivity|]. intros ia s2.
  apply bind_ext; [|reflexivity].
  unfold VECTOR_LENGTH, KERNEL_LENGTH.
  apply for_lt_ext_step; [lia|]. intros j [] s3 _.
  apply bind_ext; [|reflexivity]. unfold avx_block.
  unfold VECTOR_LENGTH, KERNEL_LENGTH, SSE_SIMD_LENGTH, AVX_SIMD_LENGTH.
  apply for_lt_ext_step; [lia|]. intros jk a1 s4 Hjk. cbv zeta.
  apply for_lt_ext; [lia|]. intros l a2 s5 _.
  apply for_lt_ext_step; [lia|]. intros jm a3 s6 _.
  apply bind_ext.
  { apply m128_load_aligned; [exact HN|].
    apply (mod_of_mul 4 (4 * Z.of_nat j + 4 * Z.of_nat jk + Z.of_nat jm)); lia. }
  intros d1 s7. apply bind_ext; [reflexivity|]. intros c1 s8.
  apply bind_ext; [|reflexivity].
  apply m128_load_aligned; [exact HN|].
  apply (mod_of_mul 4 (4 * Z.of_nat j + 4 * Z.of_nat jk + Z.of_nat jm + 2));
    lia.
Qed.

(** With rows of another length the second row is not aligned, and the
    first block loads from it. *)
Lemma convolve_avx_m128_load_misaligned (in_ kernel out0 : list F) N k :
  N mod 4 <> 0 -> 16 < N ->
  out_of (run (convolve_avx_unrolled_vector_m128_load in_ N kernel k) out0) =
    None.
Proof.
  intros HN HN16.
  unfold run, convolve_avx_unrolled_vector_m128_load. cbv zeta.
  apply bind_faults_r. intros kr s1 _.
  apply bind_faults_r. intros ia s2 _. apply bind_faults_l.
  unfold VECTOR_LENGTH, KERNEL_LENGTH.
  apply (for_lt_faults 0 (N - 16) 16 0); [lia|lia|]. intros [] s3.
  apply bind_faults_l. unfold avx_block.
  unfold VECTOR_LENGTH, KERNEL_LENGTH, SSE_SIMD_LENGTH, AVX_SIMD_LENGTH.
  apply (for_lt_faults 0 16 16 0); [lia|lia|]. intros a1 s4. cbv zeta.
  apply (for_lt_faults 0 4 1 1); [lia|lia|]. intros a2 s5.
  apply (for_lt_faults 0 16 4 0); [lia|lia|]. intros a3 s6.
  apply bind_faults_l, bind_faults_l.
  change (0 + 1 * Z.of_nat 1) with 1.
  apply (mm_load_ps_faults 4); [lia|exact HN|reflexivity].
Qed.

Lemma convolve_avx_m128_load_faults (in_ kernel out0 : list F) N k :
  N = Z.of_nat (length in_) -> 16 < N -> N mod 16 <> 0 ->
  out_of (run (convolve_avx_unrolled_vector_m128_load in_ N kernel k) out0) =
    None.
Proof.
  intros HN HN16 Hmod.
  destruct (Z.eq_dec (N mod 4) 0) as [H4|H4].
  - rewrite (convolve_avx_m128_load_copies in_ kernel out0 N k k H4).
    apply convolve_avx_copies_faults; auto.
    pose proof (Z.div_mod N 4 ltac:(lia)) as Hd4.
    pose proof (Z.div_mod N 16 ltac:(lia)) as Hd16.
    pose proof (Z.mod_pos_bound N 16 ltac:(lia)) as Hb.
    replace (N - 16) with (N + (-1) * 16) by lia. rewrite Z.mod_add by lia.
    lia.
  - now apply convolve_avx_m128_load_misaligned.
Qed.

End M128Load.

(** ** [convolve_avx_unrolled_vector_partial_aligned] *)

Section PartialAligned.
Context {F : Type} `{Arith F}.

Lemma reverse_kernel_block_Done (kernel : list F) (N : Z) s :
  16 = Z.of_nat (length kernel) ->
  exists kr s',
    reverse_kernel_block kernel (alloca KERNEL_LENGTH) s = Done kr s' /\
    (forall k, 0 <= k < 16 ->
       zlookup kr k = Some (Some (mm_set1_ps 8 (rd0 kernel (16 - k - 1))))) /\
    out s' = out s /\
    (forall j, stores j (trace s') = stores j (trace s)) /\
    (accesses_ok N 16 (trace s) -> accesses_ok N 16 (trace s')).
Proof.
  intros HK. unfold reverse_kernel_block, KERNEL_LENGTH, AVX_SIMD_LENGTH.
  destruct (for_lt_rule
    (fun i (arrays : list (option F) * list (option (list F))) s' =>
       length (fst arrays) = 8%nat /\ length (snd arrays) = 16%nat /\
       (forall k, 0 <= k < i ->
          zlookup (snd arrays) k =
            Some (Some (mm_set1_ps 8 (rd0 kernel (16 - k - 1))))) /\
       out s' = out s /\
       (forall j, stores j (trace s') = stores j (trace s)) /\
       (accesses_ok N 16 (trace s) -> accesses_ok N 16 (trace s')))
    0 16
    (fun i arrays =>
       kernel_block <-
         for_lt 0 8 1 (fun j kernel_block =>
           c <- load BufKernel kernel (16 - i - 1) ;;
           local_store BufKernelReverse kernel_block j c) (fst arrays) ;;
       v <- local_loadu_ps BufKernelReverse 8 kernel_block 0 ;;
       kernel_reverse <- local_store BufKernelReverse (snd arrays) i v ;;
       ret (kernel_block, kernel_reverse))
    (alloca 8, alloca 16) s)
    as ([kb kr] & s' & E & _ & _ & Hkr & Ho & Hst & Hok); [lia| |..].
  - cbn [fst snd]. unfold alloca. rewrite !length_replicate.
    split; [reflexivity|]. split; [reflexivity|]. split; [intros k Hk; lia|].
    auto.
  - intros i [kb kr] s0 Hi (Hkb & Hlen & Hkr & Ho & Hst & Hok).
    cbn [fst snd] in *.
    destruct (zlookup_lt kernel (16 - i - 1)) as [c Ec]; [lia|].
    destruct (for_lt_rule
      (fun j (kb' : list (option F)) s' =>
         length kb' = 8%nat /\
         (forall q, 0 <= q < j -> zlookup kb' q = Some (Some c)) /\
         out s' = out s /\
         (forall x, stores x (trace s') = stores x (trace s)) /\
         (accesses_ok N 16 (trace s) -> accesses_ok N 16 (trace s')))
      0 8
      (fun j kernel_block =>
         c <- load BufKernel kernel (16 - i - 1) ;;
         local_store BufKernelReverse kernel_block j c) kb s0)
      as (kb' & s1 & E1 & Hkb' & Hall & Ho1 & Hst1 & Hok1); [lia| |..].
    + split; [exact Hkb|]. split; [intros q Hq; lia|]. auto.
    + intros j kb0 s1 Hj (Hkb0 & Hall & Ho1 & Hst1 & Hok1).
      rewrite (bind_Done _ _ _ _ _ (load_Done BufKernel kernel _ c s1 Ec)).
      unfold local_store. destruct (zlookup_lt kb0 j) as [v0 ->]; [lia|].
      eexists _, _. split; [reflexivity|]. cbn [out trace].
      rewrite length_insert. split; [exact Hkb0|]. split.
      * intros q Hq. apply zlookup_Some. split; [lia|].
        destruct (decide (q = j)) as [->|Hne].
        -- apply list_lookup_insert_eq. lia.
        -- rewrite list_lookup_insert_ne by lia.
           pose proof (Hall q ltac:(lia)) as Eq.
           now apply zlookup_Some in Eq.
      * split; [exact Ho1|]. split; [intros x; simpl; apply Hst1|].
        intros Hok0. constructor; [simpl; lia|now apply Hok1].
    + rewrite (bind_Done _ _ _ _ _ E1).
      rewrite (bind_Done _ _ _ _ _
                 (local_loadu_ps_Done BufKernelReverse kb' (mm_set1_ps 8 c) 0 s1
                    ltac:(intros q x Hq;
                          apply lookup_replicate in Hq as [-> Hq];
                          apply Hall; lia))).
      unfold local_store. destruct (zlookup_lt kr i) as [v0 ->]; [lia|].
      unfold bind at 1, ret at 1.
      eexists _, _. split; [reflexivity|]. cbn [fst snd].
      rewrite length_insert. split; [exact Hkb'|]. split; [exact Hlen|].
      split; [|auto].
      intros k Hk. apply zlookup_Some. split; [lia|].
      destruct (decide (k = i)) as [->|Hne].
      * rewrite list_lookup_insert_eq by lia.
        now rewrite (rd0_Some _ _ _ Ec).
      * rewrite list_lookup_insert_ne by lia.
        pose proof (Hkr k ltac:(lia)) as Eq. now apply zlookup_Some in Eq.
  - rewrite (bind_Done _ _ _ _ _ E). cbn [snd] in *.
    exists kr, s'. split; [reflexivity|]. auto.
Qed.

Lemma partial_aligned_rest N (kr : list (option (list F))) ia s :
  N mod 8 = 0 ->
  (for_lt 0 (N - KERNEL_LENGTH) VECTOR_LENGTH (fun i _ =>
    accs <-
      for_lt 0 KERNEL_LENGTH VECTOR_LENGTH (fun k accs =>
        let data_offset := i + k in
        for_lt 0 SSE_SIMD_LENGTH 1 (fun l accs =>
          for_lt 0 VECTOR_LENGTH AVX_SIMD_LENGTH (fun m accs =>
            data_block <-
              mm_load_ps 8 ia N l (data_offset + m) ;;
            krv <- local_load BufKernelReverse kr (k + l + m) ;;
            let prod := mm_mul_ps krv data_block in
            let acc0 := mm_add_ps (fst accs) prod in
            data_block <-
              mm_load_ps 8 ia N l
                (data_offset + m + AVX_SIMD_LENGTH) ;;
            krv <- local_load BufKernelReverse kr (k + l + m) ;;
            let prod := mm_mul_ps krv data_block in
            let acc1 := mm_add_ps (snd accs) prod in
            data_block <-
              (row <- row_of ia l ;;
               row_loadu_ps 8 row (data_offset + m + SSE_SIMD_LENGTH)) ;;
            krv <- local_load BufKernelReverse kr
                    (k + l + m + SSE_SIMD_LENGTH) ;;
            let prod := mm_mul_ps krv data_block in
            let acc0 := mm_add_ps acc0 prod in
            data_block <-
              (row <- row_of ia l ;;
               row_loadu_ps 8 row
                 (data_offset + m + SSE_SIMD_LENGTH + AVX_SIMD_LENGTH)) ;;
            krv <- local_load BufKernelReverse kr
                    (k + l + m + SSE_SIMD_LENGTH) ;;
            let prod := mm_mul_ps krv data_block in
            let acc1 := mm_add_ps acc1 prod in
            ret (acc0, acc1)) accs) accs)
        (mm_setzero_ps 8, mm_setzero_ps 8) ;;
    mm_storeu_ps i (fst accs) ;;;
    mm_storeu_ps (i + AVX_SIMD_LENGTH) (snd accs)) tt) s =
  (for_lt 0 (N - KERNEL_LENGTH) VECTOR_LENGTH (fun i _ =>
    accs <- avx_block (fun l p =>
                row <- row_of ia l ;; row_loadu_ps 8 row p)
              kr i ;;
    mm_storeu_ps i (fst accs) ;;;
    mm_storeu_ps (i + AVX_SIMD_LENGTH) (snd accs)) tt) s.
Proof.
  intros HN. unfold avx_block.
  unfold VECTOR_LENGTH, KERNEL_LENGTH, SSE_SIMD_LENGTH, AVX_SIMD_LENGTH.
  apply for_lt_ext_step; [lia|]. intros j [] s1 _.
  apply bind_ext; [|reflexivity].
  apply for_lt_ext_step; [lia|]. intros jk a1 s2 _. cbv zeta.
  apply for_lt_ext; [lia|]. intros l a2 s3 _.
  symmetry.
  etransitivity; [apply (for_lt_pair 2 0 4); lia|].
  change (0 + 2 * 4 * Z.of_nat 2) with 16. change (2 * 4) with 8.
  apply for_lt_ext_step; [lia|]. intros jm a3 s4 _.
  set (i := 0 + 16 * Z.of_nat j). set (k := 0 + 16 * Z.of_nat jk).
  set (m := 0 + 8 * Z.of_nat jm).
  rewrite !Z.add_assoc.
  rewrite bind_assoc. apply bind_ext.
  { symmetry. apply (mm_load_ps_aligned 8); [lia|exact HN|].
    apply (mod_of_mul 8 (2 * Z.of_nat j + 2 * Z.of_nat jk + Z.of_nat jm));
      unfold i, k, m; lia. }
  intros d1 s5. rewrite bind_assoc. apply bind_ext; [reflexivity|].
  intros c1 s6. rewrite bind_assoc. apply bind_ext.
  { symmetry. apply (mm_load_ps_aligned 8); [lia|exact HN|].
    apply (mod_of_mul 8 (2 * Z.of_nat j + 2 * Z.of_nat jk + Z.of_nat jm + 1));
      unfold i, k, m; lia. }
  intros d2 s7. rewrite bind_assoc. apply bind_ext; [reflexivity|].
  intros c2 s8. reflexivity.
Qed.

Lemma convolve_avx_partial_aligned_post (in_ kernel out0 : list F) N
    (kernel_length : Z) :
  N = Z.of_nat (length in_) -> 16 = Z.of_nat (length kernel) -> 16 <= N ->
  Z.of_nat (length out0) = N - 16 + 1 -> N mod 16 = 0 ->
  avx_family_post unfused in_ kernel N
    (run (convolve_avx_unrolled_vector_partial_aligned in_ N kernel
            kernel_length) out0).
Proof.
  intros HN HK HKN Hout Hmod.
  pose proof (Z.div_mod N 16 ltac:(lia)) as Hdm.
  unfold run, convolve_avx_unrolled_vector_partial_aligned. cbv zeta.
  destruct (reverse_kernel_block_Done kernel N (mkState out0 []) HK)
    as (kr & s1 & Ekr & Hkr & Ho1 & Hst1 & Hok1).
  rewrite (bind_Done _ _ _ _ _ Ekr).
  destruct (shifted_copies_Done in_ N 16 HN (Z.to_nat AVX_SIMD_LENGTH) s1)
    as (ia & s2 & Eia & Ho2 & Hst2 & Hok2 & _ & Hia);
    [unfold AVX_SIMD_LENGTH; lia|lia|].
  rewrite (bind_Done _ _ _ _ _ Eia).
  rewrite (bind_ext _ _ _ _ _
             (partial_aligned_rest N kr ia s2
                ltac:(apply (mod_of_mul 8 (2 * (N / 16))); lia))
             (fun _ _ => eq_refl)).
  unfold KERNEL_LENGTH, VECTOR_LENGTH.
  apply avx_family_main_unfused with (out0 := out0); auto.
  - now apply loadu_copy_reads.
  - now apply load_copy_reads.
  - replace (N - 16) with (N + (-1) * 16) by lia.
    rewrite Z.mod_add by lia. now left.
  - now rewrite Ho2, Ho1.
  - intros x. now rewrite Hst2, Hst1.
  - apply Hok2, Hok1. constructor.
Qed.

Lemma convolve_avx_partial_aligned_faults (in_ kernel out0 : list F) N
    (kernel_length : Z) :
  N = Z.of_nat (length in_) -> 16 < N -> N mod 16 <> 0 ->
  out_of (run (convolve_avx_unrolled_vector_partial_aligned in_ N kernel
                 kernel_length) out0) = None.
Proof.
  intros HN HN16 Hmod.
  unfold run, convolve_avx_unrolled_vector_partial_aligned. cbv zeta.
  apply bind_faults_r. intros kr s1 _.
  destruct (Z.eq_dec (N mod 8) 0) as [H8|H8].
  - destruct (shifted_copies_Done in_ N 16 HN (Z.to_nat AVX_SIMD_LENGTH) s1)
      as (ia & s2 & Eia & _ & _ & _ & _ & Hia);
      [unfold AVX_SIMD_LENGTH; lia|lia|].
    rewrite (bind_Done _ _ _ _ _ Eia). apply bind_faults_l.
    pose proof (partial_aligned_rest N kr ia s2 H8) as E.
    cbv zeta in E. rewrite E. clear E.
    unfold KERNEL_LENGTH, VECTOR_LENGTH.
    apply avx_main_faults; auto.
    + intros i [] s Hi.
      apply bind_faults_l. rewrite avx_block_unfused.
      apply (avx_block_fma_faults unfused N); [|exact Hi].
      intros p s' Hp.
      apply (loadu_copy_faults in_ N); [lia|apply Hia; lia|exact Hp].
    + pose proof (Z.div_mod N 8 ltac:(lia)) as Hd8.
      pose proof (Z.div_mod N 16 ltac:(lia)) as Hd16.
      pose proof (Z.mod_pos_bound N 16 ltac:(lia)) as Hb.
      replace (N - 16) with (N + (-1) * 16) by lia. rewrite Z.mod_add by lia.
      lia.
  - apply bind_faults_r. intros ia s2 _. apply bind_faults_l.
    unfold VECTOR_LENGTH, KERNEL_LENGTH, SSE_SIMD_LENGTH, AVX_SIMD_LENGTH.
    apply (for_lt_faults 0 (N - 16) 16 0); [lia|lia|]. intros [] s3.
    apply bind_faults_l.
    apply (for_lt_faults 0 16 16 0); [lia|lia|]. intros a1 s4. cbv zeta.
    apply (for_lt_faults 0 4 1 1); [lia|lia|]. intros a2 s5.
    apply (for_lt_faults 0 16 8 0); [lia|lia|]. intros a3 s6.
    apply bind_faults_l.
    change (0 + 1 * Z.of_nat 1) with 1.
    apply (mm_load_ps_faults 8); [lia|exact H8|reflexivity].
Qed.

End PartialAligned.

(** ** Blocks that fit exactly *)

Section VectorMain.
Context {F : Type} `{Arith F}.
Variables (in_ kernel : list F) (N K : Z) (B : nat) (val : Z -> F).
Variable body : Z -> unit -> M F unit.
Hypothesis Hbody : forall (j : nat) s,
  Z.of_nat B * Z.of_nat j + Z.of_nat B <= N - K ->
  body (0 + Z.of_nat B * Z.of_nat j) tt s =
    mm_storeu_ps (Z.of_nat B * Z.of_nat j)
      ((fun q : nat => val (Z.of_nat B * Z.of_nat j + Z.of_nat q))
         <$> seq 0 B) s.
Variable rd : Z -> M F F.
Hypothesis Hrd : forall p s, 0 <= p < N ->
  exists s', rd p s = Done (rd0 in_ p) s' /\ out s' = out s /\
    (forall j, stores j (trace s') = stores j (trace s)) /\
    (accesses_ok N K (trace s) -> accesses_ok N K (trace s')).

(** The main loop in blocks of [B] outputs and the last value, from a
    state in which nothing was stored yet. *)
Lemma vector_main (out0 : list F) s :
  (0 < B)%nat -> 0 <= K <= N -> K <= Z.of_nat (length kernel) ->
  Z.of_nat (length out0) = N - K + 1 ->
  (N - K) mod Z.of_nat B = 0 ->
  out s = out0 -> (forall x, stores x (trace s) = O) ->
  accesses_ok N K (trace s) ->
  aligned_post in_ kernel N K val
    ((for_lt 0 (N - K) (Z.of_nat B) body tt ;;;
      last_value rd kernel (N - K) K ;;;
      ret 0) s).
Proof.
  intros HB HKN Hker Hout Hfit Hs Hst0 Hok0.
  set (b := Z.of_nat B) in *.
  pose proof (Z.div_mod (N - K) b ltac:(lia)) as Hdm. rewrite Hfit in Hdm.
  assert (Hq : 0 <= (N - K) / b) by (apply Z.div_pos; lia).
  set (n := Z.to_nat ((N - K) / b)).
  assert (Hn : b * Z.of_nat n = N - K) by (unfold n; lia).
  destruct (for_lt_step_rule
    (fun j (_ : unit) s' =>
       length (out s') = length out0 /\
       (forall idx : nat, Z.of_nat idx < b * Z.of_nat j ->
          out s' !! idx = Some (val (Z.of_nat idx))) /\
       (forall x, stores x (trace s') =
                  if (0 <=? x) && (x <? b * Z.of_nat j) then 1%nat else O) /\
       accesses_ok N K (trace s'))
    0 (N - K) b n body tt s)
    as ([] & s2 & E2 & Hlen2 & Hval2 & Hst2 & Hok2); [lia|nia| |..].
  - rewrite Hs. split; [reflexivity|]. split; [intros idx Hidx; lia|].
    split; [|exact Hok0].
    intros x. rewrite Hst0.
    destruct (Z.leb_spec 0 x), (Z.ltb_spec x (b * Z.of_nat 0)); simpl; lia.
  - intros j [] s0 Hj (Hlen & Hval & Hst & Hok).
    assert (Hjn : b * Z.of_nat j + b <= N - K) by nia.
    rewrite (Hbody j s0 Hjn).
    rewrite mm_storeu_ps_Done;
      [|lia|rewrite length_fmap, length_seq, Hlen; lia].
    eexists tt, _. split; [reflexivity|]. cbn [out trace].
    rewrite length_store_lanes, length_fmap, length_seq.
    split; [exact Hlen|]. split; [|split].
    + intros idx Hidx.
      destruct (Z.lt_ge_cases (Z.of_nat idx) (b * Z.of_nat j)) as [Hold|Hnew].
      * rewrite lookup_store_lanes_lt by lia. now apply Hval.
      * replace idx with
          (Z.to_nat (b * Z.of_nat j) + (idx - Z.to_nat (b * Z.of_nat j)))%nat
          at 1 by lia.
        rewrite lookup_store_lanes_in;
          rewrite ?length_fmap, ?length_seq; try lia.
        rewrite list_lookup_fmap, lookup_seq_lt by lia. simpl.
        do 2 f_equal. lia.
    + intros x. rewrite stores_app, stores_lanes_store, Hst.
      fold b.
      destruct (Z.leb_spec (b * Z.of_nat j) x),
        (Z.ltb_spec x (b * Z.of_nat j + b)),
        (Z.leb_spec 0 x), (Z.ltb_spec x (b * Z.of_nat j)),
        (Z.ltb_spec x (b * Z.of_nat (S j))); simpl; lia.
    + apply Forall_app. split; [|exact Hok].
      apply accesses_ok_lanes. intros q Hq'. simpl. fold b in Hq'. lia.
  - rewrite (bind_Done _ _ _ _ _ E2).
    destruct (last_value_reads in_ kernel N K rd Hrd (N - K) s2)
      as (s3 & E3 & Ho3 & Hst3 & Hok3); try lia.
    rewrite (bind_Done _ _ _ _ _ E3).
    eexists. split; [reflexivity|]. rewrite Ho3.
    rewrite length_insert. split; [lia|]. split; [|split; [|split]].
    + intros idx Hidx. apply zlookup_Some. split; [lia|].
      rewrite list_lookup_insert_ne by lia.
      rewrite Hval2 by lia. do 2 f_equal. lia.
    + apply zlookup_Some. split; [lia|].
      now rewrite list_lookup_insert_eq by lia.
    + intros x. rewrite Hst3, Hst2, Hn.
      destruct (Z.eqb_spec (N - K) x), (Z.eqb_spec x (N - K)),
        (Z.leb_spec 0 x), (Z.ltb_spec x (N - K)); simpl; lia.
    + apply Hok3; [lia|exact Hok2].
Qed.

End VectorMain.

Lemma mm_storeu_ps_app {F} (v1 v2 : list F) p s :
  mm_storeu_ps p (v1 ++ v2) s =
    (mm_storeu_ps p v1 ;;; mm_storeu_ps (p + Z.of_nat (length v1)) v2) s.
Proof.
  revert p s. induction v1 as [|x v1 IH]; intros p s.
  - simpl. now rewrite Z.add_0_r.
  - cbn [app mm_storeu_ps length]. rewrite bind_assoc.
    apply bind_ext; [reflexivity|]. intros [] s1. rewrite IH.
    now replace (p + 1 + Z.of_nat (length v1))
      with (p + Z.of_nat (S (length v1))) by lia.
Qed.

Section Registers.
Context {F : Type} `{Arith F}.
Variables (in_ kernel : list F) (N : Z).

Lemma length_vacc w x taps : length (vacc in_ kernel w x taps) = w.
Proof. unfold vacc. now rewrite length_fmap, length_seq. Qed.

Lemma vacc_S w x taps :
  vacc in_ kernel (S w) x taps =
    fma_taps unfused in_ kernel x taps :: vacc in_ kernel w (x + 1) taps.
Proof.
  unfold vacc. simpl. f_equal; [f_equal; lia|].
  rewrite <- fmap_S_seq, <- list_fmap_compose.
  apply list_fmap_ext. intros _ j _. simpl. f_equal. lia.
Qed.

Lemma vacc_app w1 w2 x taps :
  vacc in_ kernel w1 x taps ++ vacc in_ kernel w2 (x + Z.of_nat w1) taps =
    vacc in_ kernel (w1 + w2) x taps.
Proof.
  revert x. induction w1 as [|w1 IH]; intros x.
  - simpl. now rewrite Z.add_0_r.
  - cbn [Nat.add]. rewrite !vacc_S. simpl. f_equal. rewrite <- IH.
    do 2 f_equal. lia.
Qed.

(** One more tap in every lane of a register. *)
Lemma vacc_snoc w x taps t :
  mm_add_ps (vacc in_ kernel w x taps)
      (mm_mul_ps (mm_set1_ps w (rd0 kernel (16 - t - 1)))
                 (lanes in_ (x + t) w)) =
    vacc in_ kernel w x (taps ++ [t]).
Proof.
  revert x. induction w as [|w IH]; intros x; [reflexivity|].
  rewrite !vacc_S. cbn [mm_set1_ps replicate lanes mm_mul_ps mm_add_ps zip_with].
  f_equal.
  - unfold fma_taps. now rewrite foldl_app.
  - replace (x + t + 1) with (x + 1 + t) by lia. apply IH.
Qed.

(** An aligned load from a copy of the signal, in rows of a multiple of
    the register width. *)
Lemma aligned_load_reads w (ia : list (list (option F))) l p s :
  zlookup ia l = Some (shifted_row in_ N l) ->
  (0 < w)%nat -> N mod Z.of_nat w = 0 -> p mod Z.of_nat w = 0 ->
  0 <= l -> 0 <= p -> l + p + Z.of_nat w <= N ->
  mm_load_ps w ia N l p s = Done (lanes in_ (l + p) w) s.
Proof.
  intros Hia Hw HNw Hp Hl Hp0 Hfit.
  rewrite mm_load_ps_aligned by auto.
  unfold row_of. rewrite Hia. unfold bind at 1, ret at 1.
  apply row_loadu_ps_Done. intros q Hq.
  rewrite zlookup_shifted_row_lt by lia. do 3 f_equal. lia.
Qed.

End Registers.

Section RegisterStores.
Context {F : Type} `{Arith F}.
Variables (in_ kernel : list F) (N : Z).

Lemma store_registers2 (a0 a1 : list F) w i s :
  length a0 = w ->
  (mm_storeu_ps i a0 ;;; mm_storeu_ps (i + Z.of_nat w) a1) s =
    mm_storeu_ps i (a0 ++ a1) s.
Proof. intros <-. now rewrite mm_storeu_ps_app. Qed.

Lemma store_registers4 (a0 a1 a2 a3 : list F) i s :
  length a0 = 4%nat -> length a1 = 4%nat -> length a2 = 4%nat ->
  (mm_storeu_ps i a0 ;;; mm_storeu_ps (i + 4) a1 ;;;
   mm_storeu_ps (i + 4 * 2) a2 ;;; mm_storeu_ps (i + 4 * 3) a3) s =
    mm_storeu_ps i (a0 ++ a1 ++ a2 ++ a3) s.
Proof.
  intros H0 H1 H2.
  rewrite (mm_storeu_ps_app a0 (a1 ++ a2 ++ a3) i s), H0.
  apply bind_ext; [reflexivity|]. intros [] s1.
  change (Z.of_nat 4) with 4.
  rewrite (mm_storeu_ps_app a1 (a2 ++ a3) (i + 4) s1), H1.
  apply bind_ext; [reflexivity|]. intros [] s2.
  change (Z.of_nat 4) with 4.
  rewrite (mm_storeu_ps_app a2 a3 (i + 4 + 4) s2), H2.
  change (Z.of_nat 4) with 4.
  replace (i + 4 * 2) with (i + 4 + 4) by lia.
  now replace (i + 4 * 3) with (i + 4 + 4 + 4) by lia.
Qed.

Lemma vacc_split2 w x taps :
  vacc in_ kernel w x taps ++ vacc in_ kernel w (x + Z.of_nat w) taps =
    vacc in_ kernel (w + w) x taps.
Proof. apply vacc_app. Qed.

Lemma vacc_split4 x taps :
  vacc in_ kernel 4 x taps ++ vacc in_ kernel 4 (x + 4) taps ++
  vacc in_ kernel 4 (x + 8) taps ++ vacc in_ kernel 4 (x + 12) taps =
    vacc in_ kernel 16 x taps.
Proof.
  rewrite <- (vacc_app in_ kernel 4 12 x), <- (vacc_app in_ kernel 4 8 (x + 4)),
    <- (vacc_app in_ kernel 4 4 (x + 4 + 4)).
  do 3 f_equal; [f_equal; lia|f_equal; lia].
Qed.

(** With aligned rows the blocks fit exactly: the output of the AVX
    family in the terms of [aligned_post]. *)
Lemma aligned_post_family (r : result F Z) :
  16 <= N -> N mod 16 = 0 ->
  aligned_post in_ kernel N 16
    (fun x => fma_taps unfused in_ kernel x avx_order) r ->
  avx_family_post unfused in_ kernel N r.
Proof.
  intros HN Hmod (s & -> & Hlen & Hval & Hlast & Hst & Hok).
  exists s. split; [reflexivity|]. split; [exact Hlen|].
  split; [exact Hval|]. split; [exact Hlast|]. split; [|exact Hok].
  intros j. rewrite Hst.
  pose proof (Z.div_mod N 16 ltac:(lia)) as Hdm.
  replace (N - 16 + 15) with (15 + (N / 16 - 1) * 16) by lia.
  rewrite Z.div_add by lia. change (15 / 16) with 0.
  destruct (Z.leb_spec 0 j), (Z.ltb_spec j (N - 16)), (Z.eqb_spec j (N - 16)),
    (Z.ltb_spec j (16 * (0 + (N / 16 - 1)))); simpl; lia.
Qed.

(** An aligned load that reaches an element of the copy that was never
    written faults, at an aligned address or not. *)
Lemma aligned_load_faults w (ia : list (list (option F))) l p s :
  zlookup ia l = Some (shifted_row in_ N l) ->
  (0 < w)%nat -> 0 <= l <= N -> N - l < p + Z.of_nat w ->
  out_of (mm_load_ps w ia N l p s) = None.
Proof.
  intros Hia Hw Hl Hp. unfold mm_load_ps.
  destruct ((l * N + p) mod Z.of_nat w =? 0); [|reflexivity].
  unfold row_of. rewrite Hia. unfold bind at 1, ret at 1.
  apply (row_loadu_ps_faults w _ (N - l)); [|lia|lia].
  intros q v Hq. apply zlookup_shifted_row_ge; lia.
Qed.

End RegisterStores.

(** ** [convolve_sse_unrolled_vector] *)

Section SseVector.
Context {F : Type} `{Arith F}.
Variables (in_ kernel : list F) (N : Z).
Hypothesis HN4 : N mod 4 = 0.
Variable ia : list (list (option F)).
Hypothesis Hia : forall l, 0 <= l < 4 ->
  zlookup ia l = Some (shifted_row in_ N l).
Variable kr : list (option (list F)).
Hypothesis Hkr : forall k, 0 <= k < 16 ->
  zlookup kr k = Some (Some (mm_set1_ps 4 (rd0 kernel (16 - k - 1)))).

Lemma sse_vector_block_Done i s :
  0 <= i -> i mod 4 = 0 -> i + 16 <= N - 16 ->
  for_lt 0 16 16 (fun k accs =>
    let data_offset := i + k in
    for_lt 0 4 1 (fun l accs =>
      for_lt 0 16 4
        (fun m '(acc0, acc1, acc2, acc3) =>
          data_block <- mm_load_ps 4 ia N l (data_offset + m) ;;
          krv <- local_load BufKernelReverse kr (k + l + m) ;;
          let prod := mm_mul_ps krv data_block in
          let acc0 := mm_add_ps acc0 prod in
          data_block <- mm_load_ps 4 ia N l (data_offset + m + 4) ;;
          krv <- local_load BufKernelReverse kr (k + l + m) ;;
          let prod := mm_mul_ps krv data_block in
          let acc1 := mm_add_ps acc1 prod in
          data_block <- mm_load_ps 4 ia N l (data_offset + m + 4 * 2) ;;
          krv <- local_load BufKernelReverse kr (k + l + m) ;;
          let prod := mm_mul_ps krv data_block in
          let acc2 := mm_add_ps acc2 prod in
          data_block <- mm_load_ps 4 ia N l (data_offset + m + 4 * 3) ;;
          krv <- local_load BufKernelReverse kr (k + l + m) ;;
          let prod := mm_mul_ps krv data_block in
          let acc3 := mm_add_ps acc3 prod in
          ret (acc0, acc1, acc2, acc3)) accs) accs)
    (mm_setzero_ps 4, mm_setzero_ps 4, mm_setzero_ps 4, mm_setzero_ps 4) s =
  Done (vacc in_ kernel 4 i avx_order, vacc in_ kernel 4 (i + 4) avx_order,
        vacc in_ kernel 4 (i + 8) avx_order,
        vacc in_ kernel 4 (i + 12) avx_order) s.
Proof.
  intros Hi Hi4 Hfit.
  pose (I := fun (t : nat) (accs : list F * list F * list F * list F)
                 (s' : state F) =>
          accs = (vacc in_ kernel 4 i (take t avx_order),
                  vacc in_ kernel 4 (i + 4) (take t avx_order),
                  vacc in_ kernel 4 (i + 8) (take t avx_order),
                  vacc in_ kernel 4 (i + 12) (take t avx_order)) /\
          s' = s).
  match goal with
  | |- for_lt 0 16 16 ?body ?a s = _ =>
      destruct (for_lt_step_rule (fun j => I (16 * j)%nat) 0 16 16 1 body a s)
        as (accs & s' & E & -> & ->); [lia|lia| | |exact E]
  end.
  - split; reflexivity.
  - intros j accs0 s0 Hj HI. assert (j = O) by lia. subst j.
    change (I (16 * 0)%nat accs0 s0) with (I (4 * 0)%nat accs0 s0) in HI.
    change (16 * 1)%nat with (4 * 4)%nat.
    change (0 + 16 * Z.of_nat 0) with 0. cbv zeta.
    apply (for_lt_rule (fun l => I (4 * Z.to_nat l)%nat) 0 4); [lia|exact HI|].
    clear accs0 s0 HI. intros l accs0 s0 Hl HI.
    replace (4 * Z.to_nat (l + 1))%nat with (4 * Z.to_nat l + 4)%nat by lia.
    apply (for_lt_step_rule (fun mi => I (4 * Z.to_nat l + mi)%nat) 0 16 4 4);
      [lia|lia|now rewrite Nat.add_0_r|].
    clear accs0 s0 HI. intros mi accs0 s0 Hmi [-> ->].
    pose proof (avx_order_lookup (Z.to_nat l) mi ltac:(lia) Hmi) as Htap.
    rewrite Z2Nat.id in Htap by lia.
    set (tap := l + 4 * Z.of_nat mi) in *.
    pose proof (Z.div_mod i 4 ltac:(lia)) as Hdi.
    assert (Hload : forall p x s1,
              x = i \/ x = i + 4 \/ x = i + 8 \/ x = i + 12 ->
              p = x + 4 * Z.of_nat mi ->
              mm_load_ps 4 ia N l p s1 = Done (lanes in_ (x + tap) 4) s1).
    { intros p x s1 Hx ->.
      replace (x + tap) with (l + (x + 4 * Z.of_nat mi)) by (unfold tap; lia).
      apply (aligned_load_reads in_ N 4 ia); auto; try lia.
      apply (mod_of_mul 4 (x / 4 + Z.of_nat mi)); [lia|].
      pose proof (Z.div_mod x 4 ltac:(lia)) as Hdx.
      assert (Hx4 : x mod 4 = 0).
      { destruct Hx as [-> | [-> | [-> | ->]]]; auto;
          apply mod_0_add; auto; lia. }
      lia. }
    assert (Hk : local_load (F := F) BufKernelReverse kr
                   (0 + l + (0 + 4 * Z.of_nat mi)) =
                 ret (mm_set1_ps 4 (rd0 kernel (16 - tap - 1)))).
    { unfold local_load. rewrite Hkr by lia.
      now replace (0 + l + (0 + 4 * Z.of_nat mi)) with tap by (unfold tap; lia). }
    rewrite !Hk.
    erewrite bind_Done by (apply (Hload _ i); lia).
    unfold bind at 1, ret at 1.
    erewrite bind_Done by (apply (Hload _ (i + 4)); lia).
    unfold bind at 1, ret at 1.
    erewrite bind_Done by (apply (Hload _ (i + 8)); lia).
    unfold bind at 1, ret at 1.
    erewrite bind_Done by (apply (Hload _ (i + 12)); lia).
    unfold bind at 1, ret at 1.
    eexists _, _. split; [reflexivity|]. unfold I. split; [|reflexivity].
    replace (4 * Z.to_nat l + S mi)%nat with (S (4 * Z.to_nat l + mi)) by lia.
    rewrite (take_S_r _ _ _ Htap).
    now rewrite <- !vacc_snoc.
Qed.

End SseVector.

Section SseVectorRoutine.
Context {F : Type} `{Arith F}.
Variables (in_ kernel : list F) (N : Z).
Hypothesis HN : N = Z.of_nat (length in_).

Lemma convolve_sse_unrolled_vector_post (out0 : list F) (kernel_length : Z) :
  16 = Z.of_nat (length kernel) -> 16 <= N ->
  Z.of_nat (length out0) = N - 16 + 1 -> N mod 16 = 0 ->
  avx_family_post unfused in_ kernel N
    (run (convolve_sse_unrolled_vector in_ N kernel kernel_length) out0).
Proof.
  intros HK HKN Hout Hmod.
  pose proof (Z.div_mod N 16 ltac:(lia)) as Hdm.
  assert (HN4 : N mod 4 = 0) by (apply (mod_of_mul 4 (4 * (N / 16))); lia).
  unfold run, convolve_sse_unrolled_vector. cbv zeta.
  unfold KERNEL_LENGTH, VECTOR_LENGTH, SSE_SIMD_LENGTH.
  destruct (reverse_kernel_Done kernel 16 HK 4 (mkState out0 []))
    as (kr & Ekr & Hkr).
  rewrite (bind_Done _ _ _ _ _ Ekr). cbn [out trace].
  destruct (kernel_loads_state N out0) as [Hst Hok].
  destruct (shifted_copies_Done in_ N 16 HN (Z.to_nat 4)
              (mkState out0 ((Load BufKernel <$> seqZ 0 16) ++ [])))
    as (ia & s1 & Eia & Ho1 & Hst1 & Hok1 & _ & Hia); [lia|lia|].
  rewrite (bind_Done _ _ _ _ _ Eia).
  apply aligned_post_family; auto.
  apply (vector_main in_ kernel N 16 16
           (fun x => fma_taps unfused in_ kernel x avx_order))
    with (out0 := out0); auto; try lia.
  - intros j s Hj. change (Z.of_nat 16) with 16 in *.
    erewrite bind_Done
      by (apply (sse_vector_block_Done in_ kernel N HN4 ia Hia kr Hkr);
          [lia|apply (mod_of_mul 4 (4 * Z.of_nat j)); lia|lia]).
    cbv beta iota. rewrite Z.add_0_l.
    rewrite store_registers4 by apply length_vacc.
    replace (16 * Z.of_nat j + 4 + 4) with (16 * Z.of_nat j + 8) by lia.
    now rewrite vacc_split4.
  - now apply load_copy_reads.
  - change (Z.of_nat 16) with 16.
    replace (N - 16) with (N + (-1) * 16) by lia.
    now rewrite Z.mod_add by lia.
Qed.

End SseVectorRoutine.

Section SseVectorFaults.
Context {F : Type} `{Arith F}.
Variables (in_ kernel : list F) (N : Z).
Hypothesis HN : N = Z.of_nat (length in_).

Lemma convolve_sse_unrolled_vector_faults (out0 : list F) (kernel_length : Z) :
  16 < N -> N mod 16 <> 0 ->
  out_of (run (convolve_sse_unrolled_vector in_ N kernel kernel_length)
            out0) = None.
Proof.
  intros HN16 Hmod.
  unfold run, convolve_sse_unrolled_vector. cbv zeta.
  unfold KERNEL_LENGTH, VECTOR_LENGTH, SSE_SIMD_LENGTH.
  apply bind_faults_r. intros kr s1 _.
  destruct (Z.eq_dec (N mod 4) 0) as [H4|H4].
  - destruct (shifted_copies_Done in_ N 16 HN (Z.to_nat 4) s1)
      as (ia & s2 & Eia & _ & _ & _ & _ & Hia); [lia|lia|].
    rewrite (bind_Done _ _ _ _ _ Eia). apply bind_faults_l.
    pose proof (Z.div_mod N 4 ltac:(lia)) as Hd4.
    pose proof (Z.div_mod (N - 16) 16 ltac:(lia)) as Hdm.
    pose proof (Z.mod_pos_bound (N - 16) 16 ltac:(lia)) as Hb.
    assert (Hr : (N - 16) mod 16 = N mod 16).
    { replace (N - 16) with (N + (-1) * 16) by lia. apply Z.mod_add. lia. }
    assert (Hq : 0 <= (N - 16) / 16) by (apply Z.div_pos; lia).
    apply (for_lt_faults 0 (N - 16) 16 (Z.to_nat ((N - 16) / 16)));
      [lia|lia|].
    intros [] s3. apply bind_faults_l.
    apply (for_lt_faults 0 16 16 0); [lia|lia|]. intros a1 s4. cbv zeta.
    apply (for_lt_faults 0 4 1 3); [lia|lia|]. intros a2 s5.
    apply (for_lt_faults 0 16 4 3); [lia|lia|].
    intros [[[acc0 acc1] acc2] acc3] s6.
    apply bind_faults_r. intros d1 s7 _. apply bind_faults_r. intros k1 s8 _.
    apply bind_faults_r. intros d2 s9 _. apply bind_faults_r. intros k2 s10 _.
    apply bind_faults_r. intros d3 s11 _. apply bind_faults_r. intros k3 s12 _.
    apply bind_faults_l.
    apply (aligned_load_faults in_ N 4 ia); [apply Hia; lia|lia|lia|lia].
  - apply bind_faults_r. intros ia s2 _. apply bind_faults_l.
    apply (for_lt_faults 0 (N - 16) 16 0); [lia|lia|]. intros [] s3.
    apply bind_faults_l.
    apply (for_lt_faults 0 16 16 0); [lia|lia|]. intros a1 s4. cbv zeta.
    apply (for_lt_faults 0 4 1 1); [lia|lia|]. intros a2 s5.
    apply (for_lt_faults 0 16 4 0); [lia|lia|].
    intros [[[acc0 acc1] acc2] acc3] s6.
    apply bind_faults_l.
    change (0 + 1 * Z.of_nat 1) with 1.
    apply (mm_load_ps_faults 4); [lia|exact H4|reflexivity].
Qed.

End SseVectorFaults.

(** ** [convolve_sse_unrolled_avx_vector] *)

Lemma sse_avx_order_lookup (jk l : nat) :
  (jk < 2)%nat -> (l < 4)%nat ->
  sse_avx_order !! (8 * jk + 2 * l)%nat =
    Some (8 * Z.of_nat jk + Z.of_nat l) /\
  sse_avx_order !! (S (8 * jk + 2 * l))%nat =
    Some (8 * Z.of_nat jk + Z.of_nat l + 4).
Proof.
  intros Hjk Hl.
  destruct jk as [|[|jk]]; [| |lia];
    (destruct l as [|[|[|[|l]]]]; [| | | |lia]); split; reflexivity.
Qed.

Section SseAvx.
Context {F : Type} `{Arith F}.
Variables (in_ kernel : list F) (N : Z).
Hypothesis HN4 : N mod 4 = 0.
Variable ia : list (list (option F)).
Hypothesis Hia : forall l, 0 <= l < 4 ->
  zlookup ia l = Some (shifted_row in_ N l).
Variable kr : list (option (list F)).
Hypothesis Hkr : forall k, 0 <= k < 16 ->
  zlookup kr k = Some (Some (mm_set1_ps 4 (rd0 kernel (16 - k - 1)))).

Lemma sse_avx_block_Done i s :
  0 <= i -> i mod 4 = 0 -> i + 8 <= N - 16 ->
  for_lt 0 16 8 (fun k accs =>
    let data_offset := i + k in
    for_lt 0 4 1 (fun l accs =>
      data_block <- mm_load_ps 4 ia N l data_offset ;;
      krv <- local_load BufKernelReverse kr (k + l) ;;
      let prod := mm_mul_ps krv data_block in
      let acc0 := mm_add_ps (fst accs) prod in
      data_block <- mm_load_ps 4 ia N l (data_offset + 4) ;;
      krv <- local_load BufKernelReverse kr (k + l) ;;
      let prod := mm_mul_ps krv data_block in
      let acc1 := mm_add_ps (snd accs) prod in
      data_block <- mm_load_ps 4 ia N l (data_offset + 4) ;;
      krv <- local_load BufKernelReverse kr (k + l + 4) ;;
      let prod := mm_mul_ps krv data_block in
      let acc0 := mm_add_ps acc0 prod in
      data_block <- mm_load_ps 4 ia N l (data_offset + 8) ;;
      krv <- local_load BufKernelReverse kr (k + l + 4) ;;
      let prod := mm_mul_ps krv data_block in
      let acc1 := mm_add_ps acc1 prod in
      ret (acc0, acc1)) accs)
    (mm_setzero_ps 4, mm_setzero_ps 4) s =
  Done (vacc in_ kernel 4 i sse_avx_order,
        vacc in_ kernel 4 (i + 4) sse_avx_order) s.
Proof.
  intros Hi Hi4 Hfit.
  pose (I := fun (t : nat) (accs : list F * list F) (s' : state F) =>
          accs = (vacc in_ kernel 4 i (take t sse_avx_order),
                  vacc in_ kernel 4 (i + 4) (take t sse_avx_order)) /\
          s' = s).
  match goal with
  | |- for_lt 0 16 8 ?body ?a s = _ =>
      destruct (for_lt_step_rule (fun j => I (8 * j)%nat) 0 16 8 2 body a s)
        as (accs & s' & E & -> & ->); [lia|lia| | |exact E]
  end.
  - split; reflexivity.
  - intros jk accs0 s0 Hjk HI. cbv zeta.
    replace (8 * S jk)%nat with (8 * jk + 2 * Z.to_nat 4)%nat by lia.
    apply (for_lt_rule (fun l => I (8 * jk + 2 * Z.to_nat l)%nat) 0 4);
      [lia|now rewrite Nat.add_0_r in *|].
    clear accs0 s0 HI. intros l accs0 s0 Hl [-> ->].
    destruct (sse_avx_order_lookup jk (Z.to_nat l) Hjk ltac:(lia))
      as [Htap1 Htap2].
    rewrite Z2Nat.id in Htap1, Htap2 by lia.
    set (k := 0 + 8 * Z.of_nat jk) in *.
    set (tap := 8 * Z.of_nat jk + l) in *.
    pose proof (Z.div_mod i 4 ltac:(lia)) as Hdi.
    assert (Hload : forall p x t s1,
              x = i \/ x = i + 4 -> t = tap \/ t = tap + 4 ->
              p = x + t - l ->
              mm_load_ps 4 ia N l p s1 = Done (lanes in_ (x + t) 4) s1).
    { intros p x t s1 Hx Ht ->.
      replace (x + t) with (l + (x + t - l)) at 2 by lia.
      apply (aligned_load_reads in_ N 4 ia); auto; try (unfold tap in *; lia).
      apply (mod_of_mul 4 ((x + t - l) / 4)); [lia|].
      pose proof (Z.div_mod (x + t - l) 4 ltac:(lia)) as Hdx.
      assert (Hx4 : (x + t - l) mod 4 = 0).
      { apply (mod_of_mul 4 (i / 4 + (x - i) / 4 + 2 * Z.of_nat jk + (t - tap) / 4));
          [lia|].
        destruct Hx as [-> | ->], Ht as [-> | ->]; unfold tap;
          rewrite ?Z.sub_diag, ?Z.add_simpl_l;
          change (0 / 4) with 0; change (4 / 4) with 1; lia. }
      lia. }
    assert (Hk1 : local_load (F := F) BufKernelReverse kr (k + l) =
                  ret (mm_set1_ps 4 (rd0 kernel (16 - tap - 1)))).
    { unfold local_load. rewrite Hkr by (unfold k; lia).
      now replace (k + l) with tap by (unfold k, tap; lia). }
    assert (Hk2 : local_load (F := F) BufKernelReverse kr (k + l + 4) =
                  ret (mm_set1_ps 4 (rd0 kernel (16 - (tap + 4) - 1)))).
    { unfold local_load. rewrite Hkr by (unfold k; lia).
      now replace (k + l + 4) with (tap + 4) by (unfold k, tap; lia). }
    rewrite !Hk1, !Hk2.
    erewrite bind_Done by (apply (Hload _ i tap); unfold k, tap; lia).
    unfold bind at 1, ret at 1.
    erewrite bind_Done by (apply (Hload _ (i + 4) tap); unfold k, tap; lia).
    unfold bind at 1, ret at 1.
    erewrite bind_Done by (apply (Hload _ i (tap + 4)); unfold k, tap; lia).
    unfold bind at 1, ret at 1.
    erewrite bind_Done
      by (apply (Hload _ (i + 4) (tap + 4)); unfold k, tap; lia).
    unfold bind at 1, ret at 1.
    eexists _, _. split; [reflexivity|]. unfold I. split; [|reflexivity].
    replace (8 * jk + 2 * Z.to_nat (l + 1))%nat
      with (S (S (8 * jk + 2 * Z.to_nat l))) by lia.
    rewrite (take_S_r _ _ _ Htap2), (take_S_r _ _ _ Htap1).
    cbn [fst snd]. now rewrite <- !vacc_snoc.
Qed.

End SseAvx.

Section SseAvxRoutine.
Context {F : Type} `{Arith F}.
Variables (in_ kernel : list F) (N : Z).
Hypothesis HN : N = Z.of_nat (length in_).

Lemma convolve_sse_unrolled_avx_vector_post (out0 : list F)
    (kernel_length : Z) :
  16 = Z.of_nat (length kernel) -> 16 <= N ->
  Z.of_nat (length out0) = N - 16 + 1 -> N mod 8 = 0 ->
  aligned_post in_ kernel N 16
    (fun x => fma_taps unfused in_ kernel x sse_avx_order)
    (run (convolve_sse_unrolled_avx_vector in_ N kernel kernel_length) out0).
Proof.
  intros HK HKN Hout Hmod.
  pose proof (Z.div_mod N 8 ltac:(lia)) as Hdm.
  assert (HN4 : N mod 4 = 0) by (apply (mod_of_mul 4 (2 * (N / 8))); lia).
  unfold run, convolve_sse_unrolled_avx_vector. cbv zeta.
  unfold KERNEL_LENGTH, AVX_SIMD_LENGTH, SSE_SIMD_LENGTH.
  destruct (reverse_kernel_Done kernel 16 HK 4 (mkState out0 []))
    as (kr & Ekr & Hkr).
  rewrite (bind_Done _ _ _ _ _ Ekr). cbn [out trace].
  destruct (kernel_loads_state N out0) as [Hst Hok].
  destruct (shifted_copies_Done in_ N 16 HN (Z.to_nat 4)
              (mkState out0 ((Load BufKernel <$> seqZ 0 16) ++ [])))
    as (ia & s1 & Eia & Ho1 & Hst1 & Hok1 & _ & Hia); [lia|lia|].
  rewrite (bind_Done _ _ _ _ _ Eia).
  apply (vector_main in_ kernel N 16 8
           (fun x => fma_taps unfused in_ kernel x sse_avx_order))
    with (out0 := out0); auto; try lia.
  - intros j s Hj. change (Z.of_nat 8) with 8 in *.
    erewrite bind_Done
      by (apply (sse_avx_block_Done in_ kernel N HN4 ia Hia kr Hkr);
          [lia|apply (mod_of_mul 4 (2 * Z.of_nat j)); lia|lia]).
    cbn [fst snd]. rewrite Z.add_0_l.
    etransitivity; [apply (store_registers2 _ _ 4), length_vacc|].
    now rewrite vacc_app.
  - now apply load_copy_reads.
  - change (Z.of_nat 8) with 8.
    replace (N - 16) with (N + (-2) * 8) by lia.
    now rewrite Z.mod_add by lia.
Qed.

Lemma convolve_sse_unrolled_avx_vector_faults (out0 : list F)
    (kernel_length : Z) :
  16 < N -> N mod 8 <> 0 ->
  out_of (run (convolve_sse_unrolled_avx_vector in_ N kernel kernel_length)
            out0) = None.
Proof.
  intros HN16 Hmod.
  unfold run, convolve_sse_unrolled_avx_vector. cbv zeta.
  unfold KERNEL_LENGTH, AVX_SIMD_LENGTH, SSE_SIMD_LENGTH.
  apply bind_faults_r. intros kr s1 _.
  destruct (Z.eq_dec (N mod 4) 0) as [H4|H4].
  - destruct (shifted_copies_Done in_ N 16 HN (Z.to_nat 4) s1)
      as (ia & s2 & Eia & _ & _ & _ & _ & Hia); [lia|lia|].
    rewrite (bind_Done _ _ _ _ _ Eia). apply bind_faults_l.
    pose proof (Z.div_mod N 4 ltac:(lia)) as Hd4.
    pose proof (Z.div_mod (N - 16) 8 ltac:(lia)) as Hdm.
    pose proof (Z.mod_pos_bound (N - 16) 8 ltac:(lia)) as Hb.
    assert (Hr : (N - 16) mod 8 = N mod 8).
    { replace (N - 16) with (N + (-2) * 8) by lia. apply Z.mod_add. lia. }
    assert (Hq : 0 <= (N - 16) / 8) by (apply Z.div_pos; lia).
    apply (for_lt_faults 0 (N - 16) 8 (Z.to_nat ((N - 16) / 8)));
      [lia|lia|].
    intros [] s3. apply bind_faults_l.
    apply (for_lt_faults 0 16 8 1); [lia|lia|]. intros a1 s4. cbv zeta.
    apply (for_lt_faults 0 4 1 3); [lia|lia|]. intros a2 s5.
    apply bind_faults_r. intros d1 s7 _. apply bind_faults_r. intros k1 s8 _.
    apply bind_faults_r. intros d2 s9 _. apply bind_faults_r. intros k2 s10 _.
    apply bind_faults_r. intros d3 s11 _. apply bind_faults_r. intros k3 s12 _.
    apply bind_faults_l.
    apply (aligned_load_faults in_ N 4 ia); [apply Hia; lia|lia|lia|lia].
  - apply bind_faults_r. intros ia s2 _. apply bind_faults_l.
    apply (for_lt_faults 0 (N - 16) 8 0); [lia|lia|]. intros [] s3.
    apply bind_faults_l.
    apply (for_lt_faults 0 16 8 0); [lia|lia|]. intros a1 s4. cbv zeta.
    apply (for_lt_faults 0 4 1 1); [lia|lia|]. intros a2 s5.
    apply bind_faults_l.
    change (0 + 1 * Z.of_nat 1) with 1.
    apply (mm_load_ps_faults 4); [lia|exact H4|reflexivity].
Qed.

End SseAvxRoutine.

(** ** [convolve_avx_unrolled_vector_aligned] *)

Section EightCopies.
Context {F : Type} `{Arith F}.
Variables (in_ : list F) (N K : Z).
Hypothesis HN : N = Z.of_nat (length in_).

(** The eight shifted copies. *)
Lemma shifted_copies_avx_Done (R : nat) s :
  (8 <= R)%nat -> 7 <= N ->
  exists ia s',
    shifted_copies_avx in_ N (replicate R (alloca N)) s = Done ia s' /\
    out s' = out s /\
    (forall j, stores j (trace s') = stores j (trace s)) /\
    (accesses_ok N K (trace s) -> accesses_ok N K (trace s')) /\
    forall l, 0 <= l < 8 -> zlookup ia l = Some (shifted_row in_ N l).
Proof.
  intros HR HN7. unfold shifted_copies_avx, AVX_SIMD_LENGTH.
  destruct (for_lt_rule
    (fun i (ia : list (list (option F))) s' =>
       length ia = R /\
       (forall l, 0 <= l < i -> zlookup ia l = Some (shifted_row in_ N l)) /\
       (forall l, i <= l < Z.of_nat R -> zlookup ia l = Some (alloca N)) /\
       out s' = out s /\
       (forall j, stores j (trace s') = stores j (trace s)) /\
       (accesses_ok N K (trace s) -> accesses_ok N K (trace s')))
    0 8
    (fun i ia =>
       row <- row_of ia i ;;
       row <- memcpy_from_in row in_ i (N - i) ;;
       ret (<[Z.to_nat i := row]> ia))
    (replicate R (alloca N)) s)
    as (ia & s' & E & Hlen & Hrows & _ & Ho & Hst & Hok); [lia| |..].
  - rewrite length_replicate. split; [reflexivity|].
    split; [intros l Hl; lia|]. split; [|auto].
    intros l Hl. apply zlookup_Some. split; [lia|].
    apply lookup_replicate. split; [reflexivity|lia].
  - intros i ia s' Hi (Hlen & Hrows & Hrest & Ho & Hst & Hok).
    unfold row_of. rewrite (Hrest i) by lia.
    unfold bind at 1, ret at 1.
    rewrite (bind_Done _ _ _ _ _
               (memcpy_from_in_Done in_ N HN i s' ltac:(lia))).
    eexists _, _. split; [reflexivity|]. cbn [out trace].
    rewrite length_insert. split; [exact Hlen|]. split; [|split; [|split]].
    + intros l Hl. apply zlookup_Some. split; [lia|].
      destruct (decide (l = i)) as [->|Hne].
      * apply list_lookup_insert_eq. lia.
      * rewrite list_lookup_insert_ne by lia.
        pose proof (Hrows l ltac:(lia)) as E. now apply zlookup_Some in E.
    + intros l Hl. apply zlookup_Some. split; [lia|].
      rewrite list_lookup_insert_ne by lia.
      pose proof (Hrest l ltac:(lia)) as E. now apply zlookup_Some in E.
    + exact Ho.
    + split.
      * intros j. now rewrite stores_app, stores_lanes_load, Hst.
      * intros Hok0. apply Forall_app. split; [|now apply Hok].
        apply accesses_ok_lanes. intros q Hq. simpl. lia.
  - exists ia, s'. split; [exact E|]. auto.
Qed.

End EightCopies.

Lemma avx_aligned_order_lookup (l mi : nat) :
  (l < 8)%nat -> (mi < 2)%nat ->
  avx_aligned_order !! (2 * l + mi)%nat =
    Some (Z.of_nat l + 8 * Z.of_nat mi).
Proof.
  intros Hl Hmi.
  destruct mi as [|[|mi]]; [| |lia];
    (destruct l as [|[|[|[|[|[|[|[|l]]]]]]]]; [| | | | | | | |lia]);
    reflexivity.
Qed.

Section AvxAligned.
Context {F : Type} `{Arith F}.
Variables (in_ kernel : list F) (N : Z).
Hypothesis HN8 : N mod 8 = 0.
Variable ia : list (list (option F)).
Hypothesis Hia : forall l, 0 <= l < 8 ->
  zlookup ia l = Some (shifted_row in_ N l).
Variable kr : list (option (list F)).
Hypothesis Hkr : forall k, 0 <= k < 16 ->
  zlookup kr k = Some (Some (mm_set1_ps 8 (rd0 kernel (16 - k - 1)))).

Lemma avx_aligned_block_Done i s :
  0 <= i -> i mod 8 = 0 -> i + 16 <= N - 16 ->
  for_lt 0 16 16 (fun k accs =>
    let data_offset := i + k in
    for_lt 0 8 1 (fun l accs =>
      for_lt 0 16 8 (fun m accs =>
        data_block <- mm_load_ps 8 ia N l (data_offset + m) ;;
        krv <- local_load BufKernelReverse kr (k + l + m) ;;
        let prod := mm_mul_ps krv data_block in
        let acc0 := mm_add_ps (fst accs) prod in
        data_block <- mm_load_ps 8 ia N l (data_offset + m + 8) ;;
        krv <- local_load BufKernelReverse kr (k + l + m) ;;
        let prod := mm_mul_ps krv data_block in
        let acc1 := mm_add_ps (snd accs) prod in
        ret (acc0, acc1)) accs) accs)
    (mm_setzero_ps 8, mm_setzero_ps 8) s =
  Done (vacc in_ kernel 8 i avx_aligned_order,
        vacc in_ kernel 8 (i + 8) avx_aligned_order) s.
Proof.
  intros Hi Hi8 Hfit.
  pose (I := fun (t : nat) (accs : list F * list F) (s' : state F) =>
          accs = (vacc in_ kernel 8 i (take t avx_aligned_order),
                  vacc in_ kernel 8 (i + 8) (take t avx_aligned_order)) /\
          s' = s).
  match goal with
  | |- for_lt 0 16 16 ?body ?a s = _ =>
      destruct (for_lt_step_rule (fun j => I (16 * j)%nat) 0 16 16 1 body a s)
        as (accs & s' & E & -> & ->); [lia|lia| | |exact E]
  end.
  - split; reflexivity.
  - intros j accs0 s0 Hj HI. assert (j = O) by lia. subst j.
    change (I (16 * 0)%nat accs0 s0) with (I (2 * 0)%nat accs0 s0) in HI.
    change (16 * 1)%nat with (2 * 8)%nat.
    change (0 + 16 * Z.of_nat 0) with 0. cbv zeta.
    apply (for_lt_rule (fun l => I (2 * Z.to_nat l)%nat) 0 8); [lia|exact HI|].
    clear accs0 s0 HI. intros l accs0 s0 Hl HI.
    replace (2 * Z.to_nat (l + 1))%nat with (2 * Z.to_nat l + 2)%nat by lia.
    apply (for_lt_step_rule (fun mi => I (2 * Z.to_nat l + mi)%nat) 0 16 8 2);
      [lia|lia|now rewrite Nat.add_0_r|].
    clear accs0 s0 HI. intros mi accs0 s0 Hmi [-> ->].
    pose proof (avx_aligned_order_lookup (Z.to_nat l) mi ltac:(lia) Hmi)
      as Htap.
    rewrite Z2Nat.id in Htap by lia.
    set (tap := l + 8 * Z.of_nat mi) in *.
    pose proof (Z.div_mod i 8 ltac:(lia)) as Hdi.
    assert (Hload : forall p x s1,
              x = i \/ x = i + 8 ->
              p = x + 8 * Z.of_nat mi ->
              mm_load_ps 8 ia N l p s1 = Done (lanes in_ (x + tap) 8) s1).
    { intros p x s1 Hx ->.
      replace (x + tap) with (l + (x + 8 * Z.of_nat mi)) by (unfold tap; lia).
      apply (aligned_load_reads in_ N 8 ia); auto; try lia.
      apply (mod_of_mul 8 (x / 8 + Z.of_nat mi)); [lia|].
      pose proof (Z.div_mod x 8 ltac:(lia)) as Hdx.
      assert (Hx8 : x mod 8 = 0).
      { destruct Hx as [-> | ->]; auto; apply mod_0_add; auto; lia. }
      lia. }
    assert (Hk : local_load (F := F) BufKernelReverse kr
                   (0 + l + (0 + 8 * Z.of_nat mi)) =
                 ret (mm_set1_ps 8 (rd0 kernel (16 - tap - 1)))).
    { unfold local_load. rewrite Hkr by lia.
      now replace (0 + l + (0 + 8 * Z.of_nat mi)) with tap by (unfold tap; lia). }
    rewrite !Hk.
    erewrite bind_Done by (apply (Hload _ i); lia).
    unfold bind at 1, ret at 1.
    erewrite bind_Done by (apply (Hload _ (i + 8)); lia).
    unfold bind at 1, ret at 1.
    eexists _, _. split; [reflexivity|]. unfold I. split; [|reflexivity].
    replace (2 * Z.to_nat l + S mi)%nat with (S (2 * Z.to_nat l + mi)) by lia.
    rewrite (take_S_r _ _ _ Htap).
    cbn [fst snd]. now rewrite <- !vacc_snoc.
Qed.

End AvxAligned.

Section AvxAlignedRoutine.
Context {F : Type} `{Arith F}.
Variables (in_ kernel : list F) (N : Z).
Hypothesis HN : N = Z.of_nat (length in_).

Lemma load_copy_reads_of K (ia : list (list (option F))) p s :
  zlookup ia 0 = Some (shifted_row in_ N 0) ->
  0 <= p < N ->
  exists s',
    (row <- row_of ia 0 ;; local_load BufInAligned row p) s =
      Done (rd0 in_ p) s' /\
    out s' = out s /\
    (forall j, stores j (trace s') = stores j (trace s)) /\
    (accesses_ok N K (trace s) -> accesses_ok N K (trace s')).
Proof.
  intros Hia Hp. exists s. split; [|auto].
  unfold row_of. rewrite Hia. unfold bind at 1, ret at 1.
  unfold local_load. now rewrite zlookup_shifted_row_lt by lia.
Qed.

Lemma convolve_avx_aligned_post (out0 : list F) (kernel_length : Z) :
  16 = Z.of_nat (length kernel) -> 16 <= N ->
  Z.of_nat (length out0) = N - 16 + 1 -> N mod 16 = 0 ->
  aligned_post in_ kernel N 16
    (fun x => fma_taps unfused in_ kernel x avx_aligned_order)
    (run (convolve_avx_unrolled_vector_aligned in_ N kernel kernel_length)
       out0).
Proof.
  intros HK HKN Hout Hmod.
  pose proof (Z.div_mod N 16 ltac:(lia)) as Hdm.
  assert (HN8 : N mod 8 = 0) by (apply (mod_of_mul 8 (2 * (N / 16))); lia).
  unfold run, convolve_avx_unrolled_vector_aligned. cbv zeta.
  unfold KERNEL_LENGTH, VECTOR_LENGTH, AVX_SIMD_LENGTH.
  destruct (reverse_kernel_Done kernel 16 HK 8 (mkState out0 []))
    as (kr & Ekr & Hkr).
  rewrite (bind_Done _ _ _ _ _ Ekr). cbn [out trace].
  destruct (kernel_loads_state N out0) as [Hst Hok].
  destruct (shifted_copies_avx_Done in_ N 16 HN (Z.to_nat 8)
              (mkState out0 ((Load BufKernel <$> seqZ 0 16) ++ [])))
    as (ia & s1 & Eia & Ho1 & Hst1 & Hok1 & Hia); [lia|lia|].
  rewrite (bind_Done _ _ _ _ _ Eia).
  apply (vector_main in_ kernel N 16 16
           (fun x => fma_taps unfused in_ kernel x avx_aligned_order))
    with (out0 := out0); auto; try lia.
  - intros j s Hj. change (Z.of_nat 16) with 16 in *.
    erewrite bind_Done
      by (apply (avx_aligned_block_Done in_ kernel N HN8 ia Hia kr Hkr);
          [lia|apply (mod_of_mul 8 (2 * Z.of_nat j)); lia|lia]).
    cbn [fst snd]. rewrite Z.add_0_l.
    etransitivity; [apply (store_registers2 _ _ 8), length_vacc|].
    now rewrite vacc_app.
  - intros p s Hp. apply load_copy_reads_of; [apply Hia; lia|exact Hp].
  - change (Z.of_nat 16) with 16.
    replace (N - 16) with (N + (-1) * 16) by lia.
    now rewrite Z.mod_add by lia.
Qed.

Lemma convolve_avx_aligned_faults (out0 : list F) (kernel_length : Z) :
  16 < N -> N mod 16 <> 0 ->
  out_of (run (convolve_avx_unrolled_vector_aligned in_ N kernel
                 kernel_length) out0) = None.
Proof.
  intros HN16 Hmod.
  unfold run, convolve_avx_unrolled_vector_aligned. cbv zeta.
  unfold KERNEL_LENGTH, VECTOR_LENGTH, AVX_SIMD_LENGTH.
  apply bind_faults_r. intros kr s1 _.
  destruct (Z.eq_dec (N mod 8) 0) as [H8|H8].
  - destruct (shifted_copies_avx_Done in_ N 16 HN (Z.to_nat 8) s1)
      as (ia & s2 & Eia & _ & _ & _ & Hia); [lia|lia|].
    rewrite (bind_Done _ _ _ _ _ Eia). apply bind_faults_l.
    pose proof (Z.div_mod N 8 ltac:(lia)) as Hd8.
    pose proof (Z.div_mod (N - 16) 16 ltac:(lia)) as Hdm.
    pose proof (Z.mod_pos_bound (N - 16) 16 ltac:(lia)) as Hb.
    assert (Hr : (N - 16) mod 16 = N mod 16).
    { replace (N - 16) with (N + (-1) * 16) by lia. apply Z.mod_add. lia. }
    assert (Hq : 0 <= (N - 16) / 16) by (apply Z.div_pos; lia).
    apply (for_lt_faults 0 (N - 16) 16 (Z.to_nat ((N - 16) / 16)));
      [lia|lia|].
    intros [] s3. apply bind_faults_l.
    apply (for_lt_faults 0 16 16 0); [lia|lia|]. intros a1 s4. cbv zeta.
    apply (for_lt_faults 0 8 1 7); [lia|lia|]. intros a2 s5.
    apply (for_lt_faults 0 16 8 1); [lia|lia|]. intros a3 s6.
    apply bind_faults_r. intros d1 s7 _. apply bind_faults_r. intros k1 s8 _.
    apply bind_faults_l.
    apply (aligned_load_faults in_ N 8 ia); [apply Hia; lia|lia|lia|lia].
  - apply bind_faults_r. intros ia s2 _. apply bind_faults_l.
    apply (for_lt_faults 0 (N - 16) 16 0); [lia|lia|]. intros [] s3.
    apply bind_faults_l.
    apply (for_lt_faults 0 16 16 0); [lia|lia|]. intros a1 s4. cbv zeta.
    apply (for_lt_faults 0 8 1 1); [lia|lia|]. intros a2 s5.
    apply (for_lt_faults 0 16 8 0); [lia|lia|]. intros a3 s6.
    apply bind_faults_l.
    change (0 + 1 * Z.of_nat 1) with 1.
    apply (mm_load_ps_faults 8); [lia|exact H8|reflexivity].
Qed.

End AvxAlignedRoutine.

(** ** [convolve_sse_in_aligned] and [convolve_sse_in_aligned_fixed_kernel] *)



Section SseInAligned.
Context {F : Type} `{Arith F}.
Variables (in_ kernel : list F) (N K : Z).
Hypothesis HN4 : N mod 4 = 0.
Hypothesis HK4 : K mod 4 = 0.
Variable ia : list (list (option F)).
Hypothesis Hia : forall l, 0 <= l < 4 ->
  zlookup ia l = Some (shifted_row in_ N l).
Variable kr : list (option (list F)).
Hypothesis Hkr : forall k, 0 <= k < K ->
  zlookup kr k = Some (Some (mm_set1_ps 4 (rd0 kernel (K - k - 1)))).

(** One more tap in the four sums of a block. *)
Lemma block_sums_S i (t : nat) :
  mm_add_ps (block_sums in_ kernel K i t)
      (mm_mul_ps (mm_set1_ps 4 (rd0 kernel (K - Z.of_nat t - 1)))
                 (lanes in_ (i + Z.of_nat t) 4)) =
    block_sums in_ kernel K i (S t).
Proof.
  unfold block_sums.
  cbn [fmap list_fmap seq mm_set1_ps replicate lanes mm_mul_ps mm_add_ps
       zip_with conv_sum_vec].
  replace (K - 1 - Z.of_nat t) with (K - Z.of_nat t - 1) by lia.
  repeat (f_equal; [do 3 f_equal; lia|]). do 4 f_equal. lia.
Qed.

Lemma sse_in_aligned_block_Done i s :
  0 <= K -> 0 <= i -> i mod 4 = 0 -> i + 4 <= N - K ->
  for_lt 0 K 4 (fun k acc =>
    let data_offset := i + k in
    for_lt 0 4 1 (fun l acc =>
      data_block <- mm_load_ps 4 ia N l data_offset ;;
      krv <- local_load BufKernelReverse kr (k + l) ;;
      let prod := mm_mul_ps krv data_block in
      ret (mm_add_ps acc prod)) acc) (mm_setzero_ps 4) s =
  Done (block_sums in_ kernel K i (Z.to_nat K)) s.
Proof.
  intros HK0 Hi Hi4 Hfit.
  pose proof (Z.div_mod K 4 ltac:(lia)) as Hdk. rewrite HK4 in Hdk.
  pose proof (Z.div_mod i 4 ltac:(lia)) as Hdi.
  assert (Hq : 0 <= K / 4) by (apply Z.div_pos; lia).
  pose (I := fun (t : nat) (acc : list F) (s' : state F) =>
          acc = block_sums in_ kernel K i t /\ s' = s).
  match goal with
  | |- for_lt 0 K 4 ?body ?a s = _ =>
      destruct (for_lt_step_rule (fun j => I (4 * j)%nat) 0 K 4
                  (Z.to_nat (K / 4)) body a s)
        as (acc & s' & E & -> & ->); [lia|lia| | |]
  end.
  - split; reflexivity.
  - intros j acc0 s0 Hj HI. cbv zeta.
    replace (4 * S j)%nat with (4 * j + Z.to_nat 4)%nat by lia.
    apply (for_lt_rule (fun l => I (4 * j + Z.to_nat l)%nat) 0 4);
      [lia|now rewrite Nat.add_0_r|].
    clear acc0 s0 HI. intros l acc0 s0 Hl [-> ->].
    set (t := (4 * j + Z.to_nat l)%nat).
    erewrite bind_Done
      by (apply (aligned_load_reads in_ N 4 ia); auto; try lia;
          apply (mod_of_mul 4 (i / 4 + Z.of_nat j)); lia).
    unfold local_load. rewrite Hkr by lia.
    unfold bind at 1, ret at 1.
    eexists _, _. split; [reflexivity|]. split; [|reflexivity].
    replace (4 * j + Z.to_nat (l + 1))%nat with (S t) by (unfold t; lia).
    rewrite <- block_sums_S. unfold t.
    replace (K - (0 + 4 * Z.of_nat j + l) - 1)
      with (K - Z.of_nat (4 * j + Z.to_nat l) - 1) by lia.
    now replace (l + (i + (0 + 4 * Z.of_nat j)))
      with (i + Z.of_nat (4 * j + Z.to_nat l)) by lia.
  - now replace (Z.to_nat K) with (4 * Z.to_nat (K / 4))%nat by lia.
Qed.

End SseInAligned.

Section SseInAlignedRoutine.
Context {F : Type} `{Arith F}.
Variables (in_ kernel : list F) (N K : Z).
Hypothesis HN : N = Z.of_nat (length in_).

Lemma convolve_sse_in_aligned_post (out0 : list F) :
  K = Z.of_nat (length kernel) -> 1 <= K <= N ->
  Z.of_nat (length out0) = N - K + 1 -> N mod 4 = 0 -> K mod 4 = 0 ->
  aligned_post in_ kernel N K
    (fun x => conv_sum_vec in_ kernel K x (Z.to_nat K))
    (run (convolve_sse_in_aligned in_ N kernel K) out0).
Proof.
  intros HK HKN Hout HN4 HK4.
  pose proof (Z.div_mod N 4 ltac:(lia)) as Hdn.
  pose proof (Z.div_mod K 4 ltac:(lia)) as Hdk.
  unfold run, convolve_sse_in_aligned. cbv zeta.
  destruct (reverse_kernel_Done kernel K HK 4 (mkState out0 []))
    as (kr & Ekr & Hkr).
  rewrite (bind_Done _ _ _ _ _ Ekr). cbn [out trace].
  destruct (shifted_copies_Done in_ N K HN 4
              (mkState out0 ((Load BufKernel <$> seqZ 0 K) ++ [])))
    as (ia & s1 & Eia & Ho1 & Hst1 & Hok1 & _ & Hia); [lia|lia|].
  rewrite (bind_Done _ _ _ _ _ Eia).
  apply (vector_main in_ kernel N K 4
           (fun x => conv_sum_vec in_ kernel K x (Z.to_nat K)))
    with (out0 := out0); auto; try lia.
  - intros j s Hj. change (Z.of_nat 4) with 4 in *.
    erewrite bind_Done
      by (apply (sse_in_aligned_block_Done in_ kernel N K HN4 HK4 ia Hia
                   kr Hkr);
          [lia|lia|apply (mod_of_mul 4 (Z.of_nat j)); lia|lia]).
    now rewrite Z.add_0_l.
  - intros p s Hp. apply load_copy_reads_of; [apply Hia; lia|exact Hp].
  - change (Z.of_nat 4) with 4.
    apply (mod_of_mul 4 (N / 4 - K / 4)); lia.
  - intros x. rewrite Hst1. cbn [trace]. rewrite app_nil_r.
    apply stores_loads.
  - apply Hok1. cbn [trace]. rewrite app_nil_r.
    apply accesses_ok_kernel_loads.
Qed.

Lemma convolve_sse_in_aligned_faults (out0 : list F) :
  1 <= K < N -> N mod 4 <> 0 \/ K mod 4 <> 0 ->
  out_of (run (convolve_sse_in_aligned in_ N kernel K) out0) = None.
Proof.
  intros HKN Hmod.
  unfold run, convolve_sse_in_aligned. cbv zeta.
  apply bind_faults_r. intros kr s1 Ekr.
  apply reverse_kernel_length in Ekr.
  apply bind_faults_r. intros ia s2 _. apply bind_faults_l.
  apply (for_lt_faults 0 (N - K) 4 0); [lia|lia|]. intros [] s3.
  apply bind_faults_l.
  destruct (Z.eq_dec (K mod 4) 0) as [HK4|HK4].
  - destruct Hmod as [HN4|]; [|contradiction].
    apply (for_lt_faults 0 K 4 0); [lia|lia|]. intros a1 s4. cbv zeta.
    apply (for_lt_faults 0 4 1 1); [lia|lia|]. intros a2 s5.
    apply bind_faults_l.
    change (0 + 1 * Z.of_nat 1) with 1.
    apply (mm_load_ps_faults 4); [lia|exact HN4|reflexivity].
  - pose proof (Z.div_mod K 4 ltac:(lia)) as Hdm.
    pose proof (Z.mod_pos_bound K 4 ltac:(lia)) as Hb.
    assert (Hq : 0 <= K / 4) by (apply Z.div_pos; lia).
    apply (for_lt_faults 0 K 4 (Z.to_nat (K / 4))); [lia|lia|].
    intros a1 s4. cbv zeta.
    apply (for_lt_faults 0 4 1 (Z.to_nat (K mod 4))); [lia|lia|].
    intros a2 s5. apply bind_faults_r. intros d s6 _.
    apply bind_faults_l. unfold local_load.
    replace (0 + 4 * Z.of_nat (Z.to_nat (K / 4)) +
             (0 + 1 * Z.of_nat (Z.to_nat (K mod 4)))) with K by lia.
    destruct (zlookup kr K) as [v|] eqn:E; [|reflexivity].
    apply zlookup_Some in E as [_ E]. apply lookup_lt_Some in E. lia.
Qed.



End SseInAlignedRoutine.

(** ** The routines that load from aligned addresses against the others *)



Section AlignedOutputs.
Context {F : Type} `{Arith F}.
Variables (in_ kernel : list F) (N : Z).


(** A routine that leaves the reference sum in every element leaves the
    expected output. *)
Lemma aligned_post_valid K (val : Z -> F) (r : result F Z) :
  N = Z.of_nat (length in_) -> K = Z.of_nat (length kernel) -> K <= N ->
  (forall x, 0 <= x < N - K ->
     val x = conv_sum in_ kernel K x (Z.to_nat K)) ->
  aligned_post in_ kernel N K val r ->
  out_of r = Some (conv_valid in_ kernel).
Proof.
  intros HN HK HKN Hval (s & -> & Hlen & Hout & Hlast & _). cbn [out_of].
  f_equal. apply (conv_valid_intro in_ kernel N K HN HK HKN); [exact Hlen|].
  intros j Hj. destruct (Z.eq_dec (Z.of_nat j) (N - K)) as [E|Hne].
  - apply zlookup_Some in Hlast as [_ E']. rewrite <- E, Nat2Z.id in E'.
    now rewrite E', E.
  - pose proof (Hout (Z.of_nat j) ltac:(lia)) as E.
    apply zlookup_Some in E as [_ E]. rewrite Nat2Z.id in E.
    rewrite E, Hval by lia. reflexivity.
Qed.

End AlignedOutputs.

Section AlignedKernelArgument.
Context {F : Type} `{Arith F}.

Lemma reverse_kernel_block_prefix (kernel1 kernel2 : list F) kr s :
  take 16 kernel1 = take 16 kernel2 ->
  reverse_kernel_block kernel1 kr s = reverse_kernel_block kernel2 kr s.
Proof.
  intros Hprefix. unfold reverse_kernel_block, KERNEL_LENGTH.
  apply bind_ext; [|reflexivity].
  apply for_lt_ext; [lia|]. intros i a s1 Hi.
  apply bind_ext; [|reflexivity].
  apply for_lt_ext; [lia|]. intros j kb s2 _.
  now rewrite (load_kernel_prefix kernel1 kernel2 Hprefix) by lia.
Qed.

(** The routines with a kernel of [KERNEL_LENGTH] coefficients that load
    from aligned addresses ignore [kernel_length] and the kernel past its
    first 16 coefficients. *)
Lemma aligned_kernels_prefix (in_ out0 kernel1 kernel2 : list F) N k1 k2 :
  take 16 kernel1 = take 16 kernel2 ->
  run (convolve_sse_unrolled_avx_vector in_ N kernel1 k1) out0 =
    run (convolve_sse_unrolled_avx_vector in_ N kernel2 k2) out0 /\
  run (convolve_sse_unrolled_vector in_ N kernel1 k1) out0 =
    run (convolve_sse_unrolled_vector in_ N kernel2 k2) out0 /\
  run (convolve_avx_unrolled_vector_m128_load in_ N kernel1 k1) out0 =
    run (convolve_avx_unrolled_vector_m128_load in_ N kernel2 k2) out0 /\
  run (convolve_avx_unrolled_vector_aligned in_ N kernel1 k1) out0 =
    run (convolve_avx_unrolled_vector_aligned in_ N kernel2 k2) out0 /\
  run (convolve_avx_unrolled_vector_partial_aligned in_ N kernel1 k1) out0 =
    run (convolve_avx_unrolled_vector_partial_aligned in_ N kernel2 k2) out0.
Proof.
  intros Hprefix.
  unfold run, convolve_sse_unrolled_avx_vector, convolve_sse_unrolled_vector,
    convolve_avx_unrolled_vector_m128_load,
    convolve_avx_unrolled_vector_aligned,
    convolve_avx_unrolled_vector_partial_aligned. cbv zeta.
  split; [|split; [|split; [|split]]];
    (apply bind_ext;
     [first [now apply reverse_kernel_prefix
            |now apply reverse_kernel_block_prefix]|]);
    intros kr s1;
    (apply bind_ext; [reflexivity|]); intros ia s2;
    (apply bind_ext; [reflexivity|]); intros _ s3;
    (apply bind_ext; [now apply last_value_prefix|reflexivity]).
Qed.


End AlignedKernelArgument.

(** * Further properties of the routines *)

(** ** [convolve_sse_partial_unroll] *)

(** X1. For a kernel length [K >= 1] that is a multiple of four and a
    signal length [N >= 0], [convolve_sse_partial_unroll] is
    [convolve_sse_simple] with its tap loop cut in tiles of four: on the
    same arguments and the same output buffer, whatever the buffers hold
    and however long they are, the two routines end in the same result,
    that is the same status, output and accesses, or the same fault. *)
Theorem sse_partial_unroll_is_sse_simple {F} `{Arith F}
    (in_ kernel out0 : list F) (N K : Z) :
  0 <= N -> 1 <= K -> K mod 4 = 0 ->
  run (convolve_sse_partial_unroll in_ N kernel K) out0 =
    run (convolve_sse_simple in_ N kernel K) out0.
Proof. intros _ _. apply convolve_sse_partial_unroll_simple. Qed.

Lemma sse_partial_unroll_is_sse_simple_witness :
  run (convolve_sse_partial_unroll signal8 8 kernel4 4) (replicate 5 fzero) =
    run (convolve_sse_simple signal8 8 kernel4 4) (replicate 5 fzero).
Proof.
  apply (sse_partial_unroll_is_sse_simple signal8 kernel4 (replicate 5 fzero)
           8 4); [lia|lia|reflexivity].
Defined.

(** X2. The precondition of [convolve_sse_partial_unroll] is needed: with
    a kernel length [0 < K < N] that is not a multiple of four the first
    vector block runs its last tile of four taps past the kernel and reads
    [kernel_reverse[K]], an element that the array does not have (unless a
    load of the signal has faulted before).  No such call returns,
    whatever the buffers are. *)
Theorem sse_partial_unroll_needs_multiple_of_four {F} `{Arith F}
    (in_ kernel out0 : list F) (N K : Z) :
  K mod 4 <> 0 -> 0 < K < N ->
  out_of (run (convolve_sse_partial_unroll in_ N kernel K) out0) = None.
Proof. apply convolve_sse_partial_unroll_faults. Qed.

Lemma sse_partial_unroll_needs_multiple_of_four_witness :
  out_of (run (convolve_sse_partial_unroll signal8 8 kernel3 3)
            (replicate 6 fzero)) = None.
Proof.
  apply (sse_partial_unroll_needs_multiple_of_four signal8 kernel3
           (replicate 6 fzero) 8 3); [discriminate|lia].
Defined.

(** X3. [convolve_sse_partial_unroll] on a valid call ([1 <= K <= N],
    buffers of [N], [K] and [N-K+1] floats) with [K] a multiple of four:
    when [N-K] is 0 or 3 modulo 4 it returns 0 and leaves the expected
    output, storing once to each element covered by a vector block and
    [K+1] more times to the last one, every access within the contract;
    when [N-K] is 1 or 2 modulo 4 its last block does not fit and it
    loads [in[N]], past the signal. *)
Theorem sse_partial_unroll_valid_calls {F} `{Arith F}
    (fmul_comm : forall x y : F, fmul x y = fmul y x)
    (in_ kernel out0 : list F) (N K : Z) :
  N = Z.of_nat (length in_) -> K = Z.of_nat (length kernel) ->
  1 <= K <= N -> K mod 4 = 0 ->
  Z.of_nat (length out0) = N - K + 1 ->
  ((N - K) mod 4 = 0 \/ (N - K) mod 4 = 3 ->
   sse_simple_post in_ kernel N K
     (run (convolve_sse_partial_unroll in_ N kernel K) out0)) /\
  ((N - K) mod 4 = 1 \/ (N - K) mod 4 = 2 ->
   run (convolve_sse_partial_unroll in_ N kernel K) out0 =
     Fault (OutOfBounds BufIn N)).
Proof. intros. now apply convolve_sse_partial_unroll_post. Qed.

Lemma sse_partial_unroll_valid_calls_witness :
  ((8 - 4) mod 4 = 0 \/ (8 - 4) mod 4 = 3 ->
   sse_simple_post signal8 kernel4 8 4
     (run (convolve_sse_partial_unroll signal8 8 kernel4 4)
        (replicate 5 fzero))) /\
  ((8 - 4) mod 4 = 1 \/ (8 - 4) mod 4 = 2 ->
   run (convolve_sse_partial_unroll signal8 8 kernel4 4) (replicate 5 fzero) =
     Fault (OutOfBounds BufIn 8)).
Proof.
  apply (@sse_partial_unroll_valid_calls spec_float b32_arith b32_mul_comm
           signal8 kernel4 (replicate 5 fzero) 8 4);
    [reflexivity|reflexivity|lia|reflexivity|reflexivity].
Defined.

(** ** The AVX routines *)

(** X4. On a valid call with a kernel of 16 coefficients whose blocks of
    sixteen fit ([N-16] is 0 or 15 modulo 16),
    [convolve_avx_unrolled_vector], which reads the signal through the
    shifted copies [in_aligned], and
    [convolve_avx_unrolled_vector_unaligned] both return 0 and leave, in
    every element but the last, the 16 products accumulated in the order
    [avx_order] and, in the last, the reference sum; they store once to
    each element covered by a block and 17 more times to the last one, and
    every access to the caller's buffers is within the contract
    ([avx_family_post] at the multiply-add that does not fuse). *)
Theorem avx_unrolled_vector_fit {F} `{Arith F}
    (in_ kernel out0 : list F) (N kernel_length : Z) :
  N = Z.of_nat (length in_) -> 16 = Z.of_nat (length kernel) -> 16 <= N ->
  Z.of_nat (length out0) = N - 16 + 1 ->
  (N - 16) mod 16 = 0 \/ (N - 16) mod 16 = 15 ->
  avx_family_post unfused in_ kernel N
    (run (convolve_avx_unrolled_vector in_ N kernel kernel_length) out0) /\
  avx_family_post unfused in_ kernel N
    (run (convolve_avx_unrolled_vector_unaligned in_ N kernel kernel_length)
       out0).
Proof.
  intros HN HK HKN Hout Hfit. split.
  - now apply convolve_avx_copies_post.
  - now apply convolve_avx_unaligned_family_post.
Qed.

Lemma avx_unrolled_vector_fit_witness :
  avx_family_post unfused signal32 kernel16 32
    (run (convolve_avx_unrolled_vector signal32 32 kernel16 16)
       (replicate 17 fzero)) /\
  avx_family_post unfused signal32 kernel16 32
    (run (convolve_avx_unrolled_vector_unaligned signal32 32 kernel16 16)
       (replicate 17 fzero)).
Proof.
  apply (avx_unrolled_vector_fit signal32 kernel16 (replicate 17 fzero) 32 16);
    [reflexivity|reflexivity|lia|reflexivity|left; reflexivity].
Defined.

(** X5. On a valid call with a kernel of 16 coefficients whose blocks fit,
    [convolve_avx_unrolled_vector_local_output] returns 0 and leaves in
    [out] the output of the other AVX routines ([avx_output]); it stores
    to every element [out[0..N-16]] exactly once, by the final [memcpy],
    never loads from [out], and every access to the caller's buffers is
    within the contract. *)
Theorem avx_local_output_fit {F} `{Arith F}
    (in_ kernel out0 : list F) (N kernel_length : Z) :
  N = Z.of_nat (length in_) -> 16 = Z.of_nat (length kernel) -> 16 <= N ->
  Z.of_nat (length out0) = N - 16 + 1 ->
  (N - 16) mod 16 = 0 \/ (N - 16) mod 16 = 15 ->
  local_output_post in_ kernel N
    (run (convolve_avx_unrolled_vector_local_output in_ N kernel
            kernel_length) out0).
Proof. intros. now apply convolve_avx_local_output_post. Qed.

Lemma avx_local_output_fit_witness :
  local_output_post signal32 kernel16 32
    (run (convolve_avx_unrolled_vector_local_output signal32 32 kernel16 16)
       (replicate 17 fzero)).
Proof.
  apply (avx_local_output_fit signal32 kernel16 (replicate 17 fzero) 32 16);
    [reflexivity|reflexivity|lia|reflexivity|left; reflexivity].
Defined.

(** X6. On a valid call with a kernel of 16 coefficients whose blocks fit,
    [convolve_avx_unrolled_vector_unaligned_fma] returns 0 and leaves, in
    every element but the last, the 16 taps accumulated from zero by the
    fused multiply-add [ffma (kernel[15-t], in[i+t], acc)] in the order
    [avx_order], whatever [ffma] computes; the last element holds the
    reference sum, computed without fusion by the scalar tail.  The stores
    and the accesses are those of the unaligned routine. *)
Theorem avx_fma_fit {F} `{Arith F} (ffma : F -> F -> F -> F)
    (in_ kernel out0 : list F) (N kernel_length : Z) :
  N = Z.of_nat (length in_) -> 16 = Z.of_nat (length kernel) -> 16 <= N ->
  Z.of_nat (length out0) = N - 16 + 1 ->
  (N - 16) mod 16 = 0 \/ (N - 16) mod 16 = 15 ->
  avx_family_post ffma in_ kernel N
    (run (convolve_avx_unrolled_vector_unaligned_fma ffma in_ N kernel
            kernel_length) out0).
Proof. intros. now apply convolve_avx_fma_post. Qed.

Lemma avx_fma_fit_witness :
  avx_family_post (fun a b c : Z => a * b + c) (seqZ 1 32) (seqZ 1 16) 32
    (run (convolve_avx_unrolled_vector_unaligned_fma
            (fun a b c : Z => a * b + c) (seqZ 1 32) 32 (seqZ 1 16) 16)
       (replicate 17 0)).
Proof.
  apply (avx_fma_fit (fun a b c : Z => a * b + c) (seqZ 1 32) (seqZ 1 16)
           (replicate 17 0) 32 16);
    [reflexivity|reflexivity|lia|reflexivity|left; reflexivity].
Defined.

(** X7. The AVX routines overrun their input like [convolve_sse_simple]:
    for a signal of [N > 16] samples with [N-16] between 1 and 14 modulo
    16, the last block of sixteen outputs reaches past the signal (or past
    the copied part of [in_aligned]), and none of the four routines
    returns, whatever the kernel and the output buffer are. *)
Theorem avx_routines_overrun {F} `{Arith F} (ffma : F -> F -> F -> F)
    (in_ kernel out0 : list F) (N kernel_length : Z) :
  N = Z.of_nat (length in_) -> 16 < N -> 1 <= (N - 16) mod 16 <= 14 ->
  out_of (run (convolve_avx_unrolled_vector_unaligned in_ N kernel
                 kernel_length) out0) = None /\
  out_of (run (convolve_avx_unrolled_vector in_ N kernel kernel_length)
            out0) = None /\
  out_of (run (convolve_avx_unrolled_vector_local_output in_ N kernel
                 kernel_length) out0) = None /\
  out_of (run (convolve_avx_unrolled_vector_unaligned_fma ffma in_ N kernel
                 kernel_length) out0) = None.
Proof.
  intros HN HN16 Hmod. repeat split.
  - now apply convolve_avx_unaligned_faults.
  - now apply convolve_avx_copies_faults.
  - now apply convolve_avx_local_output_faults.
  - now apply convolve_avx_fma_faults.
Qed.

Lemma avx_routines_overrun_witness :
  out_of (run (convolve_avx_unrolled_vector_unaligned (seqZ 1 21) 21
                 (seqZ 1 16) 16) (replicate 6 0)) = None /\
  out_of (run (convolve_avx_unrolled_vector (seqZ 1 21) 21 (seqZ 1 16) 16)
            (replicate 6 0)) = None /\
  out_of (run (convolve_avx_unrolled_vector_local_output (seqZ 1 21) 21
                 (seqZ 1 16) 16) (replicate 6 0)) = None /\
  out_of (run (convolve_avx_unrolled_vector_unaligned_fma
                 (fun a b c : Z => a * b + c) (seqZ 1 21) 21 (seqZ 1 16) 16)
            (replicate 6 0)) = None.
Proof.
  apply (avx_routines_overrun (fun a b c : Z => a * b + c) (seqZ 1 21)
           (seqZ 1 16) (replicate 6 0) 21 16);
    [reflexivity|lia|].
  change ((21 - 16) mod 16) with 5. lia.
Defined.

(** X8. The shifted copies and the local output buffer change nothing
    that the caller sees in [out]: on every valid call with a kernel of 16
    coefficients, whatever [N >= 16] is, [convolve_avx_unrolled_vector]
    and [convolve_avx_unrolled_vector_local_output] leave the output
    buffer that [convolve_avx_unrolled_vector_unaligned] leaves, bit for
    bit, or fault where it faults. *)
Theorem avx_routines_same_output {F} `{Arith F}
    (in_ kernel out0 : list F) (N k1 k2 k3 : Z) :
  N = Z.of_nat (length in_) -> 16 = Z.of_nat (length kernel) -> 16 <= N ->
  Z.of_nat (length out0) = N - 16 + 1 ->
  out_of (run (convolve_avx_unrolled_vector in_ N kernel k1) out0) =
    out_of (run (convolve_avx_unrolled_vector_unaligned in_ N kernel k2)
              out0) /\
  out_of (run (convolve_avx_unrolled_vector_local_output in_ N kernel k3)
            out0) =
    out_of (run (convolve_avx_unrolled_vector_unaligned in_ N kernel k2)
              out0).
Proof. apply avx_family_same_output. Qed.

Lemma avx_routines_same_output_witness :
  out_of (run (convolve_avx_unrolled_vector signal32 32 kernel16 16)
            (replicate 17 fzero)) =
    out_of (run (convolve_avx_unrolled_vector_unaligned signal32 32 kernel16
                   16) (replicate 17 fzero)) /\
  out_of (run (convolve_avx_unrolled_vector_local_output signal32 32
                 kernel16 16) (replicate 17 fzero)) =
    out_of (run (convolve_avx_unrolled_vector_unaligned signal32 32 kernel16
                   16) (replicate 17 fzero)).
Proof.
  apply (avx_routines_same_output signal32 kernel16 (replicate 17 fzero)
           32 16 16 16);
    [reflexivity|reflexivity|lia|reflexivity].
Defined.

(** X9. [convolve_avx_unrolled_vector_unaligned_fma] is
    [convolve_avx_unrolled_vector_unaligned] with each multiplication and
    addition of a block replaced by one multiply-add: run over the
    multiply-add that does not fuse ([unfused a b c = c + a * b], two
    roundings), it ends in the result of the unaligned routine, the same
    status, output and accesses or the same fault, for every signal length
    [N >= 0] and whatever the buffers are. *)
Theorem avx_fma_unfused_is_unaligned {F} `{Arith F}
    (in_ kernel out0 : list F) (N k1 k2 : Z) :
  0 <= N ->
  run (convolve_avx_unrolled_vector_unaligned_fma unfused in_ N kernel k1)
      out0 =
    run (convolve_avx_unrolled_vector_unaligned in_ N kernel k2) out0.
Proof. intros _. apply convolve_avx_fma_unfused. Qed.

Lemma avx_fma_unfused_is_unaligned_witness :
  run (convolve_avx_unrolled_vector_unaligned_fma unfused signal32 32
         kernel16 16) (replicate 17 fzero) =
    run (convolve_avx_unrolled_vector_unaligned signal32 32 kernel16 16)
      (replicate 17 fzero).
Proof.
  apply (avx_fma_unfused_is_unaligned signal32 kernel16 (replicate 17 fzero)
           32 16 16).
  lia.
Defined.

(** X10. Like the two AVX routines of C9,
    [convolve_avx_unrolled_vector_unaligned_fma] and
    [convolve_avx_unrolled_vector_local_output] ignore their argument
    [kernel_length] and the kernel past its first 16 coefficients: two
    calls that differ in these only end in the same result. *)
Theorem avx_more_kernels_ignore_kernel_length {F} `{Arith F}
    (ffma : F -> F -> F -> F) (in_ out0 kernel1 kernel2 : list F)
    (N kernel_length1 kernel_length2 : Z) :
  take 16 kernel1 = take 16 kernel2 ->
  run (convolve_avx_unrolled_vector_unaligned_fma ffma in_ N kernel1
         kernel_length1) out0 =
    run (convolve_avx_unrolled_vector_unaligned_fma ffma in_ N kernel2
           kernel_length2) out0 /\
  run (convolve_avx_unrolled_vector_local_output in_ N kernel1
         kernel_length1) out0 =
    run (convolve_avx_unrolled_vector_local_output in_ N kernel2
           kernel_length2) out0.
Proof. apply avx_more_kernels_prefix. Qed.

Lemma avx_more_kernels_ignore_kernel_length_witness :
  run (convolve_avx_unrolled_vector_unaligned_fma
         (fun a b c : Z => a * b + c) (seqZ 1 32) 32 (seqZ 1 16 ++ [99]) 17)
      (seqZ 0 17) =
    run (convolve_avx_unrolled_vector_unaligned_fma
           (fun a b c : Z => a * b + c) (seqZ 1 32) 32 (seqZ 1 16 ++ [5; 6]) 3)
      (seqZ 0 17) /\
  run (convolve_avx_unrolled_vector_local_output (seqZ 1 32) 32
         (seqZ 1 16 ++ [99]) 17) (seqZ 0 17) =
    run (convolve_avx_unrolled_vector_local_output (seqZ 1 32) 32
           (seqZ 1 16 ++ [5; 6]) 3) (seqZ 0 17).
Proof.
  apply (avx_more_kernels_ignore_kernel_length (fun a b c : Z => a * b + c)
           (seqZ 1 32) (seqZ 0 17) (seqZ 1 16 ++ [99]) (seqZ 1 16 ++ [5; 6])
           32 17 3).
  reflexivity.
Defined.



(** ** Signals shorter than the kernel *)

(** X12. Unlike the scalar kernels (C10), the vector routines are not
    no-ops on a signal shorter than the kernel: with [N < K] their main
    loop runs no block, but the special case of the last value stores to
    [out[N-K]], a negative index.  [convolve_sse_simple] and
    [convolve_sse_partial_unroll] fault there for every [0 <= N < K]. *)
Theorem sse_routines_short_signal {F} `{Arith F}
    (in_ kernel out0 : list F) (N K : Z) :
  K = Z.of_nat (length kernel) -> 0 <= N -> N < K ->
  run (convolve_sse_simple in_ N kernel K) out0 =
    Fault (OutOfBounds BufOut (N - K)) /\
  run (convolve_sse_partial_unroll in_ N kernel K) out0 =
    Fault (OutOfBounds BufOut (N - K)).
Proof. intros HK _. now apply sse_short_signal. Qed.

Lemma sse_routines_short_signal_witness :
  run (convolve_sse_simple (b32_of_Z <$> [1]) 1 (b32_of_Z <$> [1; 2]) 2)
    (b32_of_Z <$> [9]) = Fault (OutOfBounds BufOut (1 - 2)) /\
  run (convolve_sse_partial_unroll (b32_of_Z <$> [1]) 1
         (b32_of_Z <$> [1; 2]) 2) (b32_of_Z <$> [9]) =
    Fault (OutOfBounds BufOut (1 - 2)).
Proof.
  apply (sse_routines_short_signal (b32_of_Z <$> [1]) (b32_of_Z <$> [1; 2])
           (b32_of_Z <$> [9]) 1 2); [reflexivity|lia|lia].
Defined.

(** X13. The same holds for the AVX routines, whose kernel has 16
    coefficients: on a signal of [0 <= N < 16] samples the two routines
    that read the signal directly fault on the store to [out[N-16]], and
    the two that copy it first do not return either. *)
Theorem avx_routines_short_signal {F} `{Arith F} (ffma : F -> F -> F -> F)
    (in_ kernel out0 : list F) (N kernel_length : Z) :
  16 = Z.of_nat (length kernel) -> 0 <= N -> N < 16 ->
  run (convolve_avx_unrolled_vector_unaligned in_ N kernel kernel_length)
      out0 = Fault (OutOfBounds BufOut (N - 16)) /\
  run (convolve_avx_unrolled_vector_unaligned_fma ffma in_ N kernel
         kernel_length) out0 = Fault (OutOfBounds BufOut (N - 16)) /\
  out_of (run (convolve_avx_unrolled_vector in_ N kernel kernel_length)
            out0) = None /\
  out_of (run (convolve_avx_unrolled_vector_local_output in_ N kernel
                 kernel_length) out0) = None.
Proof. intros HK _. now apply avx_short_signal. Qed.

Lemma avx_routines_short_signal_witness :
  run (convolve_avx_unrolled_vector_unaligned (seqZ 1 5) 5 (seqZ 1 16) 16)
      [0] = Fault (OutOfBounds BufOut (5 - 16)) /\
  run (convolve_avx_unrolled_vector_unaligned_fma
         (fun a b c : Z => a * b + c) (seqZ 1 5) 5 (seqZ 1 16) 16) [0] =
    Fault (OutOfBounds BufOut (5 - 16)) /\
  out_of (run (convolve_avx_unrolled_vector (seqZ 1 5) 5 (seqZ 1 16) 16)
            [0]) = None /\
  out_of (run (convolve_avx_unrolled_vector_local_output (seqZ 1 5) 5
                 (seqZ 1 16) 16) [0]) = None.
Proof.
  apply (avx_routines_short_signal (fun a b c : Z => a * b + c) (seqZ 1 5)
           (seqZ 1 16) [0] 5 16); [reflexivity|lia|lia].
Defined.

(** ** The routines that load from aligned addresses *)

(** X14. For a signal length [N >= 0] that is a multiple of four,
    [convolve_avx_unrolled_vector_m128_load] is
    [convolve_avx_unrolled_vector] with each load of eight samples made of
    two aligned loads of four: the rows of [in_aligned] are [N] floats
    long, so every one of these loads is at an aligned address, and on
    the same arguments and the same output buffer, whatever the buffers
    hold and however long they are, the two routines end in the same
    result, that is the same status, output and accesses, or the same
    fault. *)
Theorem avx_m128_load_is_avx_unrolled_vector {F} `{Arith F}
    (in_ kernel out0 : list F) (N k1 k2 : Z) :
  0 <= N -> N mod 4 = 0 ->
  run (convolve_avx_unrolled_vector_m128_load in_ N kernel k1) out0 =
    run (convolve_avx_unrolled_vector in_ N kernel k2) out0.
Proof. intros _. apply convolve_avx_m128_load_copies. Qed.

Lemma avx_m128_load_is_avx_unrolled_vector_witness :
  run (convolve_avx_unrolled_vector_m128_load signal32 32 kernel16 16)
      (replicate 17 fzero) =
    run (convolve_avx_unrolled_vector signal32 32 kernel16 16)
      (replicate 17 fzero).
Proof.
  apply (avx_m128_load_is_avx_unrolled_vector signal32 kernel16
           (replicate 17 fzero) 32 16 16); [lia|reflexivity].
Defined.

(** X15. On a valid call with a kernel of 16 coefficients and a signal
    length that is a multiple of 16, [convolve_sse_unrolled_vector], which
    works on four registers of four lanes, and
    [convolve_avx_unrolled_vector_partial_aligned], which mixes aligned and
    unaligned loads, behave as the routines of the AVX family: they return
    0 and leave, in every element but the last, the 16 products accumulated
    in the order [avx_order] and, in the last, the reference sum; they
    store once to each element but the last and 17 times to the last one,
    and every access to the caller's buffers is within the contract
    ([avx_family_post] at the multiply-add that does not fuse). *)
Theorem sse_unrolled_vector_fit {F} `{Arith F}
    (in_ kernel out0 : list F) (N kernel_length : Z) :
  N = Z.of_nat (length in_) -> 16 = Z.of_nat (length kernel) -> 16 <= N ->
  Z.of_nat (length out0) = N - 16 + 1 -> N mod 16 = 0 ->
  avx_family_post unfused in_ kernel N
    (run (convolve_sse_unrolled_vector in_ N kernel kernel_length) out0) /\
  avx_family_post unfused in_ kernel N
    (run (convolve_avx_unrolled_vector_partial_aligned in_ N kernel
            kernel_length) out0).
Proof.
  intros HN HK HKN Hout Hmod. split.
  - now apply convolve_sse_unrolled_vector_post.
  - now apply convolve_avx_partial_aligned_post.
Qed.

Lemma sse_unrolled_vector_fit_witness :
  avx_family_post unfused signal32 kernel16 32
    (run (convolve_sse_unrolled_vector signal32 32 kernel16 16)
       (replicate 17 fzero)) /\
  avx_family_post unfused signal32 kernel16 32
    (run (convolve_avx_unrolled_vector_partial_aligned signal32 32 kernel16
            16) (replicate 17 fzero)).
Proof.
  apply (sse_unrolled_vector_fit signal32 kernel16 (replicate 17 fzero) 32 16);
    [reflexivity|reflexivity|lia|reflexivity|reflexivity].
Defined.

(** X16. On a valid call with a kernel of 16 coefficients and a signal
    length that is a multiple of 16,
    [convolve_avx_unrolled_vector_aligned] returns 0 and leaves, in every
    element but the last, the 16 products accumulated in the order
    [avx_aligned_order] (taps [l] and [l + 8] for [l] from 0 to 7), which
    is not the order of the other AVX routines, and, in the last, the
    reference sum; it stores once to each element but the last and 17
    times to the last one, and every access to the caller's buffers is
    within the contract. *)
Theorem avx_aligned_fit {F} `{Arith F}
    (in_ kernel out0 : list F) (N kernel_length : Z) :
  N = Z.of_nat (length in_) -> 16 = Z.of_nat (length kernel) -> 16 <= N ->
  Z.of_nat (length out0) = N - 16 + 1 -> N mod 16 = 0 ->
  aligned_post in_ kernel N 16
    (fun x => fma_taps unfused in_ kernel x avx_aligned_order)
    (run (convolve_avx_unrolled_vector_aligned in_ N kernel kernel_length)
       out0).
Proof. intros. now apply convolve_avx_aligned_post. Qed.

Lemma avx_aligned_fit_witness :
  aligned_post signal32 kernel16 32 16
    (fun x => fma_taps unfused signal32 kernel16 x avx_aligned_order)
    (run (convolve_avx_unrolled_vector_aligned signal32 32 kernel16 16)
       (replicate 17 fzero)).
Proof.
  apply (avx_aligned_fit signal32 kernel16 (replicate 17 fzero) 32 16);
    [reflexivity|reflexivity|lia|reflexivity|reflexivity].
Defined.

(** X17. On a valid call with a kernel of 16 coefficients and a signal
    length that is a multiple of 8, [convolve_sse_unrolled_avx_vector],
    which works in blocks of eight outputs, returns 0 and leaves, in every
    element but the last, the 16 products accumulated in the order
    [sse_avx_order] and, in the last, the reference sum; it stores once to
    each element but the last and 17 times to the last one, and every
    access to the caller's buffers is within the contract. *)
Theorem sse_unrolled_avx_vector_fit {F} `{Arith F}
    (in_ kernel out0 : list F) (N kernel_length : Z) :
  N = Z.of_nat (length in_) -> 16 = Z.of_nat (length kernel) -> 16 <= N ->
  Z.of_nat (length out0) = N - 16 + 1 -> N mod 8 = 0 ->
  aligned_post in_ kernel N 16
    (fun x => fma_taps unfused in_ kernel x sse_avx_order)
    (run (convolve_sse_unrolled_avx_vector in_ N kernel kernel_length) out0).
Proof. intros. now apply convolve_sse_unrolled_avx_vector_post. Qed.

Lemma sse_unrolled_avx_vector_fit_witness :
  aligned_post signal32 kernel16 32 16
    (fun x => fma_taps unfused signal32 kernel16 x sse_avx_order)
    (run (convolve_sse_unrolled_avx_vector signal32 32 kernel16 16)
       (replicate 17 fzero)).
Proof.
  apply (sse_unrolled_avx_vector_fit signal32 kernel16 (replicate 17 fzero)
           32 16);
    [reflexivity|reflexivity|lia|reflexivity|reflexivity].
Defined.

(** X18. On a valid call ([1 <= K <= N], buffers of [N], [K] and [N-K+1]
    floats) with [N] and [K] multiples of four, [convolve_sse_in_aligned]
    returns 0 and leaves in every element the reference sum with the
    factors of each product exchanged, coefficient first ([conv_sum_vec]);
    it stores once to each element but the last and [K+1] times to the
    last one, and every access to the caller's buffers is within the
    contract. *)
Theorem sse_in_aligned_fit {F} `{Arith F}
    (in_ kernel out0 : list F) (N K : Z) :
  N = Z.of_nat (length in_) -> K = Z.of_nat (length kernel) ->
  1 <= K <= N -> Z.of_nat (length out0) = N - K + 1 ->
  N mod 4 = 0 -> K mod 4 = 0 ->
  aligned_post in_ kernel N K
    (fun x => conv_sum_vec in_ kernel K x (Z.to_nat K))
    (run (convolve_sse_in_aligned in_ N kernel K) out0).
Proof. intros. now apply convolve_sse_in_aligned_post. Qed.

Lemma sse_in_aligned_fit_witness :
  aligned_post signal8 kernel4 8 4
    (fun x => conv_sum_vec signal8 kernel4 4 x (Z.to_nat 4))
    (run (convolve_sse_in_aligned signal8 8 kernel4 4) (replicate 5 fzero)).
Proof.
  apply (sse_in_aligned_fit signal8 kernel4 (replicate 5 fzero) 8 4);
    [reflexivity|reflexivity|lia|reflexivity|reflexivity|reflexivity].
Defined.

(** X19. Where multiplication is commutative, as it is in IEEE single
    precision, [convolve_sse_in_aligned] leaves the expected output
    [conv_valid], bit for bit, on every valid call with [N] and [K]
    multiples of four: it adds the products in the order of the
    specification. *)
Theorem sse_in_aligned_expected_output {F} `{Arith F}
    (fmul_comm : forall x y : F, fmul x y = fmul y x)
    (in_ kernel out0 : list F) (N K : Z) :
  N = Z.of_nat (length in_) -> K = Z.of_nat (length kernel) ->
  1 <= K <= N -> Z.of_nat (length out0) = N - K + 1 ->
  N mod 4 = 0 -> K mod 4 = 0 ->
  out_of (run (convolve_sse_in_aligned in_ N kernel K) out0) =
    Some (conv_valid in_ kernel).
Proof.
  intros HN HK HKN Hout HN4 HK4.
  apply (aligned_post_valid in_ kernel N K
           (fun x => conv_sum_vec in_ kernel K x (Z.to_nat K)));
    auto; try lia.
  - intros x _. now apply conv_sum_vec_comm.
  - now apply convolve_sse_in_aligned_post.
Qed.

Lemma sse_in_aligned_expected_output_witness :
  out_of (run (convolve_sse_in_aligned signal8 8 kernel4 4)
            (replicate 5 fzero)) = Some (conv_valid signal8 kernel4).
Proof.
  apply (@sse_in_aligned_expected_output spec_float b32_arith b32_mul_comm
           signal8 kernel4 (replicate 5 fzero) 8 4);
    [reflexivity|reflexivity|lia|reflexivity|reflexivity|reflexivity].
Defined.



(** X21. The four routines with blocks of sixteen outputs that load from
    aligned addresses need a signal length that is a multiple of 16: for a
    signal of [N > 16] samples with [N] not a multiple of 16, no call of
    [convolve_sse_unrolled_vector],
    [convolve_avx_unrolled_vector_m128_load],
    [convolve_avx_unrolled_vector_aligned] or
    [convolve_avx_unrolled_vector_partial_aligned] returns, whatever the
    kernel and the output buffer are.  Either the rows of [in_aligned] are
    not a multiple of the register long, and the first block loads from an
    address that is not aligned, or the last block does not fit and loads
    elements of a copy that were never written.  In particular the signal
    lengths with [N - 16] equal to 15 modulo 16, on which the routines
    with unaligned loads return, are not accepted. *)
Theorem aligned_routines_need_multiple_of_sixteen {F} `{Arith F}
    (in_ kernel out0 : list F) (N kernel_length : Z) :
  N = Z.of_nat (length in_) -> 16 < N -> N mod 16 <> 0 ->
  out_of (run (convolve_sse_unrolled_vector in_ N kernel kernel_length)
            out0) = None /\
  out_of (run (convolve_avx_unrolled_vector_m128_load in_ N kernel
                 kernel_length) out0) = None /\
  out_of (run (convolve_avx_unrolled_vector_aligned in_ N kernel
                 kernel_length) out0) = None /\
  out_of (run (convolve_avx_unrolled_vector_partial_aligned in_ N kernel
                 kernel_length) out0) = None.
Proof.
  intros HN HN16 Hmod.
  split; [now apply convolve_sse_unrolled_vector_faults|].
  split; [now apply convolve_avx_m128_load_faults|].
  split; [now apply convolve_avx_aligned_faults|].
  now apply convolve_avx_partial_aligned_faults.
Qed.

Lemma aligned_routines_need_multiple_of_sixteen_witness :
  out_of (run (convolve_sse_unrolled_vector (take 31 signal32) 31 kernel16 16)
            (replicate 16 fzero)) = None /\
  out_of (run (convolve_avx_unrolled_vector_m128_load (take 31 signal32) 31
                 kernel16 16) (replicate 16 fzero)) = None /\
  out_of (run (convolve_avx_unrolled_vector_aligned (take 31 signal32) 31
                 kernel16 16) (replicate 16 fzero)) = None /\
  out_of (run (convolve_avx_unrolled_vector_partial_aligned
                 (take 31 signal32) 31 kernel16 16) (replicate 16 fzero)) =
    None.
Proof.
  apply (aligned_routines_need_multiple_of_sixteen (take 31 signal32)
           kernel16 (replicate 16 fzero) 31 16);
    [reflexivity|lia|discriminate].
Defined.

(** X22. [convolve_sse_unrolled_avx_vector], with blocks of eight outputs,
    needs a signal length that is a multiple of 8: for a signal of
    [N > 16] samples with [N] not a multiple of 8 no call returns,
    whatever the kernel and the output buffer are. *)
Theorem sse_unrolled_avx_vector_needs_multiple_of_eight {F} `{Arith F}
    (in_ kernel out0 : list F) (N kernel_length : Z) :
  N = Z.of_nat (length in_) -> 16 < N -> N mod 8 <> 0 ->
  out_of (run (convolve_sse_unrolled_avx_vector in_ N kernel kernel_length)
            out0) = None.
Proof. intros. now apply convolve_sse_unrolled_avx_vector_faults. Qed.

Lemma sse_unrolled_avx_vector_needs_multiple_of_eight_witness :
  out_of (run (convolve_sse_unrolled_avx_vector (take 20 signal32) 20
                 kernel16 16) (replicate 5 fzero)) = None.
Proof.
  apply (sse_unrolled_avx_vector_needs_multiple_of_eight (take 20 signal32)
           kernel16 (replicate 5 fzero) 20 16);
    [reflexivity|lia|discriminate].
Defined.

(** X23. [convolve_sse_in_aligned] needs both lengths to be multiples of
    four: with [1 <= K < N] and [N] or [K] not a multiple of four no call
    returns, whatever the buffers are.  With such an [N] the second row of
    [in_aligned] is not aligned; with such a [K] the last tile of four
    taps reads [kernel_reverse[K]], an element that the array does not
    have. *)
Theorem sse_in_aligned_needs_multiples_of_four {F} `{Arith F}
    (in_ kernel out0 : list F) (N K : Z) :
  1 <= K < N -> N mod 4 <> 0 \/ K mod 4 <> 0 ->
  out_of (run (convolve_sse_in_aligned in_ N kernel K) out0) = None.
Proof. apply convolve_sse_in_aligned_faults. Qed.

Lemma sse_in_aligned_needs_multiples_of_four_witness :
  out_of (run (convolve_sse_in_aligned signal8 8 kernel3 3)
            (replicate 6 fzero)) = None.
Proof.
  apply (sse_in_aligned_needs_multiples_of_four signal8 kernel3
           (replicate 6 fzero) 8 3); [lia|right; discriminate].
Defined.

(** X24. On a valid call with a kernel of 16 coefficients and a signal
    length that is a multiple of 16, [convolve_sse_unrolled_vector],
    [convolve_avx_unrolled_vector_m128_load] and
    [convolve_avx_unrolled_vector_partial_aligned] leave in [out] the
    output of [convolve_avx_unrolled_vector_unaligned], bit for bit: they
    add the products of every output in the same order. *)
Theorem aligned_routines_same_output {F} `{Arith F}
    (in_ kernel out0 : list F) (N kernel_length : Z) :
  N = Z.of_nat (length in_) -> 16 = Z.of_nat (length kernel) -> 16 <= N ->
  Z.of_nat (length out0) = N - 16 + 1 -> N mod 16 = 0 ->
  out_of (run (convolve_avx_unrolled_vector_unaligned in_ N kernel
                 kernel_length) out0) = Some (avx_output in_ kernel N) /\
  out_of (run (convolve_sse_unrolled_vector in_ N kernel kernel_length)
            out0) = Some (avx_output in_ kernel N) /\
  out_of (run (convolve_avx_unrolled_vector_m128_load in_ N kernel
                 kernel_length) out0) = Some (avx_output in_ kernel N) /\
  out_of (run (convolve_avx_unrolled_vector_partial_aligned in_ N kernel
                 kernel_length) out0) = Some (avx_output in_ kernel N).
Proof.
  intros HN HK HKN Hout Hmod.
  pose proof (Z.div_mod N 16 ltac:(lia)) as Hdm.
  assert (Hfit : (N - 16) mod 16 = 0 \/ (N - 16) mod 16 = 15).
  { left. apply (mod_of_mul 16 (N / 16 - 1)); lia. }
  assert (HN4 : N mod 4 = 0) by (apply (mod_of_mul 4 (4 * (N / 16))); lia).
  split; [|split; [|split]]; apply avx_family_post_out; auto.
  - now apply convolve_avx_unaligned_family_post.
  - now apply convolve_sse_unrolled_vector_post.
  - rewrite (convolve_avx_m128_load_copies in_ kernel out0 N kernel_length
               kernel_length HN4).
    now apply convolve_avx_copies_post.
  - now apply convolve_avx_partial_aligned_post.
Qed.

Lemma aligned_routines_same_output_witness :
  out_of (run (convolve_avx_unrolled_vector_unaligned signal32 32 kernel16
                 16) (replicate 17 fzero)) =
    Some (avx_output signal32 kernel16 32) /\
  out_of (run (convolve_sse_unrolled_vector signal32 32 kernel16 16)
            (replicate 17 fzero)) = Some (avx_output signal32 kernel16 32) /\
  out_of (run (convolve_avx_unrolled_vector_m128_load signal32 32 kernel16
                 16) (replicate 17 fzero)) =
    Some (avx_output signal32 kernel16 32) /\
  out_of (run (convolve_avx_unrolled_vector_partial_aligned signal32 32
                 kernel16 16) (replicate 17 fzero)) =
    Some (avx_output signal32 kernel16 32).
Proof.
  apply (aligned_routines_same_output signal32 kernel16 (replicate 17 fzero)
           32 16);
    [reflexivity|reflexivity|lia|reflexivity|reflexivity].
Defined.



(** X26. Like the AVX routines of C9, the routines that load from aligned
    addresses and take the kernel to have [KERNEL_LENGTH = 16]
    coefficients ignore their argument [kernel_length] and the kernel past
    its first 16 coefficients: two calls that differ in these only end in
    the same result. *)
Theorem aligned_kernels_ignore_kernel_length {F} `{Arith F}
    (in_ out0 kernel1 kernel2 : list F)
    (N kernel_length1 kernel_length2 : Z) :
  take 16 kernel1 = take 16 kernel2 ->
  run (convolve_sse_unrolled_avx_vector in_ N kernel1 kernel_length1) out0 =
    run (convolve_sse_unrolled_avx_vector in_ N kernel2 kernel_length2)
      out0 /\
  run (convolve_sse_unrolled_vector in_ N kernel1 kernel_length1) out0 =
    run (convolve_sse_unrolled_vector in_ N kernel2 kernel_length2) out0 /\
  run (convolve_avx_unrolled_vector_m128_load in_ N kernel1 kernel_length1)
      out0 =
    run (convolve_avx_unrolled_vector_m128_load in_ N kernel2 kernel_length2)
      out0 /\
  run (convolve_avx_unrolled_vector_aligned in_ N kernel1 kernel_length1)
      out0 =
    run (convolve_avx_unrolled_vector_aligned in_ N kernel2 kernel_length2)
      out0 /\
  run (convolve_avx_unrolled_vector_partial_aligned in_ N kernel1
         kernel_length1) out0 =
    run (convolve_avx_unrolled_vector_partial_aligned in_ N kernel2
           kernel_length2) out0.
Proof. apply aligned_kernels_prefix. Qed.

Lemma aligned_kernels_ignore_kernel_length_witness :
  run (convolve_sse_unrolled_avx_vector (seqZ 1 32) 32 (seqZ 1 16 ++ [99]) 17)
      (seqZ 0 17) =
    run (convolve_sse_unrolled_avx_vector (seqZ 1 32) 32
           (seqZ 1 16 ++ [5; 6]) 3) (seqZ 0 17) /\
  run (convolve_sse_unrolled_vector (seqZ 1 32) 32 (seqZ 1 16 ++ [99]) 17)
      (seqZ 0 17) =
    run (convolve_sse_unrolled_vector (seqZ 1 32) 32 (seqZ 1 16 ++ [5; 6]) 3)
      (seqZ 0 17) /\
  run (convolve_avx_unrolled_vector_m128_load (seqZ 1 32) 32
         (seqZ 1 16 ++ [99]) 17) (seqZ 0 17) =
    run (convolve_avx_unrolled_vector_m128_load (seqZ 1 32) 32
           (seqZ 1 16 ++ [5; 6]) 3) (seqZ 0 17) /\
  run (convolve_avx_unrolled_vector_aligned (seqZ 1 32) 32
         (seqZ 1 16 ++ [99]) 17) (seqZ 0 17) =
    run (convolve_avx_unrolled_vector_aligned (seqZ 1 32) 32
           (seqZ 1 16 ++ [5; 6]) 3) (seqZ 0 17) /\
  run (convolve_avx_unrolled_vector_partial_aligned (seqZ 1 32) 32
         (seqZ 1 16 ++ [99]) 17) (seqZ 0 17) =
    run (convolve_avx_unrolled_vector_partial_aligned (seqZ 1 32) 32
           (seqZ 1 16 ++ [5; 6]) 3) (seqZ 0 17).
Proof.
  apply (aligned_kernels_ignore_kernel_length (seqZ 1 32) (seqZ 0 17)
           (seqZ 1 16 ++ [99]) (seqZ 1 16 ++ [5; 6]) 32 17 3).
  reflexivity.
Defined.


